(** * P_PumpControl: the pump-controller firmware and its web front-end

    A shallow embedding of the Arduino sketch [PumpController.ino] (four
    stepper channels X, Y, Z, A behind DRV8825 drivers, a line-oriented
    serial protocol, a polled pulse scheduler) and of the methods of
    the browser front-end ([frontend/script.js]) that start and stop
    pumps, read the status and handle the selection boxes.

    The sketch targets the Arduino Uno named in the repository's hardware
    requirements, an ATmega328P: [int] is 16 bits wide, [long] and
    [unsigned long] are 32 bits wide, and [float] (as well as [double])
    is IEEE 754 binary32.  Integers are modelled as [Z] with the
    wrap-around written out, floats with the Standard Library's
    [SpecFloat] at precision 24. *)

From stdpp Require Import base list gmap strings.
From Stdlib Require Import ZArith Lia Bool Ascii String SpecFloat.

Open Scope Z_scope.

(** ** Machine integers of the ATmega328P *)

Module Machine.

(** [int]: 16-bit two's complement. *)
Definition wrap_int (z : Z) : Z := (z + 32768) mod 65536 - 32768.

(** [long]: 32-bit two's complement. *)
Definition wrap_long (z : Z) : Z := (z + 2147483648) mod 4294967296 - 2147483648.

(** [unsigned long]: 32 bits, arithmetic modulo 2^32. *)
Definition wrap_ulong (z : Z) : Z := z mod 4294967296.

End Machine.

(** ** IEEE 754 binary32, the sketch's [float] *)

Module F32.

Definition prec : Z := 24.
Definition emax : Z := 128.

Definition float32 : Type := spec_float.

(** Conversion of an integer, rounding to nearest even. *)
Definition of_Z (z : Z) : float32 := binary_normalize prec emax z 0 false.

Definition div (x y : float32) : float32 := SFdiv prec emax x y.
Definition mul (x y : float32) : float32 := SFmul prec emax x y.
Definition neg (x : float32) : float32 := SFopp x.

(** The C comparison operators; each is false on a NaN operand. *)
Definition eqb (x y : float32) : bool := SFeqb x y.
Definition gtb (x y : float32) : bool := SFltb y x.
Definition geb (x y : float32) : bool := SFleb y x.

Definition zero : float32 := S754_zero false.

Definition is_nan (x : float32) : bool :=
  match x with S754_nan => true | _ => false end.

(** The order of the reals on floats, as propositions; a NaN is related
    to nothing. *)
Definition lt (x y : float32) : Prop := SFcompare x y = Some Lt.
Definition le (x y : float32) : Prop :=
  SFcompare x y = Some Lt \/ SFcompare x y = Some Eq.

(** A float that the 32-bit format can hold. *)
Definition valid (x : float32) : bool := valid_binary prec emax x.

End F32.

Abbreviation float32 := F32.float32.

(** ** The rounding of binary32 operations, in integers *)

Module Rounding.

(** Truncation of the rational [A / B]: the quotient with the round bit
    and the sticky bit of what is cut off, and the same as a location. *)
Definition rbit (A B : Z) : bool := B <=? 2 * (A mod B).
Definition sbit (A B : Z) : bool := negb (A mod B =? 0) && negb (2 * (A mod B) =? B).
Definition rec_of (A B : Z) : shr_record := Build_shr_record (A / B) (rbit A B) (sbit A B).

Definition loc_of (A B : Z) : location :=
  if A mod B =? 0 then loc_Exact else loc_Inexact (2 * (A mod B) ?= B).

(** The canonical exponent of binary32 for a number of magnitude [x]. *)
Definition fx (x : Z) : Z := fexp 24 128 x.

(** The float with mantissa [m1] (at most [2 ^ 24]) and exponent [f]. *)
Definition round_nf (m1 f : Z) : spec_float :=
  if m1 =? 0 then S754_zero false
  else if m1 <? 2 ^ 24 then
    if f <=? 104 then S754_finite false (Z.to_pos m1) f else S754_infinity false
  else
    if f + 1 <=? 104 then S754_finite false (Z.to_pos (2 ^ 23)) (f + 1)
    else S754_infinity false.

(** The value of a non-negative float in units of [2 ^ -149], the
    smallest positive float; [+infinity] lies just above the largest
    finite float. *)
Definition INF : Z := 2 ^ 277.

Definition ordZ (x : spec_float) : Z :=
  match x with
  | S754_zero _ => 0
  | S754_finite _ m e => Zpos m * 2 ^ (e + 149)
  | S754_infinity _ => INF
  | S754_nan => 0
  end.

(** A non-negative binary32 value: +0, a positive finite float with a
    canonical mantissa and exponent, or +infinity. *)
Definition canon (x : spec_float) : Prop :=
  match x with
  | S754_zero false => True
  | S754_infinity false => True
  | S754_finite false m e => bounded 24 128 m e = true
  | _ => False
  end.

Definition is_finite_pos (c : spec_float) : Prop :=
  match c with S754_finite false m e => bounded 24 128 m e = true | _ => False end.

(** A floor below every exponent that the operations produce. *)
Definition E0 : Z := -400.

(** The float nearest to [N / D * 2 ^ E0]. *)
Definition rnd (N D : Z) : spec_float :=
  let f := fx (Zdigits2 (N / D) + E0) in
  round_nf (round_nearest_even (N / (D * 2 ^ (f - E0))) (loc_of N (D * 2 ^ (f - E0)))) f.

End Rounding.

(** ** The Arduino [String] operations the sketch uses *)

Module WString.

Definition NUL : ascii := "000"%char.

Definition is_space (c : ascii) : bool :=
  let n := nat_of_ascii c in (n =? 32)%nat || ((9 <=? n)%nat && (n <=? 13)%nat).

Definition is_digit (c : ascii) : bool :=
  let n := nat_of_ascii c in (48 <=? n)%nat && (n <=? 57)%nat.

Definition digit_val (c : ascii) : Z := Z.of_nat (nat_of_ascii c) - 48.

Definition to_lower (c : ascii) : ascii :=
  let n := nat_of_ascii c in
  if (65 <=? n)%nat && (n <=? 90)%nat then ascii_of_nat (n + 32) else c.

(** [s.charAt(i)]: the NUL character when [i] is out of range. *)
Definition charAt (s : string) (i : nat) : ascii :=
  match String.get i s with Some c => c | None => NUL end.

(** [s.substring(left, right)]: the bounds are swapped when out of
    order and [right] is clamped to the length. *)
Definition substring (s : string) (left right : nat) : string :=
  let l := Nat.min left right in
  let r := Nat.min (Nat.max left right) (String.length s) in
  if (String.length s <=? l)%nat then EmptyString
  else String.substring l (r - l) s.

(** [s.indexOf(c)]: -1 when [c] does not occur. *)
Fixpoint indexOf_from (c : ascii) (s : string) (i : Z) : Z :=
  match s with
  | EmptyString => -1
  | String d r => if Ascii.eqb d c then i else indexOf_from c r (i + 1)
  end.

Definition indexOf (s : string) (c : ascii) : Z := indexOf_from c s 0.

(** [s.startsWith(p)]. *)
Fixpoint startsWith (s p : string) : bool :=
  match p with
  | EmptyString => true
  | String c p' =>
      match s with
      | String d s' => Ascii.eqb d c && startsWith s' p'
      | EmptyString => false
      end
  end.

Fixpoint ltrim (s : string) : string :=
  match s with
  | String c r => if is_space c then ltrim r else s
  | EmptyString => EmptyString
  end.

Fixpoint rtrim (s : string) : string :=
  match s with
  | String c r =>
      match rtrim r with
      | EmptyString => if is_space c then EmptyString else String c EmptyString
      | t => String c t
      end
  | EmptyString => EmptyString
  end.

(** [s.trim()]. *)
Definition trim (s : string) : string := rtrim (ltrim s).

(** The leading run of decimal digits of [s]: its value on top of
    [acc], how many digits it has, and what follows it. *)
Fixpoint take_digits (s : string) (acc : Z) (n : nat) : Z * nat * string :=
  match s with
  | String c r =>
      if is_digit c then take_digits r (10 * acc + digit_val c) (S n)
      else (acc, n, s)
  | EmptyString => (acc, n, s)
  end.

Definition take_sign (s : string) : bool * string :=
  match s with
  | String "-"%char r => (true, r)
  | String "+"%char r => (false, r)
  | _ => (false, s)
  end.

(** [s.toInt()] is C's [atol]: blanks, a sign, digits; anything else
    ends the number, and no digits at all give 0. *)
Definition toInt (s : string) : Z :=
  let '(neg, r) := take_sign (ltrim s) in
  let '(v, _, _) := take_digits r 0 0 in
  Machine.wrap_long (if neg then - v else v).

Definition lower3 (s : string) : string :=
  match s with
  | String a (String b (String c _)) =>
      String (to_lower a) (String (to_lower b) (String (to_lower c) EmptyString))
  | _ => EmptyString
  end.

(** The float nearest to [m * 10^e], for [m >= 0]. *)
Definition decimal_to_float (neg : bool) (m e : Z) : float32 :=
  match m with
  | Zpos p =>
      if 0 <=? e then
        binary_normalize F32.prec F32.emax
          ((if neg then - m else m) * 10 ^ e) 0 false
      else
        SFdiv F32.prec F32.emax
          (S754_finite neg p 0)
          (S754_finite false (Z.to_pos (10 ^ (- e))) 0)
  | _ => S754_zero neg
  end.

(** [s.toFloat()] is C's [strtod] narrowed to [float]: blanks, a sign,
    then [inf], [nan] (in any case) or a decimal number with an
    optional fraction and exponent; no digits at all give 0. *)
Definition toFloat (s : string) : float32 :=
  let '(neg, r) := take_sign (ltrim s) in
  if String.eqb (lower3 r) "inf" then S754_infinity neg
  else if String.eqb (lower3 r) "nan" then S754_nan
  else
    let '(m1, n1, r1) := take_digits r 0 0 in
    let '(m2, n2, r2) :=
      match r1 with
      | String "."%char r1' => take_digits r1' m1 0
      | _ => (m1, 0%nat, r1)
      end in
    if ((n1 + n2)%nat =? 0)%nat then S754_zero neg
    else
      let x :=
        match r2 with
        | String c r3 =>
            if Ascii.eqb (to_lower c) "e"%char then
              let '(xneg, r4) := take_sign r3 in
              let '(xv, xn, _) := take_digits r4 0 0 in
              if (xn =? 0)%nat then 0 else if xneg then - xv else xv
            else 0
        | EmptyString => 0
        end in
      decimal_to_float neg m2 (x - Z.of_nat n2).

End WString.

(** ** The firmware: [PumpController.ino] *)

Module Firmware.

Import Machine WString.

Definition HIGH : bool := true.
Definition LOW : bool := false.

Definition X_STEP_PIN : Z := 2.
Definition X_DIR_PIN : Z := 5.
Definition X_ENABLE_PIN : Z := 8.

Definition Y_STEP_PIN : Z := 3.
Definition Y_DIR_PIN : Z := 6.
Definition Y_ENABLE_PIN : Z := 8.

Definition Z_STEP_PIN : Z := 4.
Definition Z_DIR_PIN : Z := 7.
Definition Z_ENABLE_PIN : Z := 8.

Definition A_STEP_PIN : Z := 12.
Definition A_DIR_PIN : Z := 13.
Definition A_ENABLE_PIN : Z := 8.

Definition STEPS_PER_REV : float32 := F32.of_Z 200.
Definition MICROSTEPPING : Z := 16.
Definition EFFECTIVE_STEPS_PER_REV : float32 :=
  F32.mul STEPS_PER_REV (F32.of_Z MICROSTEPPING).

(** [struct Pump]. *)
Record Pump : Type := mkPump {
  stepPin : Z;
  dirPin : Z;
  enablePin : Z;
  isRunning : bool;
  rpm : float32;
  duration : Z;            (* int *)
  continuous : bool;
  startTime : Z;           (* unsigned long, milliseconds *)
  intervalMicros : float32;
  lastStepTime : Z;        (* unsigned long, microseconds *)
  name : ascii
}.

(** What the sketch hands to [Serial]: the arguments of [print], and
    the line end that [println] adds. *)
Inductive SerialItem : Type :=
| PrintStr (s : string)
| PrintChar (c : ascii)
| PrintInt (z : Z)
| PrintFloat (f : float32) (digits : nat)
| Newline.

(** One reading of the two hardware clocks, [millis()] and [micros()]. *)
Record Clock : Type := mkClock { millis : Z; micros : Z }.

(** The sketch's globals together with the board's outputs: the level
    of every pin written so far, the sequence of [digitalWrite] calls,
    and everything sent over the serial line. *)
Record Board : Type := mkBoard {
  pumps : list Pump;
  pinLevel : gmap Z bool;
  pinWrites : list (Z * bool);
  serialOut : list SerialItem;
  inputString : string;
  stringComplete : bool
}.

Definition with_pumps (ps : list Pump) (b : Board) : Board :=
  mkBoard ps (pinLevel b) (pinWrites b) (serialOut b) (inputString b) (stringComplete b).

Definition with_input (s : string) (c : bool) (b : Board) : Board :=
  mkBoard (pumps b) (pinLevel b) (pinWrites b) (serialOut b) s c.

(** [pumps[i] = p], through the pointer [&pumps[i]]. *)
Definition set_pump (i : nat) (p : Pump) (b : Board) : Board :=
  with_pumps (<[i := p]> (pumps b)) b.

Definition digitalWrite (pin : Z) (level : bool) (b : Board) : Board :=
  mkBoard (pumps b) (<[pin := level]> (pinLevel b)) (pinWrites b ++ [(pin, level)])
          (serialOut b) (inputString b) (stringComplete b).

Definition digitalRead (pin : Z) (b : Board) : bool :=
  default LOW (pinLevel b !! pin).

(** [pinMode] and [delayMicroseconds] leave the modelled state alone. *)
Definition pinMode_OUTPUT (pin : Z) (b : Board) : Board := b.
Definition delayMicroseconds (us : Z) (b : Board) : Board := b.

Definition Serial_emit (items : list SerialItem) (b : Board) : Board :=
  mkBoard (pumps b) (pinLevel b) (pinWrites b) (serialOut b ++ items)
          (inputString b) (stringComplete b).

Definition Serial_print (s : string) : Board -> Board := Serial_emit [PrintStr s].
Definition Serial_println (s : string) : Board -> Board := Serial_emit [PrintStr s; Newline].

(** Sequencing of statements. *)
Definition seq_stmt (f g : Board -> Board) : Board -> Board := fun b => g (f b).
Infix ";>" := seq_stmt (at level 61, left associativity).

(** [Pump pumps[4] = { ... }]. *)
Definition initial_pump (step dir enable : Z) (c : ascii) : Pump :=
  mkPump step dir enable false (F32.of_Z 0) 0 false 0 (F32.of_Z 0) 0 c.

Definition initial_pumps : list Pump :=
  [ initial_pump X_STEP_PIN X_DIR_PIN X_ENABLE_PIN "X";
    initial_pump Y_STEP_PIN Y_DIR_PIN Y_ENABLE_PIN "Y";
    initial_pump Z_STEP_PIN Z_DIR_PIN Z_ENABLE_PIN "Z";
    initial_pump A_STEP_PIN A_DIR_PIN A_ENABLE_PIN "A" ].

Definition power_on : Board := mkBoard initial_pumps ∅ [] [] EmptyString false.

Definition setup_pump (b : Board) (p : Pump) : Board :=
  (pinMode_OUTPUT (stepPin p) ;> pinMode_OUTPUT (dirPin p) ;>
   pinMode_OUTPUT (enablePin p) ;>
   digitalWrite (enablePin p) HIGH ;>
   digitalWrite (dirPin p) LOW ;>
   digitalWrite (stepPin p) LOW) b.

Definition setup (b : Board) : Board :=
  Serial_println "Arduino Pump Controller Ready (Direct Pulse Mode)"
    (foldl setup_pump b (pumps b)).

(** [findPumpIndex]: the first index whose name matches, or -1. *)
Fixpoint findPumpIndex_from (ps : list Pump) (i : Z) (pumpChar : ascii) : Z :=
  match ps with
  | [] => -1
  | p :: ps' => if Ascii.eqb (name p) pumpChar then i
                else findPumpIndex_from ps' (i + 1) pumpChar
  end.

Definition findPumpIndex (pumpChar : ascii) (b : Board) : Z :=
  findPumpIndex_from (pumps b) 0 pumpChar.

(** The Arduino macro [abs(x) ((x)>0?(x):-(x))]. *)
Definition abs (x : float32) : float32 :=
  if F32.gtb x (F32.of_Z 0) then x else F32.neg x.

Definition stopped (p : Pump) : Pump :=
  mkPump (stepPin p) (dirPin p) (enablePin p) false (rpm p) (duration p)
         (continuous p) (startTime p) (intervalMicros p) (lastStepTime p) (name p).

Definition stopPump (pumpIndex : nat) (b : Board) : Board :=
  match pumps b !! pumpIndex with
  | Some pump =>
      if isRunning pump then
        (set_pump pumpIndex (stopped pump) ;>
         digitalWrite (enablePin pump) HIGH ;>
         Serial_print "Stopped pump " ;>
         Serial_emit [PrintChar (name pump); Newline]) b
      else b
  | None => b
  end.

Definition stepsPerSec (r : float32) : float32 :=
  F32.mul (F32.div r (F32.of_Z 60)) EFFECTIVE_STEPS_PER_REV.

(** [(1.0 / stepsPerSec) * 1e6] for an [rpm] that is already [abs(rpm)]. *)
Definition interval_of (r : float32) : float32 :=
  F32.mul (F32.div (F32.of_Z 1) (stepsPerSec r)) (F32.of_Z 1000000).

Definition started (p : Pump) (r : float32) (dur : Z) (cont : bool)
           (clk : Clock) : Pump :=
  mkPump (stepPin p) (dirPin p) (enablePin p) true r dur cont
         (wrap_ulong (millis clk)) (interval_of r) (wrap_ulong (micros clk))
         (name p).

Definition startPump (clk : Clock) (pumpIndex : nat) (r : float32)
           (dur : Z) (cont : bool) (b : Board) : Board :=
  let b1 := stopPump pumpIndex b in
  match pumps b1 !! pumpIndex with
  | Some pump =>
      let b2 := digitalWrite (dirPin pump) (if F32.gtb r (F32.of_Z 0) then HIGH else LOW) b1 in
      let r := abs r in
      let b3 := set_pump pumpIndex (started pump r dur cont clk) b2 in
      let b4 := digitalWrite (enablePin pump) LOW b3 in
      (Serial_print "Started pump " ;>
       Serial_emit [PrintChar (name pump)] ;>
       Serial_print " @ " ;>
       Serial_emit [PrintFloat r 2] ;>
       Serial_print " RPM " ;>
       Serial_println (if digitalRead (dirPin pump) b4 then "(Forward)" else "(Reverse)")) b4
  | None => b1
  end.

(** *** Command handlers *)

(** The field splitter of [handleStartCommand]: [parts], [partIndex]
    and [startIndex] while [i] runs from 0 to [command.length()]. *)
Record Fields : Type := mkFields {
  parts : list string;
  partIndex : nat;
  startIndex : nat
}.

Definition split_step (command : string) (f : Fields) (i : nat) : Fields :=
  if (i =? String.length command)%nat || Ascii.eqb (charAt command i) ","%char then
    if (partIndex f <? 5)%nat then
      mkFields (<[partIndex f := substring command (startIndex f) i]> (parts f))
               (S (partIndex f)) (i + 1)
    else mkFields (parts f) (partIndex f) (i + 1)
  else f.

Definition split_fields (command : string) : Fields :=
  foldl (split_step command) (mkFields (replicate 5 EmptyString) 0 0)
        (seq 0 (String.length command + 1)).

Definition part (f : Fields) (k : nat) : string := default EmptyString (parts f !! k).

(** [rpm == 0 || abs(rpm) > 3000]. *)
Definition rpm_out_of_range (r : float32) : bool :=
  F32.eqb r (F32.of_Z 0) || F32.gtb (abs r) (F32.of_Z 3000).

Definition handleStartCommand (clk : Clock) (command : string) (b : Board) : Board :=
  let f := split_fields command in
  if negb (partIndex f =? 5)%nat then
    Serial_println "ERROR: Invalid START command format" b
  else
    let pumpChar := charAt (part f 1) 0 in
    let r := toFloat (part f 2) in
    let dur := wrap_int (toInt (part f 3)) in
    let cont := wrap_int (toInt (part f 4)) in
    let pumpIndex := findPumpIndex pumpChar b in
    if pumpIndex =? -1 then
      Serial_println "ERROR: Invalid pump identifier" b
    else if rpm_out_of_range r then
      Serial_println "ERROR: RPM must be between -3000 and 3000" b
    else if (cont =? 0) && (dur <=? 0) then
      Serial_println "ERROR: Duration must be positive" b
    else
      (startPump clk (Z.to_nat pumpIndex) r dur (cont =? 1) ;>
       Serial_println "OK") b.

Definition handleStopCommand (command : string) (b : Board) : Board :=
  let commaIndex := indexOf command ","%char in
  if (commaIndex =? -1) || (commaIndex =? Z.of_nat (String.length command) - 1) then
    Serial_println "ERROR: Invalid STOP command" b
  else
    let pumpChar := charAt command (Z.to_nat (commaIndex + 1)) in
    let pumpIndex := findPumpIndex pumpChar b in
    if pumpIndex =? -1 then
      Serial_println "ERROR: Invalid pump" b
    else
      (stopPump (Z.to_nat pumpIndex) ;> Serial_println "OK") b.

Definition handleEmergencyStop (b : Board) : Board :=
  Serial_println "OK" (foldl (fun b i => stopPump i b) b (seq 0 4)).

Definition dquote : string := String "034"%char EmptyString.

(** The text [{"X":] and its siblings. *)
Definition status_key (lead id : string) : string :=
  (lead ++ dquote ++ id ++ dquote ++ ":")%string.

Definition running_bit (i : nat) (b : Board) : Z :=
  match pumps b !! i with
  | Some p => if isRunning p then 1 else 0
  | None => 0
  end.

Definition handleStatusRequest (b : Board) : Board :=
  Serial_emit
    [ PrintStr (status_key "{" "X"); PrintInt (running_bit 0 b);
      PrintStr (status_key "," "Y"); PrintInt (running_bit 1 b);
      PrintStr (status_key "," "Z"); PrintInt (running_bit 2 b);
      PrintStr (status_key "," "A"); PrintInt (running_bit 3 b);
      PrintStr "}"; Newline ] b.

Definition processCommand (clk : Clock) (command : string) (b : Board) : Board :=
  let command := trim command in
  if startsWith command "START" then handleStartCommand clk command b
  else if startsWith command "STOP" then handleStopCommand command b
  else if String.eqb command "EMERGENCY" then handleEmergencyStop b
  else if String.eqb command "STATUS" then handleStatusRequest b
  else Serial_println "ERROR: Unknown command" b.

(** *** The pulse scheduler *)

Definition pulsed (p : Pump) (nowMicros : Z) : Pump :=
  mkPump (stepPin p) (dirPin p) (enablePin p) (isRunning p) (rpm p) (duration p)
         (continuous p) (startTime p) (intervalMicros p) nowMicros (name p).

(** [nowMillis - pump->startTime >= (unsigned long)(pump->duration * 1000)]:
    the product is an [int] product and is widened afterwards. *)
Definition duration_expired (nowMillis : Z) (p : Pump) : bool :=
  wrap_ulong (wrap_int (duration p * 1000)) <=? wrap_ulong (nowMillis - startTime p).

(** [(nowMicros - pump->lastStepTime) >= pump->intervalMicros]: the
    unsigned difference is converted to [float] for the comparison. *)
Definition step_due (nowMicros : Z) (p : Pump) : bool :=
  F32.geb (F32.of_Z (wrap_ulong (nowMicros - lastStepTime p))) (intervalMicros p).

(** One step pulse, and the time stamp of it. *)
Definition pulse (i : nat) (pump : Pump) (nowMicros : Z) : Board -> Board :=
  digitalWrite (stepPin pump) HIGH ;>
  delayMicroseconds 2 ;>
  digitalWrite (stepPin pump) LOW ;>
  set_pump i (pulsed pump nowMicros).

(** The body of the [for] loop of [updatePumps] for index [i]. *)
Definition updatePump (nowMillis nowMicros : Z) (b : Board) (i : nat) : Board :=
  match pumps b !! i with
  | Some pump =>
      if negb (isRunning pump) then b
      else if negb (continuous pump) && duration_expired nowMillis pump then
        stopPump i b
      else if step_due nowMicros pump then pulse i pump nowMicros b
      else b
  | None => b
  end.

Definition updatePumps (clk : Clock) (b : Board) : Board :=
  let nowMillis := wrap_ulong (millis clk) in
  let nowMicros := wrap_ulong (micros clk) in
  foldl (updatePump nowMillis nowMicros) b (seq 0 4).

(** *** The main loop and the serial interrupt *)

(** [loop]: [clk1] is what the clocks show while a pending command is
    processed, [clk2] what they show when [updatePumps] starts. *)
Definition loop (clk1 clk2 : Clock) (b : Board) : Board :=
  let b1 :=
    if stringComplete b then
      with_input EmptyString false (processCommand clk1 (inputString b) b)
    else b in
  updatePumps clk2 b1.

Definition receive_char (b : Board) (inChar : ascii) : Board :=
  if Ascii.eqb inChar "010"%char then with_input (inputString b) true b
  else if negb (Ascii.eqb inChar "013"%char) then
    with_input (inputString b ++ String inChar EmptyString) (stringComplete b) b
  else b.

(** [serialEvent] with [bytes] waiting in the receive buffer. *)
Definition serialEvent (bytes : string) (b : Board) : Board :=
  foldl receive_char b (list_ascii_of_string bytes).

(** What can happen to a running board. *)
Inductive Event : Type :=
| EvSerial (bytes : string)
| EvLoop (clk1 clk2 : Clock).

Definition step (b : Board) (ev : Event) : Board :=
  match ev with
  | EvSerial bytes => serialEvent bytes b
  | EvLoop clk1 clk2 => loop clk1 clk2 b
  end.

Definition run (evs : list Event) : Board := foldl step (setup power_on) evs.

(** The states the board can be in after [setup]. *)
Inductive reachable : Board -> Prop :=
| reach_setup : reachable (setup power_on)
| reach_step b ev : reachable b -> reachable (step b ev).

(** One complete command line arriving and one pass of [loop]. *)
Definition send (clk : Clock) (line : string) (b : Board) : Board :=
  loop clk clk (serialEvent (line ++ String "010"%char EmptyString) b).

End Firmware.

(** ** The web front-end: [PumpController.startPump] of [script.js] *)

Module Frontend.

(** A JavaScript number: IEEE 754 binary64. *)
Definition number : Type := spec_float.

Definition prec : Z := 53.
Definition emax : Z := 1024.

Definition NaN : number := S754_nan.

(** [ToBoolean] of a number: 0, -0 and NaN are falsy. *)
Definition truthy (x : number) : bool :=
  match x with
  | S754_zero _ | S754_nan => false
  | _ => true
  end.

(** [x || 0]. *)
Definition or_zero (x : number) : number :=
  if truthy x then x else S754_zero false.

(** [x === 0]. *)
Definition is_zero (x : number) : bool := SFeqb x (S754_zero false).

Definition isNaN (x : number) : bool :=
  match x with S754_nan => true | _ => false end.

Definition decimal_to_number (neg : bool) (m e : Z) : number :=
  match m with
  | Zpos p =>
      if 0 <=? e then
        binary_normalize prec emax ((if neg then - m else m) * 10 ^ e) 0 false
      else
        SFdiv prec emax (S754_finite neg p 0)
              (S754_finite false (Z.to_pos (10 ^ (- e))) 0)
  | _ => S754_zero neg
  end.

(** The global [parseFloat]: blanks, a sign, then [Infinity] or the
    longest decimal literal; [NaN] when there is none. *)
Definition parseFloat (s : string) : number :=
  let '(neg, r) := WString.take_sign (WString.ltrim s) in
  if WString.startsWith r "Infinity" then S754_infinity neg
  else
    let '(m1, n1, r1) := WString.take_digits r 0 0 in
    let '(m2, n2, r2) :=
      match r1 with
      | String "."%char r1' => WString.take_digits r1' m1 0
      | _ => (m1, 0%nat, r1)
      end in
    if ((n1 + n2)%nat =? 0)%nat then NaN
    else
      let x :=
        match r2 with
        | String c r3 =>
            if Ascii.eqb (WString.to_lower c) "e"%char then
              let '(xneg, r4) := WString.take_sign r3 in
              let '(xv, xn, _) := WString.take_digits r4 0 0 in
              if (xn =? 0)%nat then 0 else if xneg then - xv else xv
            else 0
        | EmptyString => 0
        end in
      decimal_to_number neg m2 (x - Z.of_nat n2).

Definition hex_val (c : ascii) : option Z :=
  let n := nat_of_ascii (WString.to_lower c) in
  if WString.is_digit c then Some (WString.digit_val c)
  else if (97 <=? n)%nat && (n <=? 102)%nat then Some (Z.of_nat n - 87)
  else None.

Fixpoint take_hex (s : string) (acc : Z) (n : nat) : Z * nat :=
  match s with
  | String c r =>
      match hex_val c with
      | Some d => take_hex r (16 * acc + d) (S n)
      | None => (acc, n)
      end
  | EmptyString => (acc, n)
  end.

(** The global [parseInt] without a radix: blanks, a sign, then
    hexadecimal digits after [0x], decimal digits otherwise; [NaN]
    when there are none. *)
Definition parseInt (s : string) : number :=
  let '(neg, r) := WString.take_sign (WString.ltrim s) in
  let '(v, n) :=
    match r with
    | String "0"%char (String x r') =>
        if Ascii.eqb (WString.to_lower x) "x"%char then take_hex r' 0 0
        else let '(v, n, _) := WString.take_digits r 0 0 in (v, n)
    | _ => let '(v, n, _) := WString.take_digits r 0 0 in (v, n)
    end in
  if (n =? 0)%nat then NaN
  else if v =? 0 then S754_zero neg
  else binary_normalize prec emax (if neg then - v else v) 0 false.

(** An entry of [this.pumpStates]. *)
Record PumpState : Type := mkPumpState {
  running : bool;
  rpm : number;
  time : number;
  continuous : bool
}.

(** The part of the page that [startPump] reads: the value of the
    element each [querySelector] call finds for a pump id, [None] when
    the selector matches nothing. *)
Record Document : Type := mkDocument {
  rpm_input : string -> option string;
  time_input : string -> option string;
  continuous_checkbox : string -> option bool
}.

(** The JSON body of the [start_pump] request. *)
Record StartRequest : Type := mkStartRequest {
  req_pump : string;
  req_rpm : number;
  req_time : number;
  req_continuous : Z
}.

(** What the method does to the outside world. *)
Inductive Effect : Type :=
| ShowNotification (message type : string)
| Fetch (url method : string) (body : StartRequest)
| UpdatePumpDisplay (pump : string)
| ConsoleError (label message : string).

(** How the awaited [fetch] and [response.json()] turn out. *)
Inductive FetchOutcome : Type :=
| Rejected (message : string)
| Answered (success : bool) (message : string).

(** How the [async] method settles. *)
Inductive Completion : Type :=
| Fulfilled
| TypeError.

Record Controller : Type := mkController {
  pumpStates : gmap string PumpState;
  apiBaseUrl : string;
  effects : list Effect
}.

Definition emit (e : list Effect) (c : Controller) : Controller :=
  mkController (pumpStates c) (apiBaseUrl c) (effects c ++ e).

Definition showNotification (message type : string) : Controller -> Controller :=
  emit [ShowNotification message type].

(** [constructor]: the three pumps of the dashboard. *)
Definition pumps : list string := ["X"; "Y"; "Z"]%string.

Definition new_controller : Controller :=
  let idle := mkPumpState false (S754_zero false) (S754_zero false) false in
  mkController (<["X"%string := idle]> (<["Y"%string := idle]> (<["Z"%string := idle]> ∅)))
               "http://localhost:5000/api" [].

(** The [catch] block. *)
Definition start_failed (pump message : string) : Controller -> Controller :=
  emit [ ConsoleError "Error starting pump:" message;
         ShowNotification ("Error starting " ++ pump ++ " Pump: " ++ message) "error" ].

(** [async startPump(pump)], with the page [doc] and the outcome [net]
    of the request it may send. *)
Definition startPump (doc : Document) (net : FetchOutcome) (pump : string)
           (c : Controller) : Controller * Completion :=
  match rpm_input doc pump with
  | None => (c, TypeError)
  | Some rpm_text =>
    let rpm := or_zero (parseFloat rpm_text) in
    match time_input doc pump with
    | None => (c, TypeError)
    | Some time_text =>
      let time := or_zero (parseInt time_text) in
      match continuous_checkbox doc pump with
      | None => (c, TypeError)
      | Some continuous =>
        if is_zero rpm || isNaN rpm then
          (showNotification (pump ++ " Pump: RPM cannot be 0") "error" c, Fulfilled)
        else
          let c1 :=
            emit [Fetch (apiBaseUrl c ++ "/start_pump") "POST"
                        (mkStartRequest pump rpm time (if continuous then 1 else 0))] c in
          match net with
          | Rejected message => (start_failed pump message c1, Fulfilled)
          | Answered true _ =>
              match pumpStates c1 !! pump with
              | Some _ =>
                  (showNotification (pump ++ " Pump started successfully") "success"
                     (emit [UpdatePumpDisplay pump]
                        (mkController
                           (<[pump := mkPumpState true rpm time continuous]> (pumpStates c1))
                           (apiBaseUrl c1) (effects c1))),
                   Fulfilled)
              | None =>
                  (start_failed pump "Cannot set properties of undefined" c1, Fulfilled)
              end
          | Answered false message =>
              (showNotification ("Failed to start " ++ pump ++ " Pump: " ++ message) "error" c1,
               Fulfilled)
          end
      end
    end
  end.

End Frontend.

(** ** Vocabulary of the specification *)

Module Spec.

Import Machine WString Firmware.

(** The ordinary reading of [0 < |r| <= 3000]. *)
Definition valid_rpm (r : float32) : Prop :=
  F32.lt F32.zero (SFabs r) /\ F32.le (SFabs r) (F32.of_Z 3000).

(** The number of comma-separated fields of a line. *)
Fixpoint field_count (s : string) : nat :=
  match s with
  | EmptyString => 1
  | String c r => if Ascii.eqb c ","%char then S (field_count r) else field_count r
  end.

(** What follows the first comma of a line, if there is a comma. *)
Fixpoint after_comma (s : string) : option string :=
  match s with
  | EmptyString => None
  | String c r => if Ascii.eqb c ","%char then Some r else after_comma r
  end.

(** [c] is the id of a configured channel. *)
Definition known_channel (c : ascii) (b : Board) : Prop :=
  exists i p, pumps b !! i = Some p /\ name p = c.

(** The text [id] is the id of a configured channel. *)
Definition names_channel (id : string) (b : Board) : Prop :=
  exists i p, pumps b !! i = Some p /\ id = String (name p) EmptyString.

(** The channel state: every pump record and every output pin. *)
Definition same_channels (b b' : Board) : Prop :=
  pumps b' = pumps b /\ pinLevel b' = pinLevel b /\ pinWrites b' = pinWrites b.

(** The only thing sent in reply is the line [text]. *)
Definition replies (text : string) (b b' : Board) : Prop :=
  serialOut b' = serialOut b ++ [PrintStr text; Newline].

(** The DRV8825 enable input is active low. *)
Definition enable_asserted (p : Pump) (b : Board) : Prop :=
  digitalRead (enablePin p) b = LOW.

(** What [STATUS] prints when no channel is running. *)
Definition status_all_stopped : list SerialItem :=
  [ PrintStr (status_key "{" "X"); PrintInt 0;
    PrintStr (status_key "," "Y"); PrintInt 0;
    PrintStr (status_key "," "Z"); PrintInt 0;
    PrintStr (status_key "," "A"); PrintInt 0;
    PrintStr "}"; Newline ].

(** The [continuous] field of a START line as [handleStartCommand]
    reads it. *)
Definition continuous_field (line : string) : Z :=
  wrap_int (toInt (part (split_fields (trim line)) 4)).

(** The pending line, if it is complete and a START line, has a
    [continuous] field that satisfies [okc]. *)
Definition allowed_line (okc : Z -> Prop) (b : Board) : Prop :=
  stringComplete b = true ->
  startsWith (trim (inputString b)) "START" = true ->
  okc (continuous_field (inputString b)).

Definition zero_or_one (c : Z) : Prop := c = 0 \/ c = 1.

Definition binary_continuous (b : Board) : Prop := allowed_line zero_or_one b.

(** The states reachable when every START line that is processed has
    0 or 1 in its [continuous] field. *)
Inductive reachable_binary : Board -> Prop :=
| rb_setup : reachable_binary (setup power_on)
| rb_serial b bytes : reachable_binary b -> reachable_binary (serialEvent bytes b)
| rb_loop b clk1 clk2 :
    reachable_binary b -> binary_continuous b -> reachable_binary (loop clk1 clk2 b).

(** A channel that has not been activated since power-on. *)
Definition never_activated (i : nat) (p : Pump) : Prop :=
  initial_pumps !! i = Some p.

(** A channel whose running flag is clear. *)
Definition idle (j : nat) (b : Board) : Prop :=
  forall p, pumps b !! j = Some p -> isRunning p = false.

(** What never changes in a pump record. *)
Definition identity_of (p : Pump) : Z * Z * Z * ascii :=
  (stepPin p, dirPin p, enablePin p, name p).

Definition channels_intact (b : Board) : Prop :=
  identity_of <$> pumps b = identity_of <$> initial_pumps.

Definition enable_implies_running (b : Board) : Prop :=
  digitalRead X_ENABLE_PIN b = LOW ->
  exists i p, pumps b !! i = Some p /\ isRunning p = true.

Definition enable_inv (b : Board) : Prop :=
  channels_intact b /\ enable_implies_running b.

Definition duration_inv (b : Board) : Prop :=
  forall i p, pumps b !! i = Some p ->
              continuous p = true \/ 0 < duration p \/ never_activated i p.

(** The interval that a START with the whole-number RPM [z] stores. *)
Definition interval_at (z : Z) : float32 := interval_of (abs (F32.of_Z z)).

(** Two positive finite floats with the same digits. *)
Definition same_finite (x y : float32) : bool :=
  match x, y with
  | S754_finite false m e, S754_finite false m' e' => Pos.eqb m m' && Z.eqb e e'
  | _, _ => false
  end.

(** What is checked, by evaluation, for a whole number [n]: the
    interval is a positive finite float, it is the same for [-n], and
    below 3000 the interval of [n + 1] is smaller. *)
Definition interval_row_ok (n : Z) : bool :=
  same_finite (interval_at (- n)) (interval_at n)
  && ((3000 <=? n) || SFltb (interval_at (n + 1)) (interval_at n)).

(** The rows [start], [start + 1], ... , [start + count - 1]. *)
Fixpoint interval_rows_ok (count : nat) (start : Z) : bool :=
  match count with
  | O => true
  | S c => interval_row_ok start && interval_rows_ok c (start + 1)
  end.

(** *** Sample inputs *)

Definition c0 : Clock := mkClock 0 0.

Definition newline : string := String "010"%char EmptyString.

(** X and Y are started, then X is stopped. *)
Definition two_started_one_stopped : list Event :=
  [ EvSerial ("START,X,50,10,0" ++ newline); EvLoop c0 c0;
    EvSerial ("START,Y,50,10,0" ++ newline); EvLoop c0 c0;
    EvSerial ("STOP,X" ++ newline); EvLoop c0 c0 ].

(** A page on which every RPM input holds 0. *)
Definition sample_page : Frontend.Document :=
  Frontend.mkDocument (fun _ => Some "0"%string) (fun _ => Some "10"%string)
                      (fun _ => Some false).

End Spec.

(** ** The web front-end: the other methods of [PumpController] *)

Module Dashboard.

Import Frontend.

(** A value found in a parsed JSON answer. *)
Inductive Json : Type :=
| JNumber (x : number)
| JBool (b : bool)
| JString (s : string)
| JNull
| JObject.

Definition one : number := binary_normalize prec emax 1 0 false.

(** [v === 1]. *)
Definition is_one (v : Json) : bool :=
  match v with
  | JNumber x => SFeqb x one
  | _ => false
  end.

(** The requests of the other methods: [fetch] is the first thing each
    of them does, with these arguments. *)
Inductive Request : Type :=
| PostStopPump (url pump : string)
| PostEmergencyStop (url : string)
| GetStatus (url : string).

(** The elements of a pump's card that [updatePumpDisplay] writes, as
    its four [querySelector] calls find them ([None]: the selector
    matches nothing), each with the property that is written: the
    [className] of the indicator, the [textContent] of the status
    text, the [disabled] property of the two buttons. *)
Record Card : Type := mkCard {
  statusIndicator : option string;
  statusText : option string;
  startButton : option bool;
  stopButton : option bool
}.

(** The cards of the page, by the [data-pump] attribute. *)
Definition Page : Type := string -> Card.

Definition set_card (pump : string) (card : Card) (page : Page) : Page :=
  fun q => if String.eqb q pump then card else page q.

(** What a card shows for a pump that is running, or stopped. *)
Definition shown (running : bool) : Card :=
  mkCard (Some (if running then "status-indicator running" else "status-indicator stopped"))
         (Some (if running then "Status: Running" else "Status: Stopped"))
         (Some running) (Some (negb running)).

(** The card has the four elements. *)
Definition card_complete (card : Card) : bool :=
  match card with
  | mkCard (Some _) (Some _) (Some _) (Some _) => true
  | _ => false
  end.

Definition undefined_message : string := "Cannot read properties of undefined".
Definition null_message : string := "Cannot set properties of null".

(** [updatePumpDisplay(pump)]: the four assignments in the order of the
    script.  Reading [running] of a pump without a state throws, and so
    does the first assignment to an element that is missing; what was
    written before it stays written.  The second component is the
    message of the error thrown, if any. *)
Definition updatePumpDisplay (pump : string) (c : Controller) (page : Page)
  : Page * option string :=
  match pumpStates c !! pump with
  | None => (page, Some undefined_message)
  | Some s =>
      let card := page pump in
      let r := running s in
      match statusIndicator card with
      | None => (page, Some null_message)
      | Some _ =>
          let card1 :=
            mkCard (statusIndicator (shown r)) (statusText card)
                   (startButton card) (stopButton card) in
          match statusText card with
          | None => (set_card pump card1 page, Some null_message)
          | Some _ =>
              let card2 :=
                mkCard (statusIndicator (shown r)) (statusText (shown r))
                       (startButton card) (stopButton card) in
              match startButton card with
              | None => (set_card pump card2 page, Some null_message)
              | Some _ =>
                  let card3 :=
                    mkCard (statusIndicator (shown r)) (statusText (shown r))
                           (startButton (shown r)) (stopButton card) in
                  match stopButton card with
                  | None => (set_card pump card3 page, Some null_message)
                  | Some _ => (set_card pump (shown r) page, None)
                  end
              end
          end
      end
  end.

(** [this.pumpStates[pump].running = value]: a [TypeError] ([None])
    when the controller has no state for [pump]. *)
Definition set_running (pump : string) (value : bool) (c : Controller)
  : option Controller :=
  match pumpStates c !! pump with
  | Some s =>
      Some (mkController
              (<[pump := mkPumpState value (rpm s) (time s) (continuous s)]> (pumpStates c))
              (apiBaseUrl c) (effects c))
  | None => None
  end.

(** [this.pumpStates[pump].running = value; this.updatePumpDisplay(pump);]
    the call of [updatePumpDisplay] is recorded among the effects, as
    [startPump] does, and the page is written.  The third component is
    the message of the error thrown, if any. *)
Definition set_and_show (pump : string) (value : bool) (c : Controller) (page : Page)
  : Controller * Page * option string :=
  match set_running pump value c with
  | None => (c, page, Some "Cannot set properties of undefined"%string)
  | Some c1 =>
      let c2 := emit [UpdatePumpDisplay pump] c1 in
      let '(page1, thrown) := updatePumpDisplay pump c2 page in
      (c2, page1, thrown)
  end.

(** The [catch] block of [stopPump]. *)
Definition stop_failed (pump message : string) : Controller -> Controller :=
  emit [ ConsoleError "Error stopping pump:" message;
         ShowNotification ("Error stopping " ++ pump ++ " Pump: " ++ message) "error" ].

(** [async stopPump(pump)], with the outcome [net] of its request. *)
Definition stopPump (net : FetchOutcome) (pump : string) (c : Controller) (page : Page)
  : Request * (Controller * Page) :=
  (PostStopPump (apiBaseUrl c ++ "/stop_pump") pump,
   match net with
   | Rejected message => (stop_failed pump message c, page)
   | Answered true _ =>
       match set_and_show pump false c page with
       | (c1, page1, Some message) => (stop_failed pump message c1, page1)
       | (c1, page1, None) =>
           (showNotification (pump ++ " Pump stopped successfully") "success" c1, page1)
       end
   | Answered false message =>
       (showNotification ("Failed to stop " ++ pump ++ " Pump: " ++ message) "error" c,
        page)
   end).

(** [this.pumps.forEach(pump => { this.pumpStates[pump].running = false;
    this.updatePumpDisplay(pump); })]: an error thrown for one pump
    ends the loop, the pumps after it are not visited, and what was
    done before stays done. *)
Fixpoint stop_each (ps : list string) (c : Controller) (page : Page)
  : Controller * Page * option string :=
  match ps with
  | [] => (c, page, None)
  | pump :: ps' =>
      match set_and_show pump false c page with
      | (c1, page1, Some message) => (c1, page1, Some message)
      | (c1, page1, None) => stop_each ps' c1 page1
      end
  end.

(** The [catch] block of [emergencyStop]. *)
Definition emergency_failed (message : string) : Controller -> Controller :=
  emit [ ConsoleError "Error during emergency stop:" message;
         ShowNotification ("Emergency stop error: " ++ message) "error" ].

(** [async emergencyStop()]. *)
Definition emergencyStop (net : FetchOutcome) (c : Controller) (page : Page)
  : Request * (Controller * Page) :=
  (PostEmergencyStop (apiBaseUrl c ++ "/emergency_stop"),
   match net with
   | Rejected message => (emergency_failed message c, page)
   | Answered true _ =>
       match stop_each pumps c page with
       | (c1, page1, Some message) => (emergency_failed message c1, page1)
       | (c1, page1, None) =>
           (showNotification "Emergency stop activated - All pumps stopped" "warning" c1,
            page1)
       end
   | Answered false message =>
       (showNotification ("Emergency stop failed: " ++ message) "error" c, page)
   end).

(** An element of the page with the two properties the script writes. *)
Record Element : Type := mkElement {
  textContent : string;
  className : string
}.

(** How the request of [getStatus] turns out: [status] is
    [result.status], [None] when the answer has no such object. *)
Inductive StatusOutcome : Type :=
| StatusRejected (message : string)
| StatusAnswered (success : bool) (status : option (gmap string Json)).

(** The [forEach] of [getStatus]: a pump that the answer leaves out is
    skipped; an error thrown for one pump ends the loop. *)
Fixpoint merge_status (status : gmap string Json) (ps : list string)
         (c : Controller) (page : Page) : Controller * Page * option string :=
  match ps with
  | [] => (c, page, None)
  | pump :: ps' =>
      match status !! pump with
      | Some v =>
          match set_and_show pump (is_one v) c page with
          | (c1, page1, Some message) => (c1, page1, Some message)
          | (c1, page1, None) => merge_status status ps' c1 page1
          end
      | None => merge_status status ps' c page
      end
  end.

(** The [catch] block of [getStatus]; [systemStatus] is what
    [document.getElementById('systemStatus')] finds. *)
Definition status_failed (message : string) (c : Controller)
           (systemStatus : option Element)
  : Controller * option Element * Completion :=
  let c1 := emit [ConsoleError "Error getting status:" message] c in
  match systemStatus with
  | Some _ => (c1, Some (mkElement "Disconnected" "status-value error"), Fulfilled)
  | None => (c1, None, TypeError)
  end.

(** [async getStatus()]. *)
Definition getStatus (net : StatusOutcome) (c : Controller) (page : Page)
           (systemStatus : option Element)
  : Request * (Controller * Page * (option Element * Completion)) :=
  (GetStatus (apiBaseUrl c ++ "/status"),
   match net with
   | StatusRejected message =>
       let '(c1, el, done) := status_failed message c systemStatus in
       (c1, page, (el, done))
   | StatusAnswered true None =>
       let '(c1, el, done) := status_failed undefined_message c systemStatus in
       (c1, page, (el, done))
   | StatusAnswered true (Some status) =>
       match merge_status status pumps c page with
       | (c1, page1, Some message) =>
           let '(c2, el, done) := status_failed message c1 systemStatus in
           (c2, page1, (el, done))
       | (c1, page1, None) =>
           match systemStatus with
           | Some _ =>
               (c1, page1, (Some (mkElement "Ready" "status-value ready"), Fulfilled))
           | None =>
               let '(c2, el, done) := status_failed null_message c1 systemStatus in
               (c2, page1, (el, done))
           end
       end
   | StatusAnswered false _ =>
       match systemStatus with
       | Some _ => (c, page, (Some (mkElement "Error" "status-value error"), Fulfilled))
       | None =>
           let '(c1, el, done) := status_failed null_message c systemStatus in
           (c1, page, (el, done))
       end
   end).

(** The two loops as one: [flag pump] is the value to assign, [None]
    for a pump that is skipped. *)
Fixpoint show_each (flag : string -> option bool) (ps : list string)
         (c : Controller) (page : Page) : Controller * Page * option string :=
  match ps with
  | [] => (c, page, None)
  | pump :: ps' =>
      match flag pump with
      | Some v =>
          match set_and_show pump v c page with
          | (c1, page1, Some message) => (c1, page1, Some message)
          | (c1, page1, None) => show_each flag ps' c1 page1
          end
      | None => show_each flag ps' c page
      end
  end.

(** Every pump of the list that gets a flag has the four elements of
    its card on the page. *)
Definition cards_complete (flag : string -> option bool) (ps : list string)
           (page : Page) : Prop :=
  forall pump, In pump ps -> is_Some (flag pump) -> card_complete (page pump) = true.

(** The controller has a state for every pump of the list. *)
Definition knows (ps : list string) (c : Controller) : Prop :=
  forall pump, In pump ps -> is_Some (pumpStates c !! pump).

(** A page that holds the cards of the pumps [ps], each showing a
    stopped pump, and no other card. *)
Definition page_with (ps : list string) : Page :=
  fun q => if existsb (String.eqb q) ps then shown false
           else mkCard None None None None.

(** A checkbox of the page with its [data-pump] attribute. *)
Record Checkbox : Type := mkCheckbox {
  dataset_pump : string;
  checked : bool
}.

(** The selection controls: the elements of class [pump-checkbox] and
    of class [pump-select] in document order, the [selectAll] box, and
    the number shown in [selectedPumps]. *)
Record Selection : Type := mkSelection {
  pump_checkboxes : list Checkbox;
  pump_selects : list Checkbox;
  selectAll_checked : bool;
  selectAll_indeterminate : bool;
  selectedPumps_shown : nat
}.

(** [document.querySelectorAll('.pump-checkbox:checked')]. *)
Definition checked_boxes (boxes : list Checkbox) : list Checkbox :=
  List.filter checked boxes.

Definition updateSelectedCount (s : Selection) : Selection :=
  let selectedCount := List.length (checked_boxes (pump_checkboxes s)) in
  mkSelection (pump_checkboxes s) (pump_selects s) (selectAll_checked s)
              (selectAll_indeterminate s) selectedCount.

Definition set_checked (value : bool) (cb : Checkbox) : Checkbox :=
  mkCheckbox (dataset_pump cb) value.

Definition handleSelectAll (value : bool) (s : Selection) : Selection :=
  updateSelectedCount
    (mkSelection (set_checked value <$> pump_checkboxes s)
                 (set_checked value <$> pump_selects s)
                 (selectAll_checked s) (selectAll_indeterminate s)
                 (selectedPumps_shown s)).

Definition updateSelectAllState (s : Selection) : Selection :=
  let allCheckboxes := pump_checkboxes s in
  let checkedCheckboxes := checked_boxes (pump_checkboxes s) in
  mkSelection (pump_checkboxes s) (pump_selects s)
    (List.length allCheckboxes =? List.length checkedCheckboxes)%nat
    ((0 <? List.length checkedCheckboxes)%nat
     && (List.length checkedCheckboxes <? List.length allCheckboxes)%nat)
    (selectedPumps_shown s).

(** The [for ... of] loop of [startSelectedPumps]: [net k] is the
    outcome of the request for the pump at position [k], should it be
    sent; a rejected [startPump] ends the loop. *)
Fixpoint start_each (doc : Document) (net : nat -> FetchOutcome) (k : nat)
         (selectedPumps : list string) (c : Controller) : Controller * Completion :=
  match selectedPumps with
  | [] => (c, Fulfilled)
  | pump :: rest =>
      match startPump doc (net k) pump c with
      | (c1, Fulfilled) => start_each doc net (S k) rest c1
      | (c1, TypeError) => (c1, TypeError)
      end
  end.

(** [async startSelectedPumps()]. *)
Definition startSelectedPumps (boxes : list Checkbox) (doc : Document)
           (net : nat -> FetchOutcome) (c : Controller) : Controller * Completion :=
  let selectedPumps := dataset_pump <$> checked_boxes boxes in
  if (List.length selectedPumps =? 0)%nat then
    (showNotification "No pumps selected" "warning" c, Fulfilled)
  else start_each doc net 0 selectedPumps c.

(** The [start_pump] requests among a list of effects. *)
Definition start_requests (es : list Effect) : list StartRequest :=
  omap (fun e => match e with Fetch _ _ body => Some body | _ => None end) es.

(** The pump is started by [startPump]: its RPM input holds a number
    other than 0. *)
Definition startable (doc : Document) (pump : string) : bool :=
  match rpm_input doc pump with
  | Some text =>
      let r := or_zero (parseFloat text) in negb (is_zero r || isNaN r)
  | None => false
  end.

(** The body of the request that [startPump] sends for [pump]. *)
Definition request_of (doc : Document) (pump : string) : option StartRequest :=
  match rpm_input doc pump, time_input doc pump, continuous_checkbox doc pump with
  | Some r, Some t, Some k =>
      Some (mkStartRequest pump (or_zero (parseFloat r)) (or_zero (parseInt t))
                           (if k then 1 else 0))
  | _, _, _ => None
  end.

(** Every pump of the list has its three inputs on the page. *)
Definition page_complete (doc : Document) (ps : list string) : Prop :=
  forall pump, In pump ps -> is_Some (request_of doc pump).

(** The controller knows the three pumps of the dashboard. *)
Definition knows_pumps (c : Controller) : Prop :=
  forall pump, In pump pumps -> is_Some (pumpStates c !! pump).

(** A pump state that differs from [s] in the running flag at most. *)
Definition with_running (value : bool) (s : PumpState) : PumpState :=
  mkPumpState value (rpm s) (time s) (continuous s).

(** The controller after all three pumps were started. *)
Definition running_controller : Controller :=
  mkController (with_running true <$> pumpStates new_controller)
               (apiBaseUrl new_controller) [].

End Dashboard.

(** ** Vocabulary of the further properties *)

Module Vocabulary.

Import Machine WString Firmware Spec.

(** *** The serial line *)

(** The bytes of a batch that reach the line buffer: all but the line
    feed and the carriage return. *)
Fixpoint payload (bytes : string) : string :=
  match bytes with
  | EmptyString => EmptyString
  | String c r =>
      if Ascii.eqb c "010"%char || Ascii.eqb c "013"%char then payload r
      else String c (payload r)
  end.

Fixpoint has_newline (bytes : string) : bool :=
  match bytes with
  | EmptyString => false
  | String c r => Ascii.eqb c "010"%char || has_newline r
  end.

(** The two informational lines of the sketch. *)
Definition stop_notice (c : ascii) : list SerialItem :=
  [PrintStr "Stopped pump "; PrintChar c; Newline].

Definition start_notice (c : ascii) (r : float32) (direction : string)
  : list SerialItem :=
  [ PrintStr "Started pump "; PrintChar c; PrintStr " @ "; PrintFloat r 2;
    PrintStr " RPM "; PrintStr direction; Newline ].

Inductive notice : list SerialItem -> Prop :=
| notice_stop c : notice (stop_notice c)
| notice_start c r direction : notice (start_notice c r direction).

(** The error texts of the command handlers. *)
Definition error_texts : list string :=
  [ "ERROR: Invalid START command format";
    "ERROR: Invalid pump identifier";
    "ERROR: RPM must be between -3000 and 3000";
    "ERROR: Duration must be positive";
    "ERROR: Invalid STOP command";
    "ERROR: Invalid pump";
    "ERROR: Unknown command" ]%string.

Definition status_line (x y z a : Z) : list SerialItem :=
  [ PrintStr (status_key "{" "X"); PrintInt x;
    PrintStr (status_key "," "Y"); PrintInt y;
    PrintStr (status_key "," "Z"); PrintInt z;
    PrintStr (status_key "," "A"); PrintInt a;
    PrintStr "}"; Newline ].

Definition bit (z : Z) : Prop := z = 0 \/ z = 1.

(** The answers to a command: [OK], an error line, or the status map. *)
Inductive response : list SerialItem -> Prop :=
| response_ok : response [PrintStr "OK"; Newline]
| response_error text : In text error_texts -> response [PrintStr text; Newline]
| response_status x y z a :
    bit x -> bit y -> bit z -> bit a -> response (status_line x y z a).

(** *** The fields of a START line *)

(** The comma-separated fields of a line. *)
Fixpoint fields_of (s : string) : list string :=
  match s with
  | EmptyString => [EmptyString]
  | String c r =>
      if Ascii.eqb c ","%char then EmptyString :: fields_of r
      else
        match fields_of r with
        | f :: fs => String c f :: fs
        | [] => [String c EmptyString]
        end
  end.

(** The [k]-th field, empty when the line has fewer. *)
Definition field (s : string) (k : nat) : string :=
  default EmptyString (fields_of s !! k).

(** A START line as [handleStartCommand] reads it. *)
Definition id_of (line : string) : ascii := charAt (field (trim line) 1) 0.
Definition rpm_of (line : string) : float32 := toFloat (field (trim line) 2).
Definition duration_of (line : string) : Z := wrap_int (toInt (field (trim line) 3)).
Definition continuous_of (line : string) : Z := wrap_int (toInt (field (trim line) 4)).

(** The index of the channel with id [c] in the sketch's array. *)
Definition channel_index (c : ascii) : Z :=
  if Ascii.eqb c "X"%char then 0
  else if Ascii.eqb c "Y"%char then 1
  else if Ascii.eqb c "Z"%char then 2
  else if Ascii.eqb c "A"%char then 3
  else -1.

(** *** The scheduler *)

(** What one pass of the scheduler does to the record of a channel. *)
Definition tick (nowMillis nowMicros : Z) (p : Pump) : Pump :=
  if negb (isRunning p) then p
  else if negb (continuous p) && duration_expired nowMillis p then stopped p
  else if step_due nowMicros p then pulsed p nowMicros
  else p.

(** The configuration of a channel: what a START stores. *)
Definition configuration (p : Pump) : float32 * Z * bool * Z * float32 :=
  (rpm p, duration p, continuous p, startTime p, intervalMicros p).

(** No channel is running. *)
Definition all_idle (b : Board) : Prop :=
  forall i p, pumps b !! i = Some p -> isRunning p = false.

(** A step is not due again at the instant of the last one: the
    interval of every running channel is above 0, or not a number. *)
Definition intervals_positive (b : Board) : Prop :=
  forall i p, pumps b !! i = Some p -> isRunning p = true ->
              F32.geb (F32.of_Z 0) (intervalMicros p) = false.

(** The step output of every channel is low. *)
Definition step_lines_low (b : Board) : Prop :=
  forall i p, pumps b !! i = Some p -> digitalRead (stepPin p) b = LOW.

Definition step_inv (b : Board) : Prop := channels_intact b /\ step_lines_low b.

(** The values of a record fit the C types of its fields, and the
    record of a channel that has been activated holds the interval of
    the RPM it holds, which is not negative. *)
Definition well_formed (i : nat) (p : Pump) : Prop :=
  -32768 <= duration p < 32768 /\
  0 <= startTime p < 4294967296 /\
  0 <= lastStepTime p < 4294967296 /\
  (never_activated i p \/
   (intervalMicros p = interval_of (rpm p) /\ SFltb (rpm p) (F32.of_Z 0) = false)).

(** The pins of the step and direction outputs. *)
Definition step_pins : list Z := [X_STEP_PIN; Y_STEP_PIN; Z_STEP_PIN; A_STEP_PIN].
Definition dir_pins : list Z := [X_DIR_PIN; Y_DIR_PIN; Z_DIR_PIN; A_DIR_PIN].

(** A record on which a pass of the scheduler at these clock readings
    has nothing to do. *)
Definition settled (nowMillis nowMicros : Z) (p : Pump) : Prop :=
  isRunning p = false \/
  (negb (continuous p) && duration_expired nowMillis p = false /\
   step_due nowMicros p = false).

(** The parts of the splitter filled from index [k] on with the fields
    [fs], as far as there is room. *)
Fixpoint fill (ps : list string) (k : nat) (fs : list string) : list string :=
  match fs with
  | [] => ps
  | f :: fs' => if (k <? 5)%nat then fill (<[k := f]> ps) (S k) fs' else ps
  end.

(** [cur] put in front of the first field. *)
Definition push (cur : string) (fs : list string) : list string :=
  match fs with
  | f :: fs' => (cur ++ f)%string :: fs'
  | [] => [cur]
  end.

(** What [b'] has sent beyond [b] is a sequence of notices. *)
Definition says (b b' : Board) : Prop :=
  exists ns, serialOut b' = serialOut b ++ List.concat ns /\ Forall notice ns.

(** The pin writes of one pass of the scheduler for the channel at
    index [i]: none, the enable output of a running channel driven
    high, or one pulse on its step output. *)
Definition channel_writes (b : Board) (i : nat) (ws : list (Z * bool)) : Prop :=
  ws = [] \/
  exists p, pumps b !! i = Some p /\ isRunning p = true /\
            (ws = [(enablePin p, HIGH)] \/
             ws = [(stepPin p, HIGH); (stepPin p, LOW)]).

End Vocabulary.

(** * Properties *)

Import Machine Rounding WString Firmware Spec.

(** ** Machine arithmetic *)

Lemma wrap_int_small z : -32768 <= z < 32768 -> wrap_int z = z.
Proof. intros H. unfold wrap_int. rewrite Z.mod_small; lia. Qed.

Lemma wrap_int_range z : -32768 <= wrap_int z < 32768.
Proof. unfold wrap_int. pose proof (Z.mod_pos_bound (z + 32768) 65536). lia. Qed.

Lemma wrap_ulong_small z : 0 <= z < 4294967296 -> wrap_ulong z = z.
Proof. intros H. unfold wrap_ulong. rewrite Z.mod_small; lia. Qed.

Lemma wrap_ulong_range z : 0 <= wrap_ulong z < 4294967296.
Proof. unfold wrap_ulong. apply Z.mod_pos_bound. lia. Qed.

(** ** The string operations on sample inputs *)

Example toInt_10 : WString.toInt "10" = 10.
Proof. reflexivity. Qed.

Example toInt_junk : WString.toInt " -12x" = -12.
Proof. reflexivity. Qed.

Example toFloat_50 : WString.toFloat "50" = F32.of_Z 50.
Proof. reflexivity. Qed.

Example toFloat_neg50 : WString.toFloat "-50" = F32.of_Z (-50).
Proof. reflexivity. Qed.

Example toFloat_half : WString.toFloat "0.5" = S754_finite false 8388608 (-24).
Proof. reflexivity. Qed.

Example toFloat_exp : WString.toFloat "1.5e3" = F32.of_Z 1500.
Proof. reflexivity. Qed.

Example toFloat_text : WString.toFloat "abc" = F32.zero.
Proof. reflexivity. Qed.

Example toFloat_nan : WString.toFloat "nan" = S754_nan.
Proof. reflexivity. Qed.

Example trim_ex : WString.trim "  STOP,X  " = "STOP,X"%string.
Proof. reflexivity. Qed.

Example substring_ex : WString.substring "START,X,50" 6 7 = "X"%string.
Proof. reflexivity. Qed.


(** ** Elementary facts about the board *)

Lemma stopped_idle p : isRunning p = false -> stopped p = p.
Proof. destruct p; simpl; intros ->; reflexivity. Qed.

Lemma stopPump_running i b p :
  pumps b !! i = Some p -> isRunning p = true ->
  stopPump i b =
  mkBoard (<[i := stopped p]> (pumps b)) (<[enablePin p := HIGH]> (pinLevel b))
          (pinWrites b ++ [(enablePin p, HIGH)])
          ((serialOut b ++ [PrintStr "Stopped pump "]) ++ [PrintChar (name p); Newline])
          (inputString b) (stringComplete b).
Proof. intros Hp Hr. unfold stopPump. rewrite Hp, Hr. reflexivity. Qed.

Lemma stopPump_idle i b p :
  pumps b !! i = Some p -> isRunning p = false -> stopPump i b = b.
Proof. intros Hp Hr. unfold stopPump. rewrite Hp, Hr. reflexivity. Qed.

Lemma stopPump_absent i b : pumps b !! i = None -> stopPump i b = b.
Proof. intros Hp. unfold stopPump. rewrite Hp. reflexivity. Qed.

Lemma stopPump_lookup i j b :
  pumps (stopPump i b) !! j =
  if decide (i = j) then stopped <$> pumps b !! j else pumps b !! j.
Proof.
  destruct (pumps b !! i) as [p|] eqn:Hp.
  - destruct (isRunning p) eqn:Hr.
    + rewrite (stopPump_running i b p Hp Hr). simpl.
      case_decide as Hij.
      * subst j. rewrite Hp. simpl. apply list_lookup_insert_eq.
        eapply lookup_lt_Some; eauto.
      * apply list_lookup_insert_ne; auto.
    + rewrite (stopPump_idle i b p Hp Hr).
      case_decide as Hij; [subst j; rewrite Hp; simpl; now rewrite stopped_idle | reflexivity].
  - rewrite (stopPump_absent i b Hp).
    case_decide as Hij; [subst j; now rewrite Hp | reflexivity].
Qed.

Lemma stopPump_length i b : List.length (pumps (stopPump i b)) = List.length (pumps b).
Proof.
  destruct (pumps b !! i) as [p|] eqn:Hp.
  - destruct (isRunning p) eqn:Hr.
    + rewrite (stopPump_running i b p Hp Hr). simpl. apply length_insert.
    + now rewrite (stopPump_idle i b p Hp Hr).
  - now rewrite (stopPump_absent i b Hp).
Qed.

Lemma idle_stopPump i b : idle i (stopPump i b).
Proof.
  intros p. rewrite stopPump_lookup. rewrite decide_True by reflexivity.
  destruct (pumps b !! i); simpl; [|discriminate].
  intros [= <-]. reflexivity.
Qed.

Lemma idle_stopPump_keep i j b : idle j b -> idle j (stopPump i b).
Proof.
  intros Hj p. rewrite stopPump_lookup. case_decide as Hij; [|apply Hj].
  destruct (pumps b !! j); simpl; [|discriminate].
  intros [= <-]. reflexivity.
Qed.

Lemma emergency_pumps_idle b j :
  List.length (pumps b) = 4%nat ->
  idle j (foldl (fun b i => stopPump i b) b (seq 0 4)).
Proof.
  intros Hlen. simpl.
  destruct (decide (j < 4)%nat) as [Hj|Hj].
  - pose proof idle_stopPump as S. pose proof idle_stopPump_keep as K.
    destruct j as [|[|[|[|j]]]]; [auto 6 .. | lia].
  - intros p Hp. apply lookup_lt_Some in Hp. rewrite !stopPump_length in Hp. lia.
Qed.

Lemma digitalRead_write pin level q b :
  digitalRead q (digitalWrite pin level b) =
  if decide (pin = q) then level else digitalRead q b.
Proof.
  unfold digitalRead, digitalWrite. simpl.
  case_decide as H; [subst; now rewrite lookup_insert_eq | now rewrite lookup_insert_ne].
Qed.

Lemma stopPump_keeps_high i q b :
  digitalRead q b = HIGH -> digitalRead q (stopPump i b) = HIGH.
Proof.
  intros Hq. destruct (pumps b !! i) as [p|] eqn:Hp.
  - destruct (isRunning p) eqn:Hr.
    + rewrite (stopPump_running i b p Hp Hr). unfold digitalRead in *. simpl.
      destruct (decide (enablePin p = q)) as [->|Hne];
        [now rewrite lookup_insert_eq | now rewrite lookup_insert_ne].
    + now rewrite (stopPump_idle i b p Hp Hr).
  - now rewrite (stopPump_absent i b Hp).
Qed.

Lemma stopPump_disables i b p :
  pumps b !! i = Some p -> isRunning p = true ->
  digitalRead (enablePin p) (stopPump i b) = HIGH.
Proof.
  intros Hp Hr. rewrite (stopPump_running i b p Hp Hr).
  unfold digitalRead. simpl. now rewrite lookup_insert_eq.
Qed.

Lemma stopPump_lookup_ne i j b : i <> j -> pumps (stopPump i b) !! j = pumps b !! j.
Proof. intros H. rewrite stopPump_lookup. now rewrite decide_False. Qed.

Lemma emergency_disables b i p :
  List.length (pumps b) = 4%nat ->
  pumps b !! i = Some p -> isRunning p = true ->
  digitalRead (enablePin p) (foldl (fun b i => stopPump i b) b (seq 0 4)) = HIGH.
Proof.
  intros Hlen Hp Hr. simpl.
  pose proof (lookup_lt_Some _ _ _ Hp) as Hi. rewrite Hlen in Hi.
  destruct i as [|[|[|[|i]]]]; [ | | | | lia].
  - do 3 apply stopPump_keeps_high. now apply stopPump_disables.
  - do 2 apply stopPump_keeps_high. apply stopPump_disables; [|assumption].
    now rewrite stopPump_lookup_ne.
  - apply stopPump_keeps_high. apply stopPump_disables; [|assumption].
    now rewrite !stopPump_lookup_ne.
  - apply stopPump_disables; [|assumption]. now rewrite !stopPump_lookup_ne.
Qed.

Lemma running_bit_idle i b : idle i b -> running_bit i b = 0.
Proof.
  intros H. unfold running_bit. destruct (pumps b !! i) as [p|] eqn:Hp; [|reflexivity].
  now rewrite (H p Hp).
Qed.

(** C5. EMERGENCY clears the running flag of every channel and
    deasserts the enable output of every channel that was running,
    whatever the channels were doing before; the STATUS that follows
    prints 0 for X, Y, Z and A. *)
Theorem C5_emergency_stops_every_channel (clk clk' : Clock) (b : Board) :
  List.length (pumps b) = 4%nat ->
  let b' := processCommand clk "EMERGENCY" b in
  (forall i p, pumps b' !! i = Some p -> isRunning p = false) /\
  (forall i p, pumps b !! i = Some p -> isRunning p = true ->
               digitalRead (enablePin p) b' = HIGH) /\
  (exists out, serialOut b' = out ++ [PrintStr "OK"; Newline]) /\
  serialOut (processCommand clk' "STATUS" b') = serialOut b' ++ status_all_stopped.
Proof.
  intros Hlen b'.
  assert (Hb' : b' = handleEmergencyStop b) by reflexivity.
  assert (Hidle : forall j, idle j b').
  { intros j. rewrite Hb'. apply (emergency_pumps_idle b j Hlen). }
  split; [exact (fun i p H => Hidle i p H)|].
  split.
  { intros i p Hp Hr. rewrite Hb'. apply (emergency_disables b i p Hlen Hp Hr). }
  split.
  { rewrite Hb'. eexists. reflexivity. }
  change (processCommand clk' "STATUS" b') with (handleStatusRequest b').
  unfold handleStatusRequest, status_all_stopped. simpl.
  now rewrite !running_bit_idle by apply Hidle.
Qed.

Lemma C5_emergency_witness :
  let b := processCommand (mkClock 0 0) "START,Y,50,10,0" (setup power_on) in
  running_bit 1 b = 1 /\
  serialOut (processCommand (mkClock 2 2) "STATUS" (processCommand (mkClock 1 1) "EMERGENCY" b))
  = serialOut (processCommand (mkClock 1 1) "EMERGENCY" b) ++ status_all_stopped.
Proof.
  split; [reflexivity|].
  apply (C5_emergency_stops_every_channel (mkClock 1 1) (mkClock 2 2)).
  reflexivity.
Defined.

(** ** STOP *)

Lemma stop_is_not_start s : startsWith s "STOP" = true -> startsWith s "START" = false.
Proof.
  destruct s as [|a s]; [discriminate|].
  destruct s as [|b s]; [simpl; now rewrite andb_false_r|].
  destruct s as [|c s]; [simpl; now rewrite !andb_false_r|].
  simpl. destruct (Ascii.eqb a "S"), (Ascii.eqb b "T"); simpl; try reflexivity.
  destruct (Ascii.eqb_spec c "O") as [->|]; [reflexivity|discriminate].
Qed.

Lemma charAt_cons c s n : charAt (String c s) (S n) = charAt s n.
Proof. reflexivity. Qed.

(** [indexOf] finds the first comma, which is where [after_comma] cuts. *)
Lemma indexOf_after_comma s i :
  match after_comma s with
  | None => indexOf_from ","%char s i = -1
  | Some r =>
      exists k : nat,
        indexOf_from ","%char s i = i + Z.of_nat k /\
        String.length s = (k + 1 + String.length r)%nat /\
        charAt s (k + 1) = charAt r 0
  end.
Proof.
  revert i. induction s as [|c s IH]; intros i; simpl; [reflexivity|].
  destruct (Ascii.eqb c ","%char) eqn:Hc.
  - exists 0%nat. split; [lia|]. split; reflexivity.
  - specialize (IH (i + 1)). destruct (after_comma s) as [r|]; [|exact IH].
    destruct IH as (k & Hk & Hlen & Hch). exists (S k).
    split; [lia|]. split; [simpl; lia | exact Hch].
Qed.

Lemma findPumpIndex_from_spec ps i c :
  (findPumpIndex_from ps i c = -1 /\ forall n p, ps !! n = Some p -> name p <> c) \/
  (exists (n : nat) p, findPumpIndex_from ps i c = i + Z.of_nat n /\
                       ps !! n = Some p /\ name p = c).
Proof.
  revert i. induction ps as [|q ps IH]; intros i; simpl.
  - left. split; [reflexivity|]. intros n p H. destruct n; discriminate.
  - destruct (Ascii.eqb_spec (name q) c) as [Heq|Hne].
    + right. exists 0%nat, q. split; [lia|]. split; [reflexivity|exact Heq].
    + destruct (IH (i + 1)) as [[H1 H2]|(n & p & H1 & H2 & H3)].
      * left. split; [exact H1|]. intros [|n] p H; [now injection H as <-|].
        exact (H2 n p H).
      * right. exists (S n), p. split; [lia|]. split; assumption.
Qed.

(** [findPumpIndex] answers -1 exactly for the ids of no channel. *)
Lemma findPumpIndex_known c b :
  (findPumpIndex c b = -1 /\ ~ known_channel c b) \/
  (exists (n : nat) p, findPumpIndex c b = Z.of_nat n /\
                       pumps b !! n = Some p /\ name p = c).
Proof.
  unfold findPumpIndex.
  destruct (findPumpIndex_from_spec (pumps b) 0 c) as [[H1 H2]|(n & p & H1 & H2 & H3)].
  - left. split; [exact H1|]. intros (n & p & Hp & Hn). exact (H2 n p Hp Hn).
  - right. exists n, p. split; [lia|]. split; assumption.
Qed.

(** [handleStopCommand] reads one character, the one after the first
    comma, and never looks at what follows it.  Without a comma, or
    with nothing after it, the reply is ERROR: Invalid STOP command;
    when that character is the id of no channel the reply is
    ERROR: Invalid pump, and in both cases no pump record and no pin
    changes; when it is the id of a channel, that channel is stopped,
    whatever the rest of the line holds. *)
Lemma stop_command_validation (clk : Clock) (line : string) (b : Board) :
  startsWith (trim line) "STOP" = true ->
  let b' := processCommand clk line b in
  match after_comma (trim line) with
  | None | Some EmptyString =>
      replies "ERROR: Invalid STOP command" b b' /\ same_channels b b'
  | Some (String id _) =>
      (known_channel id b ->
       exists i p, pumps b !! i = Some p /\ name p = id /\
                   b' = Serial_println "OK" (stopPump i b)) /\
      (~ known_channel id b ->
       replies "ERROR: Invalid pump" b b' /\ same_channels b b')
  end.
Proof.
  intros Hstop b'.
  assert (Hb' : b' = handleStopCommand (trim line) b).
  { unfold b', processCommand. now rewrite (stop_is_not_start _ Hstop), Hstop. }
  clearbody b'. subst b'. unfold handleStopCommand, indexOf.
  pose proof (indexOf_after_comma (trim line) 0) as Hidx.
  destruct (after_comma (trim line)) as [r|].
  - destruct Hidx as (k & Hk & Hlen & Hch). rewrite Hk.
    destruct r as [|id r].
    + simpl in Hlen.
      replace (0 + Z.of_nat k =? Z.of_nat (String.length (trim line)) - 1) with true
        by (symmetry; apply Z.eqb_eq; lia).
      rewrite orb_true_r. repeat split.
    + simpl in Hlen.
      replace (0 + Z.of_nat k =? -1) with false by (symmetry; apply Z.eqb_neq; lia).
      replace (0 + Z.of_nat k =? Z.of_nat (String.length (trim line)) - 1) with false
        by (symmetry; apply Z.eqb_neq; lia).
      simpl orb. cbv iota.
      replace (Z.to_nat (0 + Z.of_nat k + 1)) with (k + 1)%nat by lia.
      rewrite Hch. change (charAt (String id r) 0) with id.
      destruct (findPumpIndex_known id b) as [[H1 H2]|(n & p & H1 & H2 & H3)].
      * rewrite H1. simpl. split; [tauto|]. intros _. repeat split.
      * rewrite H1.
        replace (Z.of_nat n =? -1) with false by (symmetry; apply Z.eqb_neq; lia).
        rewrite Nat2Z.id. split.
        -- intros _. exists n, p. repeat split; assumption.
        -- intros Hnot. exfalso. apply Hnot. exists n, p. split; assumption.
  - rewrite Hidx. simpl. repeat split.
Qed.

Example stop_unknown_id_is_refused :
  startsWith (trim "STOP,Q") "STOP" = true /\
  replies "ERROR: Invalid pump" (setup power_on)
          (processCommand (mkClock 0 0) "STOP,Q" (setup power_on)).
Proof.
  split; [reflexivity|].
  refine (proj1 (proj2 (stop_command_validation (mkClock 0 0) "STOP,Q" (setup power_on) eq_refl) _)).
  intros (i & p & Hp & Hn).
  destruct i as [|[|[|[|i]]]]; simpl in Hp; try discriminate;
    injection Hp as <-; discriminate.
Qed.

(** C8. While channel X runs, the lines STOP,XYZ and STOP,X,Q,99 stop
    it and are answered with OK, although the text after the comma,
    XYZ or X,Q,99, is the id of no channel: the id is taken to be the
    one character after the first comma, and nothing checks that the
    line ends there. *)
Theorem C8_text_after_the_id_is_ignored :
  let b := processCommand (mkClock 0 0) "START,X,50,10,0" (setup power_on) in
  let stopped := [ PrintStr "Stopped pump "; PrintChar "X"; Newline;
                   PrintStr "OK"; Newline ] in
  running_bit 0 b = 1 /\
  (after_comma (trim "STOP,XYZ") = Some "XYZ"%string /\
   ~ names_channel "XYZ" b /\
   running_bit 0 (processCommand (mkClock 1 1000) "STOP,XYZ" b) = 0 /\
   serialOut (processCommand (mkClock 1 1000) "STOP,XYZ" b) = serialOut b ++ stopped) /\
  (after_comma (trim "STOP,X,Q,99") = Some "X,Q,99"%string /\
   ~ names_channel "X,Q,99" b /\
   running_bit 0 (processCommand (mkClock 1 1000) "STOP,X,Q,99" b) = 0 /\
   serialOut (processCommand (mkClock 1 1000) "STOP,X,Q,99" b) = serialOut b ++ stopped).
Proof.
  cbv zeta.
  split; [vm_compute; reflexivity|].
  split; (split; [vm_compute; reflexivity|]); (split; [|split; vm_compute; reflexivity]).
  - intros (i & p & _ & H); discriminate H.
  - intros (i & p & _ & H); discriminate H.
Qed.

(** ** START: the field splitter *)

Lemma split_fields_count_from command s n f :
  String.length command = (n + String.length s)%nat ->
  (forall j, (j < String.length s)%nat -> String.get (n + j) command = String.get j s) ->
  (partIndex f <= 5)%nat ->
  partIndex (foldl (split_step command) f (seq n (String.length s + 1)))
  = Nat.min 5 (partIndex f + field_count s).
Proof.
  revert n f. induction s as [|c s IH]; intros n f Hlen Hget Hf.
  - cbn [String.length Nat.add seq foldl field_count]. unfold split_step.
    simpl in Hlen.
    replace (n =? String.length command)%nat with true
      by (symmetry; apply Nat.eqb_eq; lia).
    simpl orb. cbv iota.
    destruct (partIndex f <? 5)%nat eqn:H5; cbn [partIndex].
    + apply Nat.ltb_lt in H5. lia.
    + apply Nat.ltb_ge in H5. lia.
  - cbn [String.length] in *. cbn [Nat.add seq foldl].
    assert (Hc : charAt command n = c).
    { unfold charAt. specialize (Hget 0%nat). rewrite Nat.add_0_r in Hget.
      rewrite Hget by lia. reflexivity. }
    assert (Hstep : partIndex (split_step command f n)
                    = if Ascii.eqb c ","%char then Nat.min 5 (S (partIndex f))
                      else partIndex f).
    { unfold split_step.
      replace (n =? String.length command)%nat with false
        by (symmetry; apply Nat.eqb_neq; lia).
      rewrite Hc. simpl orb.
      destruct (Ascii.eqb c ","%char); [|reflexivity].
      destruct (partIndex f <? 5)%nat eqn:H5; cbn [partIndex].
      - apply Nat.ltb_lt in H5. lia.
      - apply Nat.ltb_ge in H5. lia. }
    rewrite (IH (S n) (split_step command f n)).
    + rewrite Hstep. cbn [field_count]. destruct (Ascii.eqb c ","%char); lia.
    + lia.
    + intros j Hj. replace (S n + j)%nat with (n + S j)%nat by lia.
      rewrite Hget by lia. reflexivity.
    + rewrite Hstep. destruct (Ascii.eqb c ","%char); lia.
Qed.

(** [partIndex] counts the fields of the line, but never beyond 5. *)
Lemma split_fields_count command :
  partIndex (split_fields command) = Nat.min 5 (field_count command).
Proof.
  unfold split_fields.
  rewrite (split_fields_count_from command command 0); cbn [partIndex Nat.add]; auto; lia.
Qed.

(** A START line with fewer than five fields is refused: the reply is
    the format error and nothing else changes. *)
Lemma start_too_few_fields clk line b :
  startsWith (trim line) "START" = true ->
  (field_count (trim line) < 5)%nat ->
  processCommand clk line b = Serial_println "ERROR: Invalid START command format" b.
Proof.
  intros Hs Hn. unfold processCommand. rewrite Hs. unfold handleStartCommand.
  rewrite split_fields_count.
  replace (Nat.min 5 (field_count (trim line)) =? 5)%nat with false
    by (symmetry; apply Nat.eqb_neq; lia).
  reflexivity.
Qed.

(** A START line with more than five fields passes the field-count
    check, because [partIndex] stops counting at 5. *)
Lemma start_extra_fields_pass line :
  (5 <= field_count line)%nat -> partIndex (split_fields line) = 5%nat.
Proof. intros H. rewrite split_fields_count. lia. Qed.

(** C4. The line START,X,50,10,0,99 has six comma-separated fields, yet
    it is not refused: channel X is started and the reply is OK. *)
Theorem C4_six_fields_are_accepted :
  let line := "START,X,50,10,0,99"%string in
  let b := processCommand (mkClock 0 0) line (setup power_on) in
  field_count (trim line) = 6%nat /\
  partIndex (split_fields (trim line)) = 5%nat /\
  running_bit 0 (setup power_on) = 0 /\
  running_bit 0 b = 1 /\
  serialOut b =
  serialOut (setup power_on) ++
  [ PrintStr "Started pump "; PrintChar "X"; PrintStr " @ ";
    PrintFloat (F32.of_Z 50) 2; PrintStr " RPM "; PrintStr "(Forward)"; Newline;
    PrintStr "OK"; Newline ].
Proof. cbv zeta. repeat split; vm_compute; reflexivity. Qed.

(** ** START: the RPM check *)

Lemma SFcompare_finite_antisym m1 e1 m2 e2 :
  SFcompare (S754_finite false m1 e1) (S754_finite false m2 e2)
  = option_map CompOpp (SFcompare (S754_finite false m2 e2) (S754_finite false m1 e1)).
Proof.
  simpl. rewrite (Z.compare_antisym e1 e2).
  destruct (e1 ?= e2); simpl; try reflexivity.
  now rewrite Pos.compare_cont_antisym.
Qed.

(** On every float but NaN the check [rpm == 0 || abs(rpm) > 3000]
    decides [0 < |r| <= 3000]. *)
Lemma rpm_out_of_range_spec r :
  F32.is_nan r = false -> (rpm_out_of_range r = false <-> valid_rpm r).
Proof.
  unfold rpm_out_of_range, valid_rpm, F32.lt, F32.le, F32.gtb, F32.eqb.
  change (F32.of_Z 0) with (S754_zero false).
  change (F32.of_Z 3000) with (S754_finite false 12288000 (-12)).
  destruct r as [s|s| |s m e]; try discriminate; intros _.
  - split; [discriminate|]. intros [H _]. discriminate.
  - destruct s; (split; [discriminate|]); intros [_ [H|H]]; discriminate.
  - assert (Habs : abs (S754_finite s m e) = S754_finite false m e)
      by (destruct s; reflexivity).
    rewrite Habs.
    replace (SFeqb (S754_finite s m e) (S754_zero false)) with false
      by (destruct s; reflexivity).
    change (SFabs (S754_finite s m e)) with (S754_finite false m e).
    unfold SFltb. rewrite SFcompare_finite_antisym.
    destruct (SFcompare (S754_finite false m e) (S754_finite false 12288000 (-12)))
      as [[| |]|] eqn:Hc; simpl; split; intros H; try discriminate;
      try reflexivity; try (split; [reflexivity|]; auto; fail).
    destruct H as [_ [H|H]]; discriminate.
Qed.

(** A NaN passes the check. *)
Lemma rpm_out_of_range_nan : rpm_out_of_range S754_nan = false /\ ~ valid_rpm S754_nan.
Proof. split; [reflexivity|]. intros [H _]. discriminate. Qed.

(** With five fields and a known channel, an RPM of 0 or beyond 3000
    is refused with the range error and nothing else changes. *)
Lemma start_rpm_rejected clk line b :
  startsWith (trim line) "START" = true ->
  (5 <= field_count (trim line))%nat ->
  (let f := split_fields (trim line) in
   known_channel (charAt (part f 1) 0) b /\
   rpm_out_of_range (toFloat (part f 2)) = true) ->
  processCommand clk line b
  = Serial_println "ERROR: RPM must be between -3000 and 3000" b.
Proof.
  intros Hs Hn [Hk Hr]. unfold processCommand. rewrite Hs. unfold handleStartCommand.
  rewrite (start_extra_fields_pass _ Hn). simpl negb. cbv iota.
  destruct (findPumpIndex_known (charAt (part (split_fields (trim line)) 1) 0) b)
    as [[H1 H2]|(n & p & H1 & H2 & H3)]; [contradiction|].
  rewrite H1. replace (Z.of_nat n =? -1) with false by (symmetry; apply Z.eqb_neq; lia).
  now rewrite Hr.
Qed.

(** Whatever else is wrong with the line, an RPM that fails the check
    never starts a channel: the command only sends one error line. *)
Lemma start_out_of_range_never_starts clk line b :
  startsWith (trim line) "START" = true ->
  rpm_out_of_range (toFloat (part (split_fields (trim line)) 2)) = true ->
  exists text, processCommand clk line b = Serial_println text b.
Proof.
  intros Hs Hr. unfold processCommand. rewrite Hs. unfold handleStartCommand.
  destruct (negb _); [eexists; reflexivity|].
  destruct (_ =? -1); [eexists; reflexivity|].
  rewrite Hr. eexists; reflexivity.
Qed.

(** C3. The line START,X,nan,10,0 carries an RPM that is not within
    0 < |r| <= 3000, yet it is not refused: channel X is marked running
    and the reply is OK. *)
Theorem C3_nan_rpm_is_accepted :
  let line := "START,X,nan,10,0"%string in
  let b := processCommand (mkClock 0 0) line (setup power_on) in
  toFloat (part (split_fields (trim line)) 2) = S754_nan /\
  ~ valid_rpm (toFloat (part (split_fields (trim line)) 2)) /\
  running_bit 0 (setup power_on) = 0 /\
  running_bit 0 b = 1 /\
  digitalRead X_ENABLE_PIN b = LOW /\
  serialOut b =
  serialOut (setup power_on) ++
  [ PrintStr "Started pump "; PrintChar "X"; PrintStr " @ ";
    PrintFloat S754_nan 2; PrintStr " RPM "; PrintStr "(Reverse)"; Newline;
    PrintStr "OK"; Newline ].
Proof.
  cbv zeta. split; [vm_compute; reflexivity|]. split.
  { replace (toFloat _) with S754_nan by (vm_compute; reflexivity).
    apply rpm_out_of_range_nan. }
  repeat split; vm_compute; reflexivity.
Qed.

(** ** The pulse scheduler *)

(** As long as [duration * 1000] fits in an [int], the expiry test is
    the comparison of the elapsed milliseconds with it. *)
Lemma duration_expired_in_range nowMillis p :
  0 <= duration p * 1000 < 32768 ->
  duration_expired nowMillis p
  = (duration p * 1000 <=? wrap_ulong (nowMillis - startTime p)).
Proof.
  intros H. unfold duration_expired.
  rewrite wrap_int_small by lia. rewrite wrap_ulong_small by lia. reflexivity.
Qed.

(** What one pass of the loop body does to channel [i], for a duration
    of at most 32 seconds. *)
Lemma updatePump_in_range nowMillis nowMicros b i p :
  pumps b !! i = Some p ->
  0 <= duration p * 1000 < 32768 ->
  let b' := updatePump nowMillis nowMicros b i in
  let elapsed := wrap_ulong (nowMillis - startTime p) in
  (isRunning p = false -> b' = b) /\
  (isRunning p = true -> continuous p = false -> duration p * 1000 <= elapsed ->
   b' = stopPump i b) /\
  (isRunning p = true -> continuous p = true \/ elapsed < duration p * 1000 ->
   if step_due nowMicros p then
     pumps b' = <[i := pulsed p nowMicros]> (pumps b) /\
     pinWrites b' = pinWrites b ++ [(stepPin p, HIGH); (stepPin p, LOW)] /\
     serialOut b' = serialOut b
   else b' = b).
Proof.
  intros Hp Hd b' elapsed. subst b'. unfold updatePump. rewrite Hp.
  rewrite (duration_expired_in_range nowMillis p Hd). fold elapsed.
  split; [intros ->; reflexivity|]. split.
  - intros -> -> H. simpl. now rewrite (proj2 (Z.leb_le _ _) H).
  - intros -> H. simpl negb. cbv iota.
    assert (negb (continuous p) && (duration p * 1000 <=? elapsed) = false) as ->.
    { destruct H as [-> | H]; [reflexivity|].
      rewrite (proj2 (Z.leb_gt _ _) H). apply andb_false_r. }
    destruct (step_due nowMicros p); [|reflexivity].
    unfold seq_stmt, set_pump, with_pumps, digitalWrite, delayMicroseconds. simpl.
    repeat split. now rewrite <- app_assoc.
Qed.

(** The loop body for channel [i] leaves every other pump record alone. *)
Lemma updatePump_other nowMillis nowMicros b i j :
  i <> j -> pumps (updatePump nowMillis nowMicros b i) !! j = pumps b !! j.
Proof.
  intros Hij. unfold updatePump.
  destruct (pumps b !! i) as [p|] eqn:Hp; [|reflexivity].
  destruct (negb (isRunning p)); [reflexivity|].
  destruct (negb (continuous p) && duration_expired nowMillis p).
  - now apply stopPump_lookup_ne.
  - destruct (step_due nowMicros p); [|reflexivity].
    unfold seq_stmt, set_pump, with_pumps, digitalWrite, delayMicroseconds. simpl.
    now apply list_lookup_insert_ne.
Qed.

(** C1. Channel X is started for 60 seconds.  When the clock shows
    60000 ms the channel is running, not continuous, and the elapsed
    milliseconds have reached durationSeconds * 1000, yet the scheduler
    pass does not stop it: the [int] product 60 * 1000 has wrapped to
    -5536, which the cast turns into 4294961760. *)
Theorem C1_auto_stop_missed_after_60_seconds :
  let b := processCommand (mkClock 0 0) "START,X,50,60,0" (setup power_on) in
  let now := mkClock 60000 60000000 in
  exists p,
    pumps b !! 0%nat = Some p /\
    isRunning p = true /\ continuous p = false /\ duration p = 60 /\
    duration p * 1000 <= wrap_ulong (millis now - startTime p) /\
    wrap_int (duration p * 1000) = -5536 /\
    wrap_ulong (wrap_int (duration p * 1000)) = 4294961760 /\
    duration_expired (millis now) p = false /\
    running_bit 0 (updatePumps now b) = 1.
Proof.
  cbv zeta.
  exists (mkPump 2 5 8 true (F32.of_Z 50) 60 false 0 (interval_of (F32.of_Z 50)) 0 "X").
  split; [vm_compute; reflexivity|].
  repeat split; try (vm_compute; congruence).
Qed.

(** ** Activation *)

Lemma startPump_absent clk i r dur cont b :
  pumps b !! i = None -> startPump clk i r dur cont b = b.
Proof.
  intros Hp. unfold startPump. rewrite (stopPump_absent i b Hp). now rewrite Hp.
Qed.

(** Activation of channel [i]: a channel that is running is first
    deactivated, so the enable output goes HIGH before anything else;
    then the direction output is written once, from the sign of the
    RPM, the whole configuration is overwritten with the interval of
    [abs(rpm)], the running flag and both time stamps, and the enable
    output is written LOW, once. *)
Lemma startPump_effect
        (clk : Clock) (i : nat) (r : float32) (dur : Z) (cont : bool)
        (b : Board) (p : Pump) :
  pumps b !! i = Some p ->
  let b' := startPump clk i r dur cont b in
  pumps b' =
    <[i := mkPump (stepPin p) (dirPin p) (enablePin p) true (abs r) dur cont
                  (wrap_ulong (millis clk)) (interval_of (abs r))
                  (wrap_ulong (micros clk)) (name p)]> (pumps b) /\
  pinWrites b' =
    pinWrites b ++
    (if isRunning p then [(enablePin p, HIGH)] else []) ++
    [(dirPin p, if F32.gtb r (F32.of_Z 0) then HIGH else LOW); (enablePin p, LOW)] /\
  digitalRead (enablePin p) b' = LOW.
Proof.
  intros Hp b'. subst b'. unfold startPump.
  assert (Hlt : (i < List.length (pumps b))%nat) by (eapply lookup_lt_Some; eauto).
  destruct (isRunning p) eqn:Hr.
  - rewrite (stopPump_running i b p Hp Hr). cbn [pumps].
    rewrite list_lookup_insert_eq by assumption.
    cbv [seq_stmt Serial_print Serial_println Serial_emit set_pump with_pumps
         digitalWrite digitalRead started stopped
         pumps pinLevel pinWrites serialOut inputString stringComplete
         stepPin dirPin enablePin name].
    rewrite list_insert_insert_eq. split; [reflexivity|]. split.
    + now rewrite <- !app_assoc.
    + now rewrite lookup_insert_eq.
  - rewrite (stopPump_idle i b p Hp Hr). rewrite Hp.
    cbv [seq_stmt Serial_print Serial_println Serial_emit set_pump with_pumps
         digitalWrite digitalRead started
         pumps pinLevel pinWrites serialOut inputString stringComplete
         stepPin dirPin enablePin name].
    split; [reflexivity|]. split.
    + now rewrite <- !app_assoc.
    + now rewrite lookup_insert_eq.
Qed.

(** C6. Activation on a valid START first deactivates a channel that
    is running (its enable output goes HIGH before it goes LOW again,
    so no two enabled states overlap), writes the direction output
    once from the sign of the RPM, computes the interval once from
    [abs(rpm)], overwrites the stored configuration, marks the channel
    running and records the start time stamp. *)
Theorem C6_activation_restarts_cleanly
        (clk : Clock) (i : nat) (r : float32) (dur : Z) (cont : bool)
        (b : Board) (p : Pump) :
  pumps b !! i = Some p ->
  let b' := startPump clk i r dur cont b in
  pumps b' =
    <[i := mkPump (stepPin p) (dirPin p) (enablePin p) true (abs r) dur cont
                  (wrap_ulong (millis clk)) (interval_of (abs r))
                  (wrap_ulong (micros clk)) (name p)]> (pumps b) /\
  pinWrites b' =
    pinWrites b ++
    (if isRunning p then [(enablePin p, HIGH)] else []) ++
    [(dirPin p, if F32.gtb r (F32.of_Z 0) then HIGH else LOW); (enablePin p, LOW)] /\
  digitalRead (enablePin p) b' = LOW.
Proof. exact (startPump_effect clk i r dur cont b p). Qed.

(** START,X,50,10,0 followed by START,X,-50,5,0: the second command
    deasserts the enable output, reverses the direction output once
    and asserts the enable output again. *)
Lemma C6_activation_witness :
  let b1 := processCommand (mkClock 0 0) "START,X,50,10,0" (setup power_on) in
  let clk := mkClock 1000 1000000 in
  let b2 := startPump clk 0 (toFloat "-50") 5 false b1 in
  let p1 := mkPump 2 5 8 true (F32.of_Z 50) 10 false 0 (interval_of (F32.of_Z 50)) 0 "X" in
  pumps b1 !! 0%nat = Some p1 /\
  processCommand clk "START,X,-50,5,0" b1 = Serial_println "OK" b2 /\
  pinWrites b2 = pinWrites b1 ++ [(8, HIGH)] ++ [(5, LOW); (8, LOW)] /\
  pumps b2 =
    <[0%nat := mkPump 2 5 8 true (F32.of_Z 50) 5 false 1000
                 (interval_of (F32.of_Z 50)) 1000000 "X"]> (pumps b1).
Proof.
  cbv zeta.
  assert (Hp : pumps (processCommand (mkClock 0 0) "START,X,50,10,0" (setup power_on)) !! 0%nat
               = Some (mkPump 2 5 8 true (F32.of_Z 50) 10 false 0
                              (interval_of (F32.of_Z 50)) 0 "X"))
    by (vm_compute; reflexivity).
  destruct (C6_activation_restarts_cleanly (mkClock 1000 1000000) 0 (toFloat "-50") 5 false
              _ _ Hp) as (H1 & H2 & _).
  split; [exact Hp|]. split; [vm_compute; reflexivity|].
  split; [exact H2 | exact H1].
Defined.

(** ** Invariants of the reachable states *)

Lemma intact_insert i p q b :
  pumps b !! i = Some p -> identity_of q = identity_of p ->
  channels_intact b ->
  identity_of <$> <[i := q]> (pumps b) = identity_of <$> initial_pumps.
Proof.
  unfold channels_intact. intros Hp Hq <-.
  rewrite list_fmap_insert. apply list_insert_id.
  rewrite list_lookup_fmap, Hp. cbn. now rewrite Hq.
Qed.

Lemma intact_pins i p b :
  channels_intact b -> pumps b !! i = Some p ->
  enablePin p = X_ENABLE_PIN /\ stepPin p <> X_ENABLE_PIN /\ dirPin p <> X_ENABLE_PIN.
Proof.
  unfold channels_intact. intros Hb Hp.
  assert (H : (identity_of <$> initial_pumps) !! i = Some (identity_of p))
    by (rewrite <- Hb, list_lookup_fmap, Hp; reflexivity).
  destruct i as [|[|[|[|i]]]]; cbn in H; try discriminate;
    injection H as H1 H2 H3 H4; rewrite <- H1, <- H2, <- H3; repeat split; discriminate.
Qed.

Lemma intact_length b : channels_intact b -> List.length (pumps b) = 4%nat.
Proof.
  unfold channels_intact. intros H.
  apply (f_equal (@List.length _)) in H. now rewrite !length_fmap in H.
Qed.

Lemma intact_stopPump i b : channels_intact b -> channels_intact (stopPump i b).
Proof.
  intros Hb. destruct (pumps b !! i) as [p|] eqn:Hp.
  - destruct (isRunning p) eqn:Hr.
    + rewrite (stopPump_running i b p Hp Hr).
      apply (intact_insert i p (stopped p) b Hp eq_refl Hb).
    + now rewrite (stopPump_idle i b p Hp Hr).
  - now rewrite (stopPump_absent i b Hp).
Qed.

Lemma intact_startPump clk i r dur cont b :
  channels_intact b -> channels_intact (startPump clk i r dur cont b).
Proof.
  intros Hb. destruct (pumps b !! i) as [p|] eqn:Hp.
  - destruct (startPump_effect clk i r dur cont b p Hp) as (H & _).
    unfold channels_intact. rewrite H.
    apply intact_insert with (p := p); [exact Hp | reflexivity | exact Hb].
  - now rewrite (startPump_absent clk i r dur cont b Hp).
Qed.

(** The two ways [handleStartCommand] can end. *)
Lemma handleStartCommand_cases clk cmd b :
  (exists text, handleStartCommand clk cmd b = Serial_println text b) \/
  (exists n p,
      let f := split_fields cmd in
      let c := wrap_int (toInt (part f 4)) in
      let dur := wrap_int (toInt (part f 3)) in
      pumps b !! n = Some p /\
      rpm_out_of_range (toFloat (part f 2)) = false /\
      (c = 0 -> 0 < dur) /\
      handleStartCommand clk cmd b
      = Serial_println "OK" (startPump clk n (toFloat (part f 2)) dur (c =? 1) b)).
Proof.
  unfold handleStartCommand.
  destruct (negb _); [left; eexists; reflexivity|].
  destruct (findPumpIndex_known (charAt (part (split_fields cmd) 1) 0) b)
    as [[H1 H2]|(n & p & H1 & H2 & H3)]; rewrite H1.
  { left; eexists; reflexivity. }
  replace (Z.of_nat n =? -1) with false by (symmetry; apply Z.eqb_neq; lia).
  destruct (rpm_out_of_range _) eqn:Hr; [left; eexists; reflexivity|].
  destruct ((_ =? 0) && _) eqn:Hd; [left; eexists; reflexivity|].
  right. exists n, p. cbv zeta. rewrite Nat2Z.id.
  split; [exact H2|]. split; [reflexivity|]. split; [|reflexivity].
  intros Hc. rewrite Hc in Hd. simpl in Hd. now apply Z.leb_gt in Hd.
Qed.

(** A property of the board that every primitive action preserves is
    preserved by the whole program.  [okc] restricts the [continuous]
    field of the START lines that are processed. *)
Section Preservation.

Variable Inv : Board -> Prop.
Variable okc : Z -> Prop.

Hypothesis Inv_emit : forall items b, Inv b -> Inv (Serial_emit items b).
Hypothesis Inv_input : forall s c b, Inv b -> Inv (with_input s c b).
Hypothesis Inv_stop : forall i b, Inv b -> Inv (stopPump i b).
Hypothesis Inv_start :
  forall clk n p r dur c b,
    Inv b -> pumps b !! n = Some p -> okc c -> (c = 0 -> 0 < dur) ->
    Inv (startPump clk n r dur (c =? 1) b).
Hypothesis Inv_pulse :
  forall i p us b,
    Inv b -> pumps b !! i = Some p -> isRunning p = true -> Inv (pulse i p us b).

Lemma Inv_updatePump ms us b i : Inv b -> Inv (updatePump ms us b i).
Proof.
  intros Hb. unfold updatePump.
  destruct (pumps b !! i) as [p|] eqn:Hp; [|exact Hb].
  destruct (isRunning p) eqn:Hr; [|exact Hb]. cbn [negb].
  destruct (negb (continuous p) && duration_expired ms p); [now apply Inv_stop|].
  destruct (step_due us p); [|exact Hb].
  now apply (Inv_pulse i p us b).
Qed.

Lemma Inv_updatePumps clk b : Inv b -> Inv (updatePumps clk b).
Proof.
  intros Hb. unfold updatePumps. cbn [seq foldl].
  now repeat apply Inv_updatePump.
Qed.

Lemma Inv_processCommand clk line b :
  Inv b ->
  (startsWith (trim line) "START" = true -> okc (continuous_field line)) ->
  Inv (processCommand clk line b).
Proof.
  intros Hb Hok. unfold processCommand.
  destruct (startsWith (trim line) "START") eqn:Hs.
  - destruct (handleStartCommand_cases clk (trim line) b)
      as [[text ->]|(n & p & Hp & _ & Hd & ->)].
    + now apply Inv_emit.
    + apply Inv_emit. apply (Inv_start clk n p _ _ _ b Hb Hp); [|exact Hd].
      exact (Hok eq_refl).
  - destruct (startsWith (trim line) "STOP").
    { unfold handleStopCommand.
      destruct (_ || _); [now apply Inv_emit|].
      destruct (_ =? -1); [now apply Inv_emit|].
      apply Inv_emit. now apply Inv_stop. }
    destruct (String.eqb (trim line) "EMERGENCY").
    { unfold handleEmergencyStop. apply Inv_emit. cbn [seq foldl].
      now repeat apply Inv_stop. }
    destruct (String.eqb (trim line) "STATUS"); now apply Inv_emit.
Qed.

Lemma Inv_loop clk1 clk2 b :
  Inv b -> allowed_line okc b -> Inv (loop clk1 clk2 b).
Proof.
  intros Hb Hok. unfold loop. apply Inv_updatePumps.
  destruct (stringComplete b) eqn:Hc; [|exact Hb].
  apply Inv_input. apply Inv_processCommand; [exact Hb|].
  intros Hs. exact (Hok Hc Hs).
Qed.

Lemma Inv_serialEvent bytes b : Inv b -> Inv (serialEvent bytes b).
Proof.
  unfold serialEvent. revert b.
  induction (list_ascii_of_string bytes) as [|c l IH]; intros b Hb; [exact Hb|].
  cbn [foldl]. apply IH. unfold receive_char.
  destruct (Ascii.eqb c "010"); [now apply Inv_input|].
  destruct (negb _); [now apply Inv_input | exact Hb].
Qed.

End Preservation.

(** *** The shared enable line *)

Lemma enable_inv_emit items b : enable_inv b -> enable_inv (Serial_emit items b).
Proof. exact (fun H => H). Qed.

Lemma enable_inv_input s c b : enable_inv b -> enable_inv (with_input s c b).
Proof. exact (fun H => H). Qed.

Lemma enable_inv_stop i b : enable_inv b -> enable_inv (stopPump i b).
Proof.
  intros [Hint Hen]. split; [now apply intact_stopPump|].
  destruct (pumps b !! i) as [p|] eqn:Hp.
  - destruct (isRunning p) eqn:Hr.
    + intros Hlow. exfalso.
      pose proof (stopPump_disables i b p Hp Hr) as Hhigh.
      destruct (intact_pins i p b Hint Hp) as (Hpin & _).
      rewrite Hpin in Hhigh. rewrite Hhigh in Hlow. discriminate.
    + now rewrite (stopPump_idle i b p Hp Hr).
  - now rewrite (stopPump_absent i b Hp).
Qed.

Lemma enable_inv_start clk n p r dur c b :
  enable_inv b -> pumps b !! n = Some p -> True -> (c = 0 -> 0 < dur) ->
  enable_inv (startPump clk n r dur (c =? 1) b).
Proof.
  intros [Hint Hen] Hp _ _. split; [now apply intact_startPump|].
  intros _. destruct (startPump_effect clk n r dur (c =? 1) b p Hp) as (H & _).
  exists n. eexists. rewrite H. split.
  - apply list_lookup_insert_eq. eapply lookup_lt_Some; eauto.
  - reflexivity.
Qed.

Lemma enable_inv_pulse i p us b :
  enable_inv b -> pumps b !! i = Some p -> isRunning p = true ->
  enable_inv (pulse i p us b).
Proof.
  intros [Hint Hen] Hp Hr. split.
  - apply (intact_insert i p (pulsed p us) b Hp eq_refl Hint).
  - destruct (intact_pins i p b Hint Hp) as (_ & Hstep & _).
    unfold enable_implies_running, pulse, seq_stmt, delayMicroseconds.
    change (digitalRead X_ENABLE_PIN (set_pump i (pulsed p us)
              (digitalWrite (stepPin p) LOW (digitalWrite (stepPin p) HIGH b))))
      with (digitalRead X_ENABLE_PIN
              (digitalWrite (stepPin p) LOW (digitalWrite (stepPin p) HIGH b))).
    rewrite !digitalRead_write. rewrite !decide_False by assumption.
    intros _. exists i, (pulsed p us). split; [|exact Hr].
    cbn. apply list_lookup_insert_eq. eapply lookup_lt_Some; eauto.
Qed.

Lemma enable_inv_setup : enable_inv (setup power_on).
Proof. split; [reflexivity|]. intros H. vm_compute in H. discriminate. Qed.

Lemma reachable_enable_inv b : reachable b -> enable_inv b.
Proof.
  induction 1 as [|b ev Hb IH]; [exact enable_inv_setup|].
  destruct ev as [bytes|clk1 clk2]; cbn [step].
  - apply (Inv_serialEvent enable_inv enable_inv_input); exact IH.
  - apply (Inv_loop enable_inv (fun _ => True) enable_inv_emit enable_inv_input
             enable_inv_stop enable_inv_start enable_inv_pulse); [exact IH|].
    intros _ _. exact I.
Qed.

Lemma reachable_run evs : reachable (run evs).
Proof.
  unfold run. generalize (setup power_on) reach_setup.
  induction evs as [|ev evs IH]; intros b Hb; [exact Hb|].
  cbn [foldl]. apply IH. now apply reach_step.
Qed.

(** C2, as the code has it.  The four channels drive one enable output,
    pin 8.  In every reachable state an asserted enable output means
    that some channel is running; and deactivating a running channel
    deasserts the enable output of every channel, while the running
    flags of the other channels stay as they are. *)
Theorem C2_shared_enable_line (b : Board) :
  reachable b ->
  (forall i p, pumps b !! i = Some p -> enablePin p = X_ENABLE_PIN) /\
  ((exists i p, pumps b !! i = Some p /\ enable_asserted p b) ->
   exists i p, pumps b !! i = Some p /\ isRunning p = true) /\
  (forall i p, pumps b !! i = Some p -> isRunning p = true ->
     forall j q, pumps b !! j = Some q ->
       ~ enable_asserted q (stopPump i b) /\
       (j <> i -> pumps (stopPump i b) !! j = Some q)).
Proof.
  intros Hreach. destruct (reachable_enable_inv b Hreach) as [Hint Hen].
  split; [|split].
  - intros i p Hp. now destruct (intact_pins i p b Hint Hp).
  - intros (i & p & Hp & Hlow). apply Hen.
    destruct (intact_pins i p b Hint Hp) as (Hpin & _).
    unfold enable_asserted in Hlow. now rewrite Hpin in Hlow.
  - intros i p Hp Hr j q Hq. split.
    + unfold enable_asserted.
      destruct (intact_pins i p b Hint Hp) as (Hpin & _).
      destruct (intact_pins j q b Hint Hq) as (Hqin & _).
      rewrite Hqin, <- Hpin. rewrite (stopPump_disables i b p Hp Hr). discriminate.
    + intros Hji. rewrite stopPump_lookup_ne by auto. exact Hq.
Qed.

Lemma C2_shared_enable_witness :
  let b := run [ EvSerial ("START,X,50,10,0" ++ newline); EvLoop c0 c0;
                 EvSerial ("START,Y,50,10,0" ++ newline); EvLoop c0 c0 ] in
  reachable b /\
  forall i p, pumps b !! i = Some p -> enablePin p = X_ENABLE_PIN.
Proof.
  cbv zeta. split; [apply reachable_run|].
  apply C2_shared_enable_line. apply reachable_run.
Defined.

(** Channel Y keeps its running flag while the enable output it shares
    with X is deasserted: "enabled iff running" does not hold. *)
Lemma C2_enabled_iff_running_fails :
  ~ (forall b, reachable b ->
       forall i p, pumps b !! i = Some p ->
                   (enable_asserted p b <-> isRunning p = true)).
Proof.
  intros H.
  specialize (H (run two_started_one_stopped) (reachable_run _) 1%nat).
  vm_compute in H.
  specialize (H _ eq_refl). destruct H as [_ H]. specialize (H eq_refl). discriminate.
Qed.

(** *** The stored duration *)

Lemma never_activated_idle i p : never_activated i p -> isRunning p = false.
Proof.
  unfold never_activated. intros H.
  destruct i as [|[|[|[|i]]]]; cbn in H; try discriminate; now injection H as <-.
Qed.

Lemma duration_inv_insert i p q b :
  duration_inv b -> pumps b !! i = Some p ->
  (continuous q = true \/ 0 < duration q \/ never_activated i q) ->
  forall j p', <[i := q]> (pumps b) !! j = Some p' ->
               continuous p' = true \/ 0 < duration p' \/ never_activated j p'.
Proof.
  intros Hb Hp Hq j p' Hj. destruct (decide (i = j)) as [<-|Hne].
  - rewrite list_lookup_insert_eq in Hj by (eapply lookup_lt_Some; eauto).
    now injection Hj as <-.
  - rewrite list_lookup_insert_ne in Hj by assumption. now apply Hb.
Qed.

Lemma duration_inv_stop i b : duration_inv b -> duration_inv (stopPump i b).
Proof.
  intros Hb j p'. rewrite stopPump_lookup. case_decide as Hij; [|apply Hb].
  destruct (pumps b !! j) as [p|] eqn:Hp; [|discriminate]. cbn. intros [= <-].
  destruct (Hb j p Hp) as [H|[H|H]]; [now left | now right; left |].
  right; right. now rewrite (stopped_idle p (never_activated_idle j p H)).
Qed.

Lemma duration_inv_start clk n p r dur c b :
  duration_inv b -> pumps b !! n = Some p -> zero_or_one c -> (c = 0 -> 0 < dur) ->
  duration_inv (startPump clk n r dur (c =? 1) b).
Proof.
  intros Hb Hp Hc Hd. destruct (startPump_effect clk n r dur (c =? 1) b p Hp) as (H & _).
  unfold duration_inv. rewrite H. apply (duration_inv_insert n p _ b Hb Hp). cbn.
  destruct Hc as [-> | ->]; [right; left; now apply Hd | now left].
Qed.

Lemma duration_inv_pulse i p us b :
  duration_inv b -> pumps b !! i = Some p -> isRunning p = true ->
  duration_inv (pulse i p us b).
Proof.
  intros Hb Hp Hr. unfold duration_inv, pulse, seq_stmt, delayMicroseconds. cbn.
  apply (duration_inv_insert i p _ b Hb Hp). cbn.
  destruct (Hb i p Hp) as [H|[H|H]]; [now left | now right; left |].
  apply never_activated_idle in H. congruence.
Qed.

Lemma duration_inv_setup : duration_inv (setup power_on).
Proof.
  intros i p Hp. right; right. exact Hp.
Qed.

Lemma reachable_binary_duration_inv b : reachable_binary b -> duration_inv b.
Proof.
  induction 1 as [|b bytes Hb IH|b clk1 clk2 Hb IH Hok]; [exact duration_inv_setup| |].
  - apply (Inv_serialEvent duration_inv (fun s c b H => H)); exact IH.
  - apply (Inv_loop duration_inv zero_or_one (fun items b H => H) (fun s c b H => H)
             duration_inv_stop duration_inv_start duration_inv_pulse); [exact IH|].
    exact Hok.
Qed.

(** C9, as the code has it.  In every state reached by scheduler passes
    and by commands whose START lines carry 0 or 1 in the continuous
    field, a channel whose continuous flag is false has a strictly
    positive stored duration, unless it has not been activated since
    power-on (its record is still the initial one, with duration 0 and
    the running flag clear); in particular a running channel that is
    not continuous has a strictly positive duration. *)
Theorem C9_duration_positive_once_started (b : Board) :
  reachable_binary b ->
  forall i p, pumps b !! i = Some p -> continuous p = false ->
    (0 < duration p \/ never_activated i p) /\
    (isRunning p = true -> 0 < duration p).
Proof.
  intros Hreach i p Hp Hc.
  destruct (reachable_binary_duration_inv b Hreach i p Hp) as [H|[H|H]].
  - congruence.
  - split; [now left | now intros _].
  - split; [now right|]. intros Hr. apply never_activated_idle in H. congruence.
Qed.

Lemma C9_duration_witness :
  let b := loop c0 c0 (serialEvent ("START,X,50,10,0" ++ newline) (setup power_on)) in
  let p := mkPump 2 5 8 true (F32.of_Z 50) 10 false 0 (interval_of (F32.of_Z 50)) 0 "X" in
  reachable_binary b /\
  pumps b !! 0%nat = Some p /\
  continuous p = false /\ isRunning p = true /\ 0 < duration p.
Proof.
  cbv zeta.
  assert (Hreach : reachable_binary
            (loop c0 c0 (serialEvent ("START,X,50,10,0" ++ newline) (setup power_on)))).
  { apply rb_loop; [apply rb_serial, rb_setup|]. intros _ _. left.
    vm_compute. reflexivity. }
  assert (Hp : pumps (loop c0 c0 (serialEvent ("START,X,50,10,0" ++ newline)
                                               (setup power_on))) !! 0%nat
               = Some (mkPump 2 5 8 true (F32.of_Z 50) 10 false 0
                              (interval_of (F32.of_Z 50)) 0 "X"))
    by (vm_compute; reflexivity).
  split; [exact Hreach|]. split; [exact Hp|].
  split; [reflexivity|]. split; [reflexivity|].
  exact (proj2 (C9_duration_positive_once_started _ Hreach 0%nat _ Hp eq_refl) eq_refl).
Defined.

(** After [setup] every channel has continuous = false and duration 0. *)
Lemma C9_initial_duration_is_zero :
  ~ (forall b, reachable b ->
       forall i p, pumps b !! i = Some p -> continuous p = false -> 0 < duration p).
Proof.
  intros H.
  specialize (H (setup power_on) reach_setup 0%nat _ eq_refl eq_refl).
  vm_compute in H. discriminate.
Qed.

(** A continuous field other than 0 and 1 escapes the duration check:
    START,X,50,0,2 starts channel X with continuous = false and
    duration 0. *)
Lemma start_continuous_two_skips_duration_check :
  let b := processCommand c0 "START,X,50,0,2" (setup power_on) in
  exists p, pumps b !! 0%nat = Some p /\
            isRunning p = true /\ continuous p = false /\ duration p = 0.
Proof.
  cbv zeta. exists (mkPump 2 5 8 true (F32.of_Z 50) 0 false 0 (interval_of (F32.of_Z 50)) 0 "X").
  split; [vm_compute; reflexivity|]. repeat split.
Qed.

(** ** The front-end *)

Lemma or_zero_of_zero_or_nan x :
  Frontend.is_zero x = true \/ Frontend.isNaN x = true ->
  Frontend.or_zero x = S754_zero false.
Proof.
  intros [H|H]; destruct x as [[]|[]| |[] m e]; try discriminate; reflexivity.
Qed.

(** C10. When the RPM input of a pump parses to 0 or to NaN,
    [startPump] sends no request and leaves [pumpStates] as it is; with
    the pump's other two inputs on the page, all it does is show the
    error notification and return. *)
Theorem C10_zero_rpm_sends_no_request
        (doc : Frontend.Document) (net : Frontend.FetchOutcome)
        (pump text : string) (c : Frontend.Controller) :
  Frontend.rpm_input doc pump = Some text ->
  Frontend.is_zero (Frontend.parseFloat text) = true \/
  Frontend.isNaN (Frontend.parseFloat text) = true ->
  let result := Frontend.startPump doc net pump c in
  let notice := Frontend.ShowNotification (pump ++ " Pump: RPM cannot be 0") "error" in
  Frontend.pumpStates (fst result) = Frontend.pumpStates c /\
  (Frontend.effects (fst result) = Frontend.effects c \/
   Frontend.effects (fst result) = Frontend.effects c ++ [notice]) /\
  (is_Some (Frontend.time_input doc pump) ->
   is_Some (Frontend.continuous_checkbox doc pump) ->
   Frontend.effects (fst result) = Frontend.effects c ++ [notice] /\
   snd result = Frontend.Fulfilled).
Proof.
  intros Hrpm Hzero. cbv zeta. unfold Frontend.startPump. rewrite Hrpm.
  rewrite (or_zero_of_zero_or_nan _ Hzero).
  destruct (Frontend.time_input doc pump) as [t|].
  - destruct (Frontend.continuous_checkbox doc pump) as [k|]; cbn.
    + repeat split; auto.
    + split; [reflexivity|]. split; [now left|]. intros _ [? H]. discriminate.
  - cbn. split; [reflexivity|]. split; [now left|]. intros [? H]. discriminate.
Qed.

Lemma C10_zero_rpm_witness :
  Frontend.rpm_input sample_page "X" = Some "0"%string /\
  Frontend.is_zero (Frontend.parseFloat "0") = true /\
  Frontend.pumpStates
    (fst (Frontend.startPump sample_page (Frontend.Answered true "") "X"
                             Frontend.new_controller))
  = Frontend.pumpStates Frontend.new_controller.
Proof.
  split; [reflexivity|]. split; [reflexivity|].
  apply (C10_zero_rpm_sends_no_request sample_page (Frontend.Answered true "") "X" "0"
           Frontend.new_controller eq_refl (or_introl eq_refl)).
Defined.

Example frontend_start_sends :
  Frontend.effects
    (fst (Frontend.startPump
            (Frontend.mkDocument (fun _ => Some "50"%string) (fun _ => Some "10"%string)
                                 (fun _ => Some false))
            (Frontend.Answered true "") "X" Frontend.new_controller))
  = [ Frontend.Fetch "http://localhost:5000/api/start_pump" "POST"
        (Frontend.mkStartRequest "X" (binary_normalize 53 1024 50 0 false)
                                 (binary_normalize 53 1024 10 0 false) 0);
      Frontend.UpdatePumpDisplay "X";
      Frontend.ShowNotification "X Pump started successfully" "success" ].
Proof. reflexivity. Qed.

(** ** Rounding in binary32 *)

Lemma rec_of_loc A B :
  0 < B -> rec_of A B = shr_record_of_loc (A / B) (loc_of A B).
Proof.
  intros HB. unfold rec_of, loc_of, rbit, sbit.
  pose proof (Z.mod_pos_bound A B HB) as Hr.
  destruct (Z.eqb_spec (A mod B) 0) as [H0|H0];
    destruct (Z.compare_spec (2 * (A mod B)) B) as [H|H|H];
    destruct (Z.leb_spec B (2 * (A mod B)));
    destruct (Z.eqb_spec (2 * (A mod B)) B); try lia; reflexivity.
Qed.

Lemma loc_of_shr_record_of_loc m l : loc_of_shr_record (shr_record_of_loc m l) = l.
Proof. destruct l as [|[]]; reflexivity. Qed.

Lemma shr_m_of_loc m l : shr_m (shr_record_of_loc m l) = m.
Proof. destruct l as [|[]]; reflexivity. Qed.

Lemma shr_1_spec m r s :
  0 <= m -> shr_1 (Build_shr_record m r s) = Build_shr_record (Z.div2 m) (Z.odd m) (r || s).
Proof.
  intros Hm. destruct m as [|[p|p|]|]; try reflexivity. lia.
Qed.

Lemma shr_1_rec_of A B :
  0 < B -> 0 <= A -> shr_1 (rec_of A B) = rec_of A (2 * B).
Proof.
  intros HB HA. unfold rec_of.
  assert (Hq : 0 <= A / B) by (apply Z.div_pos; lia).
  rewrite shr_1_spec by assumption.
  pose proof (Z.mod_pos_bound A B HB) as Hr.
  pose proof (Z.mod_pos_bound A (2 * B) ltac:(lia)) as Hr2.
  pose proof (Z.div_mod A B ltac:(lia)) as E1.
  pose proof (Z.div_mod A (2 * B) ltac:(lia)) as E2.
  assert (Hdiv : A / (2 * B) = Z.div2 (A / B)).
  { rewrite Z.div2_div. rewrite (Z.mul_comm 2 B). rewrite Z.div_div by lia. reflexivity. }
  pose proof (Zdiv2_odd_eqn (A / B)) as Hodd. rewrite <- Hdiv in *.
  unfold rbit, sbit.
  destruct (Z.odd (A / B)); f_equal;
    repeat match goal with
    | |- context [?a <=? ?b] => destruct (Z.leb_spec a b)
    | |- context [?a =? ?b] => destruct (Z.eqb_spec a b)
    end; try reflexivity; try nia.
Qed.

Lemma pow2_double x : 0 <= x -> 2 ^ (2 * x) = 2 ^ x * 2 ^ x.
Proof. intros H. replace (2 * x) with (x + x) by lia. now rewrite Z.pow_add_r. Qed.

Lemma pow2_xI p : 2 ^ Zpos p~1 = 2 * (2 ^ Zpos p * 2 ^ Zpos p).
Proof.
  change (Zpos p~1) with (2 * Zpos p + 1).
  rewrite Z.pow_add_r by lia. rewrite pow2_double by lia.
  change (2 ^ 1) with 2. ring.
Qed.

Lemma pow2_xO p : 2 ^ Zpos p~0 = 2 ^ Zpos p * 2 ^ Zpos p.
Proof. change (Zpos p~0) with (2 * Zpos p). apply pow2_double. lia. Qed.

Lemma iter_shr_rec_of p : forall A B,
  0 < B -> 0 <= A -> iter_pos shr_1 p (rec_of A B) = rec_of A (B * 2 ^ Zpos p).
Proof.
  induction p as [p IH|p IH|]; intros A B HB HA; cbn [iter_pos].
  - rewrite shr_1_rec_of by lia.
    assert (0 < 2 ^ Zpos p) by (apply Z.pow_pos_nonneg; lia).
    rewrite IH by lia. rewrite IH by nia. rewrite pow2_xI. f_equal. ring.
  - assert (0 < 2 ^ Zpos p) by (apply Z.pow_pos_nonneg; lia).
    rewrite IH by lia. rewrite IH by nia. rewrite pow2_xO. f_equal. ring.
  - rewrite shr_1_rec_of by lia. f_equal. change (2 ^ 1) with 2. ring.
Qed.

(** [shr] by [n >= 0] places on the truncation of A/B gives the
    truncation of A/(B 2^n). *)
Lemma shr_rec_of A B e n :
  0 < B -> 0 <= A -> 0 <= n ->
  shr (rec_of A B) e n = (rec_of A (B * 2 ^ n), e + n).
Proof.
  intros HB HA Hn. unfold shr. destruct n as [|p|p]; [| |lia].
  - change (2 ^ 0) with 1. rewrite Z.mul_1_r, Z.add_0_r. reflexivity.
  - now rewrite iter_shr_rec_of.
Qed.

(** ** Number of binary digits *)

Lemma digits2_pos_size p : digits2_pos p = Pos.size p.
Proof. induction p as [p IH|p IH|]; cbn; now rewrite ?IH. Qed.

Lemma Zdigits2_log2 m : 0 < m -> Zdigits2 m = Z.log2 m + 1.
Proof.
  destruct m as [|p|p]; try lia. intros _. cbn [Zdigits2]. rewrite digits2_pos_size.
  destruct p as [p|p|]; cbn [Pos.size Z.log2]; lia.
Qed.

Lemma Zdigits2_bounds m : 0 < m -> 2 ^ (Zdigits2 m - 1) <= m < 2 ^ Zdigits2 m.
Proof.
  intros Hm. rewrite Zdigits2_log2 by assumption.
  replace (Z.log2 m + 1 - 1) with (Z.log2 m) by lia.
  replace (Z.log2 m + 1) with (Z.succ (Z.log2 m)) by lia.
  now apply Z.log2_spec.
Qed.

Lemma Zdigits2_unique m d : 0 < d -> 2 ^ (d - 1) <= m < 2 ^ d -> Zdigits2 m = d.
Proof.
  intros Hd H.
  assert (Hm : 0 < m).
  { assert (0 < 2 ^ (d - 1)) by (apply Z.pow_pos_nonneg; lia). lia. }
  rewrite Zdigits2_log2 by assumption.
  rewrite (Z.log2_unique m (d - 1)); [lia | lia |].
  replace (Z.succ (d - 1)) with d by lia. exact H.
Qed.

Lemma Zdigits2_nonneg m : 0 <= m -> 0 <= Zdigits2 m.
Proof. destruct m; cbn; lia. Qed.

Lemma Zdigits2_pos m : 0 < m -> 0 < Zdigits2 m.
Proof. destruct m; cbn; lia. Qed.

Lemma Zdigits2_le m n : 0 <= m <= n -> Zdigits2 m <= Zdigits2 n.
Proof.
  intros [Hm Hmn]. destruct (Z.eq_dec m 0) as [->|Hne].
  - cbn. now apply Zdigits2_nonneg.
  - rewrite !Zdigits2_log2 by lia. pose proof (Z.log2_le_mono m n Hmn). lia.
Qed.

(** Below [2 ^ d] there are at most [d] digits. *)
Lemma Zdigits2_lt_pow m d : 0 <= d -> 0 <= m < 2 ^ d -> Zdigits2 m <= d.
Proof.
  intros Hd [Hm Hlt]. destruct (Z.eq_dec m 0) as [->|Hne]; [cbn; lia|].
  pose proof (Zdigits2_bounds m ltac:(lia)) as [Hlo _].
  destruct (Z.le_gt_cases (Zdigits2 m) d) as [|Hgt]; [assumption|].
  assert (2 ^ d <= 2 ^ (Zdigits2 m - 1)) by (apply Z.pow_le_mono_r; lia). lia.
Qed.

Lemma Zdigits2_ge_pow m d : 0 <= d -> 2 ^ d <= m -> d + 1 <= Zdigits2 m.
Proof.
  intros Hd Hle.
  assert (Hm : 0 < m).
  { assert (0 < 2 ^ d) by (apply Z.pow_pos_nonneg; lia). lia. }
  pose proof (Zdigits2_bounds m Hm) as [_ Hhi].
  destruct (Z.le_gt_cases (d + 1) (Zdigits2 m)) as [|Hgt]; [assumption|].
  assert (2 ^ Zdigits2 m <= 2 ^ d).
  { apply Z.pow_le_mono_r; [lia|]. lia. }
  lia.
Qed.

(** ** The rounding step of binary32 *)

Lemma fx_eq x : fx x = Z.max (x - 24) (-149).
Proof. reflexivity. Qed.

Lemma RNE_bounds t l : t <= round_nearest_even t l <= t + 1.
Proof. destruct l as [|[]]; cbn [round_nearest_even]; try destruct (Z.even t); lia. Qed.

Lemma rec_of_1 m : rec_of m 1 = Build_shr_record m false false.
Proof.
  unfold rec_of, rbit, sbit. rewrite Z.div_1_r, Z.mod_1_r. reflexivity.
Qed.

(** The truncated mantissa at the canonical exponent has at most 24
    digits, and exactly 24 unless the exponent is the smallest one. *)
Lemma truncated_mantissa A B e :
  0 < B -> 0 <= A -> e <= fx (Zdigits2 (A / B) + e) ->
  let f := fx (Zdigits2 (A / B) + e) in
  let t := A / (B * 2 ^ (f - e)) in
  0 <= t < 2 ^ 24 /\ (f = -149 \/ 2 ^ 23 <= t).
Proof.
  intros HB HA He f t. subst t.
  assert (Hn : 0 <= f - e) by (subst f; lia).
  assert (Hpow : 0 < 2 ^ (f - e)) by (apply Z.pow_pos_nonneg; lia).
  rewrite <- Z.div_div by lia.
  set (q := A / B) in *.
  assert (Hq : 0 <= q) by (apply Z.div_pos; lia).
  destruct (Z.eq_dec q 0) as [Hq0|Hq0].
  - rewrite Hq0. rewrite Z.div_0_l by lia. split; [lia|]. left.
    subst f. rewrite Hq0 in *. cbn [Zdigits2] in *. rewrite fx_eq in *. lia.
  - pose proof (Zdigits2_bounds q ltac:(lia)) as [Hlo Hhi].
    pose proof (Zdigits2_pos q ltac:(lia)) as Hd.
    set (d := Zdigits2 q) in *.
    assert (Hf : f = Z.max (d + e - 24) (-149)) by (subst f; now rewrite fx_eq).
    split; [split|].
    + apply Z.div_pos; lia.
    + apply Z.div_lt_upper_bound; [lia|].
      assert (2 ^ d <= 2 ^ (f - e) * 2 ^ 24).
      { rewrite <- Z.pow_add_r by lia. apply Z.pow_le_mono_r; lia. }
      lia.
    + destruct (Z.le_gt_cases (-149) (d + e - 24)) as [Hnorm|Hsub]; [right|left; lia].
      assert (Hfe : f - e = d - 24) by lia. rewrite Hfe.
      apply Z.div_le_lower_bound; [apply Z.pow_pos_nonneg; lia|].
      rewrite <- Z.pow_add_r by lia.
      replace (d - 24 + 23) with (d - 1) by lia. exact Hlo.
Qed.

Lemma round_aux_second m1 f :
  -149 <= f -> 0 <= m1 <= 2 ^ 24 -> (f = -149 \/ 2 ^ 23 <= m1) ->
  (let '(mrs, e) := shr_fexp 24 128 m1 f loc_Exact in
   match shr_m mrs with
   | 0 => S754_zero false
   | Zpos m => if e <=? 128 - 24 then S754_finite false m e else S754_infinity false
   | Zneg _ => S754_nan
   end) = round_nf m1 f.
Proof.
  intros Hf Hm Hnorm. unfold shr_fexp, round_nf.
  change (shr_record_of_loc m1 loc_Exact) with (Build_shr_record m1 false false).
  rewrite <- rec_of_1. fold (fx (Zdigits2 m1 + f)). change (128 - 24) with 104.
  destruct (Z.eqb_spec m1 0) as [->|Hne].
  - cbn [Zdigits2]. rewrite fx_eq.
    replace (Z.max (0 + f - 24) (-149) - f) with (- (f + 149)) by lia.
    unfold shr. destruct (- (f + 149)) eqn:E; try lia; rewrite rec_of_1; reflexivity.
  - destruct (Z.ltb_spec m1 (2 ^ 24)) as [Hlt|Hge].
    + assert (Hd : Zdigits2 m1 <= 24) by (apply Zdigits2_lt_pow; lia).
      assert (Hd' : f = -149 \/ Zdigits2 m1 = 24).
      { destruct Hnorm as [|H23]; [now left|right].
        pose proof (Zdigits2_ge_pow m1 23 ltac:(lia) H23). lia. }
      assert (Hn : fx (Zdigits2 m1 + f) - f = 0) by (rewrite fx_eq; lia).
      rewrite Hn. unfold shr. rewrite rec_of_1. cbn [shr_m].
      destruct m1 as [|p|p]; try lia. reflexivity.
    + assert (Hm1 : m1 = 2 ^ 24) by lia. subst m1.
      change (Zdigits2 (2 ^ 24)) with 25.
      assert (Hn : fx (25 + f) - f = 1) by (rewrite fx_eq; lia).
      rewrite Hn. rewrite shr_rec_of by lia. cbn [rec_of shr_m].
      change (2 ^ 24 / (1 * 2 ^ 1)) with (2 ^ 23).
      change (2 ^ 23) with 8388608. reflexivity.
Qed.

Lemma round_aux_nf A B e :
  0 < B -> 0 <= A -> e <= fx (Zdigits2 (A / B) + e) ->
  let f := fx (Zdigits2 (A / B) + e) in
  let B' := B * 2 ^ (f - e) in
  binary_round_aux 24 128 false (A / B) e (loc_of A B)
  = round_nf (round_nearest_even (A / B') (loc_of A B')) f.
Proof.
  intros HB HA He f B'.
  pose proof (truncated_mantissa A B e HB HA He) as [Ht Hnorm].
  fold f in Ht, Hnorm. fold B' in Ht, Hnorm.
  assert (Hn : 0 <= f - e) by (subst f; lia).
  assert (HB' : 0 < B') by (subst B'; apply Z.mul_pos_pos; [lia|apply Z.pow_pos_nonneg; lia]).
  unfold binary_round_aux.
  assert (H1 : shr_fexp 24 128 (A / B) e (loc_of A B) = (rec_of A B', f)).
  { unfold shr_fexp. rewrite <- rec_of_loc by assumption. fold (fx (Zdigits2 (A / B) + e)).
    fold f. rewrite shr_rec_of by lia. fold B'. f_equal. lia. }
  rewrite H1.
  assert (H2 : loc_of_shr_record (rec_of A B') = loc_of A B').
  { rewrite rec_of_loc by assumption. apply loc_of_shr_record_of_loc. }
  rewrite H2. cbn [rec_of shr_m].
  pose proof (RNE_bounds (A / B') (loc_of A B')) as Hr.
  apply round_aux_second.
  - subst f. rewrite fx_eq. lia.
  - lia.
  - destruct Hnorm; [now left|right; lia].
Qed.

(** ** Floats as integers: the value in units of [2 ^ -149] *)

Lemma bounded_spec m e :
  bounded 24 128 m e = true <->
  -149 <= e <= 104 /\ Zdigits2 (Zpos m) <= 24 /\ (e = -149 \/ Zdigits2 (Zpos m) = 24).
Proof.
  unfold bounded, canonical_mantissa. fold (fx (Zpos (digits2_pos m) + e)).
  change (Zpos (digits2_pos m)) with (Zdigits2 (Zpos m)). change (128 - 24) with 104.
  rewrite andb_true_iff, Z.eqb_eq, Z.leb_le, fx_eq.
  pose proof (Zdigits2_pos (Zpos m) ltac:(lia)). lia.
Qed.

Lemma pow2_pos x : 0 <= x -> 0 < 2 ^ x.
Proof. intros. apply Z.pow_pos_nonneg; lia. Qed.

Lemma pow2_le x y : 0 <= x <= y -> 2 ^ x <= 2 ^ y.
Proof. intros. apply Z.pow_le_mono_r; lia. Qed.

Lemma pow2_split x y : 0 <= x -> 0 <= y -> 2 ^ (x + y) = 2 ^ x * 2 ^ y.
Proof. intros. now apply Z.pow_add_r. Qed.

Lemma ordZ_round_nf m1 f :
  -149 <= f -> 0 <= m1 <= 2 ^ 24 -> (f = -149 \/ 2 ^ 23 <= m1) ->
  ordZ (round_nf m1 f) = Z.min (m1 * 2 ^ (f + 149)) INF /\ canon (round_nf m1 f).
Proof.
  intros Hf Hm Hnorm. unfold round_nf, INF.
  pose proof (pow2_pos (f + 149) ltac:(lia)) as Hp.
  destruct (Z.eqb_spec m1 0) as [->|Hne]; [cbn [ordZ canon]; split; [lia|exact I]|].
  destruct (Z.ltb_spec m1 (2 ^ 24)) as [Hlt|Hge].
  - destruct (Z.leb_spec f 104) as [Hle|Hgt].
    + cbn [ordZ canon]. rewrite Z2Pos.id by lia. split.
      * assert (2 ^ (f + 149) <= 2 ^ 253) by (apply pow2_le; lia).
        assert (m1 * 2 ^ (f + 149) <= 2 ^ 24 * 2 ^ 253)
          by (apply Z.mul_le_mono_nonneg; lia).
        change (2 ^ 277) with (2 ^ 24 * 2 ^ 253). lia.
      * apply bounded_spec. rewrite Z2Pos.id by lia.
        assert (Zdigits2 m1 <= 24) by (apply Zdigits2_lt_pow; lia).
        split; [lia|]. split; [assumption|].
        destruct Hnorm as [|H23]; [now left|right].
        pose proof (Zdigits2_ge_pow m1 23 ltac:(lia) H23). lia.
    + cbn [ordZ canon]; unfold INF. split; [|exact I].
      destruct Hnorm as [|H23]; [lia|].
      assert (2 ^ 254 <= 2 ^ (f + 149)) by (apply pow2_le; lia).
      assert (2 ^ 23 * 2 ^ 254 <= m1 * 2 ^ (f + 149))
        by (apply Z.mul_le_mono_nonneg; lia).
      change (2 ^ 277) with (2 ^ 23 * 2 ^ 254). lia.
  - assert (m1 = 2 ^ 24) by lia. subst m1.
    destruct (Z.leb_spec (f + 1) 104) as [Hle|Hgt].
    + cbn [ordZ canon]; unfold INF. split.
      * replace (f + 1 + 149) with (1 + (f + 149)) by lia.
        rewrite pow2_split by lia.
        assert (2 ^ (f + 149) <= 2 ^ 252) by (apply pow2_le; lia).
        change (2 ^ 1) with 2.
        assert (2 ^ 24 * 2 ^ (f + 149) <= 2 ^ 24 * 2 ^ 252)
          by (apply Z.mul_le_mono_nonneg; lia).
        replace (Zpos (Z.to_pos (2 ^ 23)) * (2 * 2 ^ (f + 149)))
          with (2 ^ 24 * 2 ^ (f + 149))
          by (change (Zpos (Z.to_pos (2 ^ 23))) with (2 ^ 23);
              change (2 ^ 24) with (2 ^ 23 * 2); ring).
        change (2 ^ 277) with (2 ^ 24 * 2 ^ 252 * 2). lia.
      * apply bounded_spec. change (Zdigits2 (Zpos (Z.to_pos (2 ^ 23)))) with 24. lia.
    + cbn [ordZ canon]; unfold INF. split; [|exact I].
      assert (2 ^ 253 <= 2 ^ (f + 149)) by (apply pow2_le; lia).
      assert (2 ^ 24 * 2 ^ 253 <= 2 ^ 24 * 2 ^ (f + 149))
        by (apply Z.mul_le_mono_nonneg; lia).
      change (2 ^ 277) with (2 ^ 24 * 2 ^ 253). lia.
Qed.

Lemma ordZ_finite_lt_INF m e :
  bounded 24 128 m e = true -> 0 < ordZ (S754_finite false m e) < INF.
Proof.
  intros H. apply bounded_spec in H as (He & Hd & _). cbn [ordZ]. unfold INF.
  pose proof (pow2_pos (e + 149) ltac:(lia)).
  assert (2 ^ (e + 149) <= 2 ^ 253) by (apply pow2_le; lia).
  pose proof (Zdigits2_bounds (Zpos m) ltac:(lia)) as [_ Hhi].
  assert (2 ^ Zdigits2 (Zpos m) <= 2 ^ 24) by (apply pow2_le; split; [apply Zdigits2_nonneg|]; lia).
  change (2 ^ 277) with (2 ^ 24 * 2 ^ 253). nia.
Qed.

Lemma ordZ_canon_range x : canon x -> 0 <= ordZ x <= INF.
Proof.
  assert (HI : 0 < INF) by (unfold INF; apply pow2_pos; lia).
  destruct x as [[]|[]| |[] m e]; cbn [canon]; intros H; try tauto;
    try (pose proof (ordZ_finite_lt_INF m e H)); cbn [ordZ] in *; lia.
Qed.

(** On non-negative floats the comparison is the comparison of the
    integer values. *)
Lemma SFcompare_finite_ordZ mx ex my ey :
  bounded 24 128 mx ex = true -> bounded 24 128 my ey = true ->
  SFcompare (S754_finite false mx ex) (S754_finite false my ey)
  = Some (Zpos mx * 2 ^ (ex + 149) ?= Zpos my * 2 ^ (ey + 149)).
Proof.
  intros Hx Hy. cbn [SFcompare]. f_equal. symmetry.
  apply bounded_spec in Hx as (Hex & Hdx & Hnx).
  apply bounded_spec in Hy as (Hey & Hdy & Hny).
  pose proof (Zdigits2_bounds (Zpos mx) ltac:(lia)) as [Hxl Hxh].
  pose proof (Zdigits2_bounds (Zpos my) ltac:(lia)) as [Hyl Hyh].
  assert (Hx24 : Zpos mx < 2 ^ 24).
  { assert (2 ^ Zdigits2 (Zpos mx) <= 2 ^ 24)
      by (apply pow2_le; split; [apply Zdigits2_nonneg|]; lia). lia. }
  assert (Hy24 : Zpos my < 2 ^ 24).
  { assert (2 ^ Zdigits2 (Zpos my) <= 2 ^ 24)
      by (apply pow2_le; split; [apply Zdigits2_nonneg|]; lia). lia. }
  destruct (Z.compare_spec ex ey) as [Heq|Hlt|Hgt].
  - subst ey. change (Pos.compare_cont Eq mx my) with (Zpos mx ?= Zpos my).
    pose proof (pow2_pos (ex + 149) ltac:(lia)).
    destruct (Z.compare_spec (Zpos mx) (Zpos my));
      [apply Z.compare_eq_iff | apply Z.compare_lt_iff | apply Z.compare_gt_iff]; nia.
  - apply Z.compare_lt_iff.
    assert (Hd : Zdigits2 (Zpos my) = 24) by lia. rewrite Hd in Hyl.
    change (2 ^ (24 - 1)) with (2 ^ 23) in Hyl.
    replace (ey + 149) with ((ey - ex - 1) + (1 + (ex + 149))) by lia.
    rewrite (pow2_split (ey - ex - 1) (1 + (ex + 149))) by lia.
    rewrite (pow2_split 1 (ex + 149)) by lia.
    pose proof (pow2_pos (ey - ex - 1) ltac:(lia)) as HP.
    pose proof (pow2_pos (ex + 149) ltac:(lia)) as HQ.
    change (2 ^ 1) with 2. change (2 ^ 24) with (2 * 2 ^ 23) in Hx24.
    set (P := 2 ^ (ey - ex - 1)) in *. set (Q := 2 ^ (ex + 149)) in *.
    set (T := 2 ^ 23) in *.
    assert (Zpos mx * Q < 2 * T * Q) by (apply Z.mul_lt_mono_pos_r; lia).
    assert (T * (2 * Q) <= Zpos my * (2 * Q)) by (apply Z.mul_le_mono_nonneg_r; lia).
    assert (Zpos my * (2 * Q) * 1 <= Zpos my * (2 * Q) * P)
      by (apply Z.mul_le_mono_nonneg_l; lia).
    lia.
  - apply Z.compare_gt_iff.
    assert (Hd : Zdigits2 (Zpos mx) = 24) by lia. rewrite Hd in Hxl.
    change (2 ^ (24 - 1)) with (2 ^ 23) in Hxl.
    replace (ex + 149) with ((ex - ey - 1) + (1 + (ey + 149))) by lia.
    rewrite (pow2_split (ex - ey - 1) (1 + (ey + 149))) by lia.
    rewrite (pow2_split 1 (ey + 149)) by lia.
    pose proof (pow2_pos (ex - ey - 1) ltac:(lia)) as HP.
    pose proof (pow2_pos (ey + 149) ltac:(lia)) as HQ.
    change (2 ^ 1) with 2. change (2 ^ 24) with (2 * 2 ^ 23) in Hy24.
    set (P := 2 ^ (ex - ey - 1)) in *. set (Q := 2 ^ (ey + 149)) in *.
    set (T := 2 ^ 23) in *.
    assert (Zpos my * Q < 2 * T * Q) by (apply Z.mul_lt_mono_pos_r; lia).
    assert (T * (2 * Q) <= Zpos mx * (2 * Q)) by (apply Z.mul_le_mono_nonneg_r; lia).
    assert (Zpos mx * (2 * Q) * 1 <= Zpos mx * (2 * Q) * P)
      by (apply Z.mul_le_mono_nonneg_l; lia).
    lia.
Qed.

(** On non-negative floats the comparison is the comparison of the
    integer values. *)
Lemma SFcompare_ordZ x y :
  canon x -> canon y -> SFcompare x y = Some (ordZ x ?= ordZ y).
Proof.
  intros Hx Hy.
  assert (HI : 0 < INF) by (unfold INF; apply pow2_pos; lia).
  destruct x as [[]|[]| |[] mx ex]; cbn [canon] in Hx; try tauto;
  destruct y as [[]|[]| |[] my ey]; cbn [canon] in Hy; try tauto;
    try (now apply SFcompare_finite_ordZ);
    try (pose proof (ordZ_finite_lt_INF _ _ Hx));
    try (pose proof (ordZ_finite_lt_INF _ _ Hy));
    cbn [SFcompare]; f_equal; symmetry;
    first [ apply Z.compare_eq_iff; reflexivity
          | apply Z.compare_lt_iff; cbn [ordZ] in *; lia
          | apply Z.compare_gt_iff; cbn [ordZ] in *; lia ].
Qed.

(** ** Rounding as a function of the value *)

Lemma loc_of_scale A B c : 0 < B -> 0 < c -> loc_of (A * c) (B * c) = loc_of A B.
Proof.
  intros HB Hc. unfold loc_of. rewrite Z.mul_mod_distr_r by lia.
  pose proof (Z.mod_pos_bound A B HB) as Hr.
  destruct (Z.eqb_spec (A mod B) 0) as [H0|H0].
  - rewrite H0. reflexivity.
  - destruct (Z.eqb_spec (A mod B * c) 0) as [H1|H1]; [nia|].
    f_equal.
    destruct (Z.compare_spec (2 * (A mod B)) B);
      [apply Z.compare_eq_iff | apply Z.compare_lt_iff | apply Z.compare_gt_iff]; nia.
Qed.

Lemma div_scaled_digits A B j :
  0 < B -> 0 <= j -> 0 < A / B ->
  Zdigits2 (A * 2 ^ j / B) = Zdigits2 (A / B) + j.
Proof.
  intros HB Hj Hq.
  assert (HA : 0 <= A).
  { destruct (Z.le_gt_cases 0 A); [assumption|].
    assert (A / B < 0) by (apply Z.div_lt_upper_bound; lia). lia. }
  pose proof (Zdigits2_bounds (A / B) Hq) as [Hlo Hhi].
  pose proof (Zdigits2_pos (A / B) Hq) as Hd.
  set (d := Zdigits2 (A / B)) in *.
  pose proof (pow2_pos j Hj) as Hpj.
  apply Zdigits2_unique; [lia|].
  replace (d + j - 1) with ((d - 1) + j) by lia.
  rewrite !pow2_split by lia. split.
  - apply Z.div_le_lower_bound; [lia|].
    assert (B * 2 ^ (d - 1) <= A).
    { pose proof (Z.mul_div_le A B HB). nia. }
    nia.
  - apply Z.div_lt_upper_bound; [lia|].
    assert (A < B * 2 ^ d).
    { pose proof (Z.mod_pos_bound A B HB). pose proof (Z.div_mod A B ltac:(lia)). nia. }
    nia.
Qed.

Lemma round_aux_rnd A B e :
  0 < B -> 0 <= A -> E0 <= e -> e <= fx (Zdigits2 (A / B) + e) ->
  binary_round_aux 24 128 false (A / B) e (loc_of A B) = rnd (A * 2 ^ (e - E0)) B.
Proof.
  intros HB HA He0 He. rewrite round_aux_nf by assumption. cbv zeta. unfold rnd.
  set (j := e - E0). assert (Hj : 0 <= j) by (subst j; lia).
  pose proof (pow2_pos j Hj) as Hpj.
  set (f := fx (Zdigits2 (A / B) + e)) in *.
  assert (Hf : fx (Zdigits2 (A * 2 ^ j / B) + E0) = f).
  { assert (Hq : 0 <= A / B) by (apply Z.div_pos; lia).
    destruct (Z.eq_dec (A / B) 0) as [Hq0|Hq0].
    - subst f. rewrite Hq0 in *. cbn [Zdigits2] in *. rewrite fx_eq in *.
      assert (A < B).
      { pose proof (Z.mod_pos_bound A B HB). pose proof (Z.div_mod A B ltac:(lia)). nia. }
      assert (0 <= A * 2 ^ j / B < 2 ^ j).
      { split; [apply Z.div_pos; nia|]. apply Z.div_lt_upper_bound; nia. }
      pose proof (Zdigits2_lt_pow (A * 2 ^ j / B) j Hj ltac:(assumption)).
      pose proof (Zdigits2_nonneg (A * 2 ^ j / B) ltac:(lia)).
      rewrite fx_eq. subst j. lia.
    - rewrite div_scaled_digits by lia. subst f j. f_equal. lia. }
  rewrite Hf.
  assert (Hn : 0 <= f - e) by (subst f; lia).
  pose proof (pow2_pos (f - e) Hn) as Hpn.
  assert (HD : B * 2 ^ (f - E0) = B * 2 ^ (f - e) * 2 ^ j).
  { replace (f - E0) with ((f - e) + j) by (subst j; lia).
    rewrite pow2_split by lia. ring. }
  rewrite HD. rewrite Z.div_mul_cancel_r by nia.
  rewrite loc_of_scale by nia. reflexivity.
Qed.

Lemma div_le_cross a b c d :
  0 < b -> 0 < d -> 0 <= a -> a * d <= c * b -> a / b <= c / d.
Proof.
  intros Hb Hd Ha H. apply Z.div_le_lower_bound; [lia|].
  pose proof (Z.mul_div_le a b Hb) as H1.
  assert (d * (a / b) * b <= c * b) by nia.
  apply Z.mul_le_mono_pos_r with (p := b); [lia|]. lia.
Qed.

(** Rounding to nearest, ties to even, of a quotient is monotone. *)
Lemma RNE_mono N1 D1 N2 D2 :
  0 < D1 -> 0 < D2 -> 0 <= N1 -> N1 * D2 <= N2 * D1 ->
  round_nearest_even (N1 / D1) (loc_of N1 D1)
  <= round_nearest_even (N2 / D2) (loc_of N2 D2).
Proof.
  intros HD1 HD2 HN1 H.
  pose proof (div_le_cross N1 D1 N2 D2 HD1 HD2 HN1 H) as Hq.
  pose proof (RNE_bounds (N1 / D1) (loc_of N1 D1)) as Hb1.
  pose proof (RNE_bounds (N2 / D2) (loc_of N2 D2)) as Hb2.
  destruct (Z.eq_dec (N1 / D1) (N2 / D2)) as [Heq|Hne]; [|lia].
  pose proof (Z.div_mod N1 D1 ltac:(lia)) as E1.
  pose proof (Z.div_mod N2 D2 ltac:(lia)) as E2.
  pose proof (Z.mod_pos_bound N1 D1 HD1) as R1.
  pose proof (Z.mod_pos_bound N2 D2 HD2) as R2.
  rewrite <- Heq in *. set (t := N1 / D1) in *.
  set (r1 := N1 mod D1) in *. set (r2 := N2 mod D2) in *.
  assert (Hr : r1 * D2 <= r2 * D1) by nia.
  unfold loc_of. fold r1 r2.
  destruct (Z.eqb_spec r1 0) as [H10|H10];
    destruct (Z.eqb_spec r2 0) as [H20|H20];
    cbn [round_nearest_even]; try lia;
    try (destruct (Z.compare_spec (2 * r1) D1));
    try (destruct (Z.compare_spec (2 * r2) D2));
    try destruct (Z.even t); try lia; nia.
Qed.

Lemma rnd_facts N D :
  0 <= N -> 0 < D ->
  let f := fx (Zdigits2 (N / D) + E0) in
  let t := N / (D * 2 ^ (f - E0)) in
  let m := round_nearest_even t (loc_of N (D * 2 ^ (f - E0))) in
  ordZ (rnd N D) = Z.min (m * 2 ^ (f + 149)) INF /\ canon (rnd N D) /\
  -149 <= f /\ 0 <= t < 2 ^ 24 /\ (f = -149 \/ 2 ^ 23 <= t) /\ t <= m <= t + 1.
Proof.
  intros HN HD f t m.
  assert (Hf : -149 <= f) by (subst f; rewrite fx_eq; lia).
  assert (He : E0 <= fx (Zdigits2 (N / D) + E0)) by (fold f; unfold E0; lia).
  pose proof (truncated_mantissa N D E0 HD HN He) as [Ht Hnorm].
  fold f in Ht, Hnorm. fold t in Ht, Hnorm.
  pose proof (RNE_bounds t (loc_of N (D * 2 ^ (f - E0)))) as Hm. fold m in Hm.
  destruct (ordZ_round_nf m f Hf ltac:(lia) ltac:(lia)) as [Ho Hc].
  unfold rnd. fold f. fold t. fold m. repeat split; try assumption; lia.
Qed.

(** The rounded value is monotone in the exact value. *)
Lemma rnd_mono N1 D1 N2 D2 :
  0 <= N1 -> 0 < D1 -> 0 < D2 -> N1 * D2 <= N2 * D1 ->
  ordZ (rnd N1 D1) <= ordZ (rnd N2 D2).
Proof.
  intros HN1 HD1 HD2 H.
  assert (HN2 : 0 <= N2) by nia.
  destruct (rnd_facts N1 D1 HN1 HD1) as (Ho1 & _ & Hf1 & Ht1 & Hn1 & Hm1).
  destruct (rnd_facts N2 D2 HN2 HD2) as (Ho2 & _ & Hf2 & Ht2 & Hn2 & Hm2).
  rewrite Ho1, Ho2. clear Ho1 Ho2.
  pose proof (div_le_cross N1 D1 N2 D2 HD1 HD2 HN1 H) as Hq.
  assert (Hq1 : 0 <= N1 / D1) by (apply Z.div_pos; lia).
  pose proof (Zdigits2_le (N1 / D1) (N2 / D2) ltac:(lia)) as Hd.
  set (f1 := fx (Zdigits2 (N1 / D1) + E0)) in *.
  set (f2 := fx (Zdigits2 (N2 / D2) + E0)) in *.
  assert (Hf : f1 <= f2) by (subst f1 f2; rewrite !fx_eq; lia).
  apply Z.min_le_compat_r.
  destruct (Z.eq_dec f1 f2) as [Heq|Hne].
  - rewrite <- Heq in *.
    pose proof (pow2_pos (f1 - E0) ltac:(unfold E0; lia)) as Hp.
    pose proof (pow2_pos (f1 + 149) ltac:(lia)) as Hp'.
    apply Z.mul_le_mono_nonneg_r; [lia|].
    apply RNE_mono; try nia.
  - assert (Hlt : f1 < f2) by lia.
    destruct Hn2 as [|H23]; [lia|].
    set (m1 := round_nearest_even _ _) in *.
    set (m2 := round_nearest_even _ _) in Hm2 |- *.
    replace (f2 + 149) with ((f2 - f1 - 1) + (1 + (f1 + 149))) by lia.
    rewrite (pow2_split (f2 - f1 - 1) (1 + (f1 + 149))) by lia.
    rewrite (pow2_split 1 (f1 + 149)) by lia. change (2 ^ 1) with 2.
    pose proof (pow2_pos (f2 - f1 - 1) ltac:(lia)) as HP.
    pose proof (pow2_pos (f1 + 149) ltac:(lia)) as HQ.
    set (P := 2 ^ (f2 - f1 - 1)) in *. set (Q := 2 ^ (f1 + 149)) in *.
    change (2 ^ 24) with (2 * 2 ^ 23) in *. set (T := 2 ^ 23) in *.
    assert (m1 * Q <= 2 * T * Q) by (apply Z.mul_le_mono_nonneg_r; lia).
    assert (T * (2 * Q) <= m2 * (2 * Q)) by (apply Z.mul_le_mono_nonneg_r; lia).
    assert (m2 * (2 * Q) * 1 <= m2 * (2 * Q) * P) by (apply Z.mul_le_mono_nonneg_l; lia).
    lia.
Qed.

(** ** Multiplication and division *)

Lemma loc_of_1 A : loc_of A 1 = loc_Exact.
Proof. unfold loc_of. now rewrite Z.mod_1_r. Qed.

Lemma round_aux_exact A e :
  0 <= A -> E0 <= e -> e <= fx (Zdigits2 A + e) ->
  binary_round_aux 24 128 false A e loc_Exact = rnd (A * 2 ^ (e - E0)) 1.
Proof.
  intros HA He0 He. pose proof (round_aux_rnd A 1 e ltac:(lia) HA He0) as H.
  rewrite Z.div_1_r, loc_of_1 in H. now apply H.
Qed.

Lemma SFmul_rnd mx ex my ey :
  bounded 24 128 mx ex = true -> bounded 24 128 my ey = true ->
  SFmul 24 128 (S754_finite false mx ex) (S754_finite false my ey)
  = rnd (Zpos mx * Zpos my * 2 ^ (ex + ey - E0)) 1.
Proof.
  intros Hx Hy. cbn [SFmul xorb]. rewrite Pos2Z.inj_mul.
  apply bounded_spec in Hx as (Hex & Hdx & Hnx).
  apply bounded_spec in Hy as (Hey & Hdy & Hny).
  pose proof (Zdigits2_bounds (Zpos mx) ltac:(lia)) as [Hxl _].
  pose proof (Zdigits2_bounds (Zpos my) ltac:(lia)) as [Hyl _].
  pose proof (Zdigits2_pos (Zpos mx) ltac:(lia)) as Hpx.
  pose proof (Zdigits2_pos (Zpos my) ltac:(lia)) as Hpy.
  set (dx := Zdigits2 (Zpos mx)) in *. set (dy := Zdigits2 (Zpos my)) in *.
  apply round_aux_exact; [lia | unfold E0; lia |].
  assert (Hd : dx + dy - 1 <= Zdigits2 (Zpos mx * Zpos my)).
  { replace (dx + dy - 1) with ((dx - 1) + (dy - 1) + 1) by lia.
    apply Zdigits2_ge_pow; [lia|]. rewrite pow2_split by lia.
    apply Z.mul_le_mono_nonneg; try lia; apply Z.lt_le_incl, pow2_pos; lia. }
  rewrite fx_eq. lia.
Qed.

Lemma new_location_loc_of A B :
  0 < B -> new_location B (A mod B) = loc_of A B.
Proof.
  intros HB. unfold new_location, new_location_even, new_location_odd, loc_of.
  pose proof (Z.mod_pos_bound A B HB) as Hr. set (r := A mod B) in *.
  destruct (Z.even B) eqn:Hev; [reflexivity|].
  destruct (Z.eqb_spec r 0); [reflexivity|]. f_equal.
  assert (Hodd : Z.odd B = true) by (rewrite <- Z.negb_even, Hev; reflexivity).
  apply Z.odd_spec in Hodd as [k Hk].
  destruct (Z.compare_spec (2 * r + 1) B); symmetry;
    [apply Z.compare_lt_iff | apply Z.compare_lt_iff | apply Z.compare_gt_iff]; lia.
Qed.

Lemma SFdiv_core_spec mx ex my ey :
  let e' := Z.min (fx (Zdigits2 (Zpos mx) + ex - (Zdigits2 (Zpos my) + ey))) (ex - ey) in
  let A := Zpos mx * 2 ^ (ex - ey - e') in
  SFdiv_core_binary 24 128 (Zpos mx) ex (Zpos my) ey
  = (A / Zpos my, e', loc_of A (Zpos my)).
Proof.
  intros e' A. unfold SFdiv_core_binary.
  fold (fx (Zdigits2 (Zpos mx) + ex - (Zdigits2 (Zpos my) + ey))). fold e'.
  assert (Hs : 0 <= ex - ey - e') by (subst e'; lia).
  assert (Hm : match ex - ey - e' with
               | Zpos _ => Z.shiftl (Zpos mx) (ex - ey - e')
               | 0 => Zpos mx
               | Zneg _ => 0
               end = A).
  { subst A. destruct (ex - ey - e') as [|p|p] eqn:E; [| |lia].
    - change (2 ^ 0) with 1. lia.
    - now rewrite Z.shiftl_mul_pow2 by lia. }
  rewrite Hm.
  destruct (Z.div_eucl A (Zpos my)) as [q r] eqn:E.
  assert (Hq : q = A / Zpos my) by (unfold Z.div; now rewrite E).
  assert (Hr : r = A mod Zpos my) by (unfold Z.modulo; now rewrite E).
  subst q r. now rewrite new_location_loc_of by lia.
Qed.

Lemma SFdiv_rnd mx ex my ey :
  bounded 24 128 mx ex = true -> bounded 24 128 my ey = true ->
  SFdiv 24 128 (S754_finite false mx ex) (S754_finite false my ey)
  = rnd (Zpos mx * 2 ^ (ex - ey - E0)) (Zpos my).
Proof.
  intros Hx Hy. cbn [SFdiv xorb]. rewrite SFdiv_core_spec. cbv zeta.
  apply bounded_spec in Hx as (Hex & Hdx & Hnx).
  apply bounded_spec in Hy as (Hey & Hdy & Hny).
  pose proof (Zdigits2_bounds (Zpos mx) ltac:(lia)) as [Hxl _].
  pose proof (Zdigits2_bounds (Zpos my) ltac:(lia)) as [_ Hyh].
  pose proof (Zdigits2_pos (Zpos mx) ltac:(lia)) as Hpx.
  pose proof (Zdigits2_pos (Zpos my) ltac:(lia)) as Hpy.
  set (dx := Zdigits2 (Zpos mx)) in *. set (dy := Zdigits2 (Zpos my)) in *.
  set (e' := Z.min (fx (dx + ex - (dy + ey))) (ex - ey)).
  assert (He' : -253 <= e') by (subst e'; rewrite fx_eq; lia).
  set (s := ex - ey - e'). assert (Hs : 0 <= s) by (subst s e'; lia).
  pose proof (pow2_pos s Hs) as Hps.
  rewrite round_aux_rnd.
  - f_equal. rewrite <- Z.mul_assoc, <- pow2_split by (unfold E0; lia).
    f_equal. f_equal. subst s. lia.
  - lia.
  - nia.
  - unfold E0. lia.
  - (* enough digits in the quotient *)
    assert (Hd : dx + s - dy <= Zdigits2 (Zpos mx * 2 ^ s / Zpos my)).
    { assert (Hq : 0 <= Zpos mx * 2 ^ s / Zpos my) by (apply Z.div_pos; nia).
      pose proof (Zdigits2_nonneg _ Hq).
      destruct (Z.le_gt_cases (dx + s - dy) 0) as [|Hpos]; [lia|].
      replace (dx + s - dy) with ((dx + s - dy - 1) + 1) by lia.
      apply Zdigits2_ge_pow; [lia|].
      apply Z.div_le_lower_bound; [lia|].
      assert (Zpos my * 2 ^ (dx + s - dy - 1) <= 2 ^ dy * 2 ^ (dx + s - dy - 1)).
      { apply Z.mul_le_mono_nonneg_r; [apply Z.lt_le_incl, pow2_pos; lia | lia]. }
      rewrite <- pow2_split in H0 by lia.
      replace (dy + (dx + s - dy - 1)) with ((dx - 1) + s) in H0 by lia.
      rewrite pow2_split in H0 by lia.
      assert (2 ^ (dx - 1) * 2 ^ s <= Zpos mx * 2 ^ s)
        by (apply Z.mul_le_mono_nonneg_r; lia).
      lia. }
    fold s. rewrite fx_eq.
    assert (He'' : e' = Z.min (Z.max (dx + ex - (dy + ey) - 24) (-149)) (ex - ey))
      by (subst e'; now rewrite fx_eq).
    assert (Hs' : s = ex - ey - e') by reflexivity.
    clearbody s e'. lia.
Qed.

(** ** Monotonicity of the operations *)

Lemma canon_rnd N D : 0 <= N -> 0 < D -> canon (rnd N D).
Proof. intros HN HD. now destruct (rnd_facts N D HN HD) as (_ & H & _). Qed.

Lemma scale_le a1 e1 a2 e2 k :
  0 <= a1 -> -149 <= e1 -> -149 <= e2 -> 149 <= k ->
  a1 * 2 ^ (e1 + 149) <= a2 * 2 ^ (e2 + 149) ->
  a1 * 2 ^ (e1 + k) <= a2 * 2 ^ (e2 + k).
Proof.
  intros Ha H1 H2 Hk H.
  replace (e1 + k) with ((e1 + 149) + (k - 149)) by lia.
  replace (e2 + k) with ((e2 + 149) + (k - 149)) by lia.
  rewrite (pow2_split (e1 + 149) (k - 149)), (pow2_split (e2 + 149) (k - 149)) by lia.
  rewrite !Z.mul_assoc.
  apply Z.mul_le_mono_nonneg_r; [apply Z.lt_le_incl, pow2_pos; lia | exact H].
Qed.

(** [x / c] grows with [x]. *)
Lemma SFdiv_mono_l c x1 x2 :
  is_finite_pos c -> canon x1 -> canon x2 -> ordZ x1 <= ordZ x2 ->
  ordZ (SFdiv 24 128 x1 c) <= ordZ (SFdiv 24 128 x2 c) /\
  canon (SFdiv 24 128 x1 c) /\ canon (SFdiv 24 128 x2 c).
Proof.
  intros Hc H1 H2 Hle.
  destruct c as [| | |[] mc ec]; cbn [is_finite_pos] in Hc; try tauto.
  pose proof (proj1 (bounded_spec mc ec) Hc) as (Hec & _).
  assert (HI : 0 < INF) by (unfold INF; apply pow2_pos; lia).
  assert (Hfin : forall m e, bounded 24 128 m e = true ->
            SFdiv 24 128 (S754_finite false m e) (S754_finite false mc ec)
            = rnd (Zpos m * 2 ^ (e - ec - E0)) (Zpos mc) /\
            canon (rnd (Zpos m * 2 ^ (e - ec - E0)) (Zpos mc))).
  { intros m e Hb. split; [now apply SFdiv_rnd|].
    pose proof (proj1 (bounded_spec m e) Hb) as (He & _).
    apply canon_rnd; [|lia].
    pose proof (pow2_pos (e - ec - E0) ltac:(unfold E0; lia)). nia. }
  destruct x1 as [[]|[]| |[] m1 e1]; cbn [canon] in H1; try tauto;
  destruct x2 as [[]|[]| |[] m2 e2]; cbn [canon] in H2; try tauto;
    try (pose proof (ordZ_finite_lt_INF _ _ H1));
    try (pose proof (ordZ_finite_lt_INF _ _ H2));
    try (exfalso; cbn [ordZ] in *; lia);
    try (destruct (Hfin _ _ H1) as [E1 C1]; rewrite E1);
    try (destruct (Hfin _ _ H2) as [E2 C2]; rewrite E2);
    cbn [SFdiv xorb ordZ canon];
    repeat split; try assumption; try exact I; try lia;
    try (match goal with |- context [ordZ ?x] => pose proof (ordZ_canon_range x ltac:(assumption)) end; lia).
  pose proof (proj1 (bounded_spec m1 e1) H1) as (He1 & _).
  pose proof (proj1 (bounded_spec m2 e2) H2) as (He2 & _).
  apply rnd_mono; [ | lia | lia | ].
  - pose proof (pow2_pos (e1 - ec - E0) ltac:(unfold E0; lia)). nia.
  - apply Z.mul_le_mono_nonneg_r; [lia|].
    replace (e1 - ec - E0) with (e1 + (- ec - E0)) by lia.
    replace (e2 - ec - E0) with (e2 + (- ec - E0)) by lia.
    apply scale_le; try lia; unfold E0; try lia. exact Hle.
Qed.

(** [x * c] grows with [x]. *)
Lemma SFmul_mono_l c x1 x2 :
  is_finite_pos c -> canon x1 -> canon x2 -> ordZ x1 <= ordZ x2 ->
  ordZ (SFmul 24 128 x1 c) <= ordZ (SFmul 24 128 x2 c) /\
  canon (SFmul 24 128 x1 c) /\ canon (SFmul 24 128 x2 c).
Proof.
  intros Hc H1 H2 Hle.
  destruct c as [| | |[] mc ec]; cbn [is_finite_pos] in Hc; try tauto.
  pose proof (proj1 (bounded_spec mc ec) Hc) as (Hec & _).
  assert (HI : 0 < INF) by (unfold INF; apply pow2_pos; lia).
  assert (Hfin : forall m e, bounded 24 128 m e = true ->
            SFmul 24 128 (S754_finite false m e) (S754_finite false mc ec)
            = rnd (Zpos m * Zpos mc * 2 ^ (e + ec - E0)) 1 /\
            canon (rnd (Zpos m * Zpos mc * 2 ^ (e + ec - E0)) 1)).
  { intros m e Hb. split; [now apply SFmul_rnd|].
    pose proof (proj1 (bounded_spec m e) Hb) as (He & _).
    apply canon_rnd; [|lia].
    pose proof (pow2_pos (e + ec - E0) ltac:(unfold E0; lia)). nia. }
  destruct x1 as [[]|[]| |[] m1 e1]; cbn [canon] in H1; try tauto;
  destruct x2 as [[]|[]| |[] m2 e2]; cbn [canon] in H2; try tauto;
    try (pose proof (ordZ_finite_lt_INF _ _ H1));
    try (pose proof (ordZ_finite_lt_INF _ _ H2));
    try (exfalso; cbn [ordZ] in *; lia);
    try (destruct (Hfin _ _ H1) as [E1 C1]; rewrite E1);
    try (destruct (Hfin _ _ H2) as [E2 C2]; rewrite E2);
    cbn [SFmul xorb ordZ canon];
    repeat split; try assumption; try exact I; try lia;
    try (match goal with |- context [ordZ ?x] => pose proof (ordZ_canon_range x ltac:(assumption)) end; lia).
  pose proof (proj1 (bounded_spec m1 e1) H1) as (He1 & _).
  pose proof (proj1 (bounded_spec m2 e2) H2) as (He2 & _).
  apply rnd_mono; [ | lia | lia | ].
  - pose proof (pow2_pos (e1 + ec - E0) ltac:(unfold E0; lia)). nia.
  - rewrite !Z.mul_1_r.
    replace (Zpos m1 * Zpos mc * 2 ^ (e1 + ec - E0))
      with (Zpos m1 * 2 ^ (e1 + ec - E0) * Zpos mc) by ring.
    replace (Zpos m2 * Zpos mc * 2 ^ (e2 + ec - E0))
      with (Zpos m2 * 2 ^ (e2 + ec - E0) * Zpos mc) by ring.
    apply Z.mul_le_mono_nonneg_r; [lia|].
    replace (e1 + ec - E0) with (e1 + (ec - E0)) by lia.
    replace (e2 + ec - E0) with (e2 + (ec - E0)) by lia.
    apply scale_le; try lia; unfold E0; try lia. exact Hle.
Qed.

(** [c / y] shrinks as [y] grows. *)
Lemma SFdiv_anti_r c y1 y2 :
  is_finite_pos c -> canon y1 -> canon y2 -> ordZ y1 <= ordZ y2 ->
  ordZ (SFdiv 24 128 c y2) <= ordZ (SFdiv 24 128 c y1) /\
  canon (SFdiv 24 128 c y1) /\ canon (SFdiv 24 128 c y2).
Proof.
  intros Hc H1 H2 Hle.
  destruct c as [| | |[] mc ec]; cbn [is_finite_pos] in Hc; try tauto.
  pose proof (proj1 (bounded_spec mc ec) Hc) as (Hec & _).
  assert (HI : 0 < INF) by (unfold INF; apply pow2_pos; lia).
  assert (Hfin : forall m e, bounded 24 128 m e = true ->
            SFdiv 24 128 (S754_finite false mc ec) (S754_finite false m e)
            = rnd (Zpos mc * 2 ^ (ec - e - E0)) (Zpos m) /\
            canon (rnd (Zpos mc * 2 ^ (ec - e - E0)) (Zpos m))).
  { intros m e Hb. split; [now apply SFdiv_rnd|].
    pose proof (proj1 (bounded_spec m e) Hb) as (He & _).
    apply canon_rnd; [|lia].
    pose proof (pow2_pos (ec - e - E0) ltac:(unfold E0; lia)). nia. }
  destruct y1 as [[]|[]| |[] m1 e1]; cbn [canon] in H1; try tauto;
  destruct y2 as [[]|[]| |[] m2 e2]; cbn [canon] in H2; try tauto;
    try (pose proof (ordZ_finite_lt_INF _ _ H1));
    try (pose proof (ordZ_finite_lt_INF _ _ H2));
    try (exfalso; cbn [ordZ] in *; lia);
    try (destruct (Hfin _ _ H1) as [E1 C1]; rewrite E1);
    try (destruct (Hfin _ _ H2) as [E2 C2]; rewrite E2);
    cbn [SFdiv xorb ordZ canon];
    repeat split; try assumption; try exact I; try lia;
    try (match goal with |- context [ordZ ?x] => pose proof (ordZ_canon_range x ltac:(assumption)) end; lia).
  pose proof (proj1 (bounded_spec m1 e1) H1) as (He1 & _).
  pose proof (proj1 (bounded_spec m2 e2) H2) as (He2 & _).
  cbn [ordZ] in Hle.
  apply rnd_mono; [ | lia | lia | ].
  - pose proof (pow2_pos (ec - e2 - E0) ltac:(unfold E0; lia)). nia.
  - pose proof (pow2_pos (e1 + 149) ltac:(lia)) as Ha1.
    pose proof (pow2_pos (e2 + 149) ltac:(lia)) as Ha2.
    pose proof (pow2_pos (ec - e1 - E0) ltac:(unfold E0; lia)) as HP1.
    pose proof (pow2_pos (ec - e2 - E0) ltac:(unfold E0; lia)) as HP2.
    assert (HT1 : 2 ^ (ec - e1 - E0) * 2 ^ (e1 + 149) = 2 ^ (ec - E0 + 149)).
    { rewrite <- pow2_split by (unfold E0; lia). f_equal. lia. }
    assert (HT2 : 2 ^ (ec - e2 - E0) * 2 ^ (e2 + 149) = 2 ^ (ec - E0 + 149)).
    { rewrite <- pow2_split by (unfold E0; lia). f_equal. lia. }
    pose proof (pow2_pos (ec - E0 + 149) ltac:(unfold E0; lia)) as HT.
    set (a1 := 2 ^ (e1 + 149)) in *. set (a2 := 2 ^ (e2 + 149)) in *.
    set (P1 := 2 ^ (ec - e1 - E0)) in *. set (P2 := 2 ^ (ec - e2 - E0)) in *.
    set (T := 2 ^ (ec - E0 + 149)) in *.
    apply Z.mul_le_mono_pos_r with (p := a1 * a2); [nia|].
    replace (Zpos mc * P2 * Zpos m1 * (a1 * a2))
      with (Zpos mc * (P2 * a2) * (Zpos m1 * a1)) by ring.
    replace (Zpos mc * P1 * Zpos m2 * (a1 * a2))
      with (Zpos mc * (P1 * a1) * (Zpos m2 * a2)) by ring.
    rewrite HT1, HT2. apply Z.mul_le_mono_nonneg_l; [nia|exact Hle].
Qed.


(** ** The interval as a function of the RPM *)

Lemma finite_60 : is_finite_pos (F32.of_Z 60).
Proof. reflexivity. Qed.

Lemma finite_steps_per_rev : is_finite_pos EFFECTIVE_STEPS_PER_REV.
Proof. reflexivity. Qed.

Lemma finite_1 : is_finite_pos (F32.of_Z 1).
Proof. reflexivity. Qed.

Lemma finite_1e6 : is_finite_pos (F32.of_Z 1000000).
Proof. reflexivity. Qed.

(** The interval never grows with the RPM. *)
Lemma interval_of_antitone r1 r2 :
  canon r1 -> canon r2 -> ordZ r1 <= ordZ r2 ->
  ordZ (interval_of r2) <= ordZ (interval_of r1) /\
  canon (interval_of r1) /\ canon (interval_of r2).
Proof.
  intros H1 H2 Hle. unfold interval_of, stepsPerSec, F32.mul, F32.div.
  change F32.prec with 24. change F32.emax with 128.
  destruct (SFdiv_mono_l _ r1 r2 finite_60 H1 H2 Hle) as (Ha & Ca1 & Ca2).
  destruct (SFmul_mono_l _ _ _ finite_steps_per_rev Ca1 Ca2 Ha) as (Hs & Cs1 & Cs2).
  destruct (SFdiv_anti_r _ _ _ finite_1 Cs1 Cs2 Hs) as (Hi & Ci1 & Ci2).
  destruct (SFmul_mono_l _ _ _ finite_1e6 Ci2 Ci1 Hi) as (Hr & Cr2 & Cr1).
  repeat split; assumption.
Qed.

Lemma le_ordZ x y : canon x -> canon y -> (F32.le x y <-> ordZ x <= ordZ y).
Proof.
  intros Hx Hy. unfold F32.le. rewrite (SFcompare_ordZ x y Hx Hy).
  destruct (Z.compare_spec (ordZ x) (ordZ y)); split; intros H'; try lia;
    try (now left); try (now right); destruct H' as [H'|H']; discriminate.
Qed.

Lemma lt_ordZ x y : canon x -> canon y -> (F32.lt x y <-> ordZ x < ordZ y).
Proof.
  intros Hx Hy. unfold F32.lt. rewrite (SFcompare_ordZ x y Hx Hy).
  destruct (Z.compare_spec (ordZ x) (ordZ y)); split; intros H'; try lia;
    try reflexivity; discriminate.
Qed.

(** A binary32 value within 0 < |r| <= 3000 is a finite float, and the
    [abs] macro returns its magnitude. *)
Lemma abs_of_valid_rpm r :
  F32.valid r = true -> valid_rpm r ->
  abs r = SFabs r /\ is_finite_pos (SFabs r) /\ ordZ (SFabs r) <= ordZ (F32.of_Z 3000).
Proof.
  intros Hv [Hpos Hle].
  destruct r as [s|s| |s m e].
  - discriminate.
  - destruct Hle as [H|H]; discriminate.
  - discriminate.
  - assert (Hfin : is_finite_pos (SFabs (S754_finite s m e))) by exact Hv.
    split; [destruct s; reflexivity|]. split; [exact Hfin|].
    apply le_ordZ; [exact Hfin | reflexivity | exact Hle].
Qed.

Lemma finite_pos_canon x : is_finite_pos x -> canon x.
Proof. destruct x as [| | |[] m e]; cbn; tauto. Qed.

(** ** The step interval *)

Lemma interval_table_checked : interval_rows_ok 3000 1 = true.
Proof. vm_compute. reflexivity. Qed.

Lemma same_finite_eq x y :
  same_finite x y = true -> x = y /\ exists m e, y = S754_finite false m e.
Proof.
  destruct x as [| | |[] m e], y as [| | |[] m' e']; try discriminate. cbn.
  intros H. apply andb_true_iff in H as [Hm He].
  apply Pos.eqb_eq in Hm as ->. apply Z.eqb_eq in He as ->. eauto.
Qed.

Lemma interval_rows_ok_each count :
  forall start, interval_rows_ok count start = true ->
  forall n, start <= n < start + Z.of_nat count -> interval_row_ok n = true.
Proof.
  induction count as [|c IH]; intros start H n Hn; [lia|].
  cbn [interval_rows_ok] in H. apply andb_true_iff in H as [H1 H2].
  destruct (Z.eq_dec n start) as [->|Hne]; [exact H1|].
  apply (IH (start + 1) H2). lia.
Qed.

Lemma interval_row n :
  1 <= n <= 3000 ->
  interval_at (- n) = interval_at n /\
  (exists m e, interval_at n = S754_finite false m e) /\
  (n < 3000 -> F32.lt (interval_at (n + 1)) (interval_at n)).
Proof.
  intros Hn.
  assert (H : interval_row_ok n = true).
  { apply (interval_rows_ok_each 3000 1 interval_table_checked). lia. }
  unfold interval_row_ok in H.
  apply andb_true_iff in H as [H1 H2].
  apply same_finite_eq in H1 as [H1 H3]. split; [exact H1|]. split; [exact H3|].
  intros Hlt. apply orb_true_iff in H2 as [H2|H2].
  - apply Z.leb_le in H2. lia.
  - unfold F32.lt. unfold SFltb in H2.
    destruct (SFcompare (interval_at (n + 1)) (interval_at n)) as [[]|]; try discriminate.
    reflexivity.
Qed.

(** The order of positive finite floats is transitive. *)
Lemma lt_finite_trans m1 e1 m2 e2 m3 e3 :
  F32.lt (S754_finite false m1 e1) (S754_finite false m2 e2) ->
  F32.lt (S754_finite false m2 e2) (S754_finite false m3 e3) ->
  F32.lt (S754_finite false m1 e1) (S754_finite false m3 e3).
Proof.
  unfold F32.lt. cbn [SFcompare].
  change (Pos.compare_cont Eq) with Pos.compare.
  destruct (Z.compare_spec e1 e2), (Z.compare_spec e2 e3), (Z.compare_spec e1 e3);
    intros G1 G2; try lia; try discriminate; try reflexivity.
  injection G1 as G1. injection G2 as G2.
  f_equal. exact (Pos.lt_trans _ _ _ G1 G2).
Qed.

Lemma interval_at_decreasing a k :
  1 <= a -> a + 1 + Z.of_nat k <= 3000 ->
  F32.lt (interval_at (a + 1 + Z.of_nat k)) (interval_at a).
Proof.
  intros Ha. induction k as [|k IH]; intros Hb.
  - replace (a + 1 + Z.of_nat 0) with (a + 1) by lia.
    apply interval_row; lia.
  - replace (a + 1 + Z.of_nat (S k)) with ((a + 1 + Z.of_nat k) + 1) by lia.
    specialize (IH ltac:(lia)).
    destruct (interval_row (a + 1 + Z.of_nat k) ltac:(lia)) as (_ & (m2 & e2 & H2) & Hstep).
    specialize (Hstep ltac:(lia)).
    destruct (interval_row a ltac:(lia)) as (_ & (m3 & e3 & H3) & _).
    destruct (interval_row (a + 1 + Z.of_nat k + 1) ltac:(lia)) as (_ & (m1 & e1 & H1) & _).
    rewrite H1, H2, H3 in *. eapply lt_finite_trans; eauto.
Qed.

Lemma interval_at_abs z : 0 < Z.abs z <= 3000 -> interval_at z = interval_at (Z.abs z).
Proof.
  intros Hz. destruct (Z.abs_spec z) as [[H ->]|[H Habs]]; [reflexivity|].
  rewrite Habs. replace z with (- - z) at 1 by lia. apply interval_row. lia.
Qed.

(** C7, as the code has it.  For every binary32 RPM [r] with
    0 < |r| <= 3000 the stored interval is strictly positive (it is
    +infinity for extremely small |r|) and it never increases as |r|
    increases; from one whole-number RPM to a larger one it strictly
    decreases. *)
Theorem C7_interval_positive_and_monotone :
  (forall r1 r2 : float32,
      F32.valid r1 = true -> F32.valid r2 = true ->
      valid_rpm r1 -> valid_rpm r2 ->
      F32.lt F32.zero (interval_of (abs r1)) /\
      (F32.le (SFabs r1) (SFabs r2) ->
       F32.le (interval_of (abs r2)) (interval_of (abs r1)))) /\
  (forall a b : Z,
      0 < Z.abs a <= 3000 -> 0 < Z.abs b <= 3000 -> Z.abs a < Z.abs b ->
      F32.lt (interval_at b) (interval_at a)).
Proof.
  split.
  - intros r1 r2 Hv1 Hv2 Hr1 Hr2.
    destruct (abs_of_valid_rpm r1 Hv1 Hr1) as (-> & Hf1 & Hle1).
    destruct (abs_of_valid_rpm r2 Hv2 Hr2) as (-> & Hf2 & Hle2).
    pose proof (finite_pos_canon _ Hf1) as C1.
    pose proof (finite_pos_canon _ Hf2) as C2.
    assert (C3000 : canon (F32.of_Z 3000)) by reflexivity.
    split.
    + destruct (interval_of_antitone _ _ C1 C3000 Hle1) as (H & Ci & _).
      apply lt_ordZ; [exact I | exact Ci |].
      assert (0 < ordZ (interval_of (F32.of_Z 3000))) by (vm_compute; reflexivity).
      cbn [ordZ F32.zero]. lia.
    + intros Hle. apply le_ordZ in Hle; [|assumption|assumption].
      destruct (interval_of_antitone _ _ C1 C2 Hle) as (H & Ci1 & Ci2).
      apply le_ordZ; assumption.
  - intros a b Ha Hb Hlt.
    rewrite (interval_at_abs a Ha), (interval_at_abs b Hb).
    replace (Z.abs b) with (Z.abs a + 1 + Z.of_nat (Z.to_nat (Z.abs b - Z.abs a - 1))) by lia.
    apply interval_at_decreasing; lia.
Qed.

Lemma C7_interval_witness :
  let r1 := toFloat "100.5" in
  let r2 := toFloat "100.50001" in
  (F32.valid r1 = true /\ F32.valid r2 = true /\ valid_rpm r1 /\ valid_rpm r2 /\
   F32.le (SFabs r1) (SFabs r2)) /\
  F32.lt F32.zero (interval_of (abs r1)) /\
  F32.le (interval_of (abs r2)) (interval_of (abs r1)) /\
  F32.lt (interval_at (-3000)) (interval_at 50).
Proof.
  cbv zeta.
  assert (Hv1 : F32.valid (toFloat "100.5") = true) by (vm_compute; reflexivity).
  assert (Hv2 : F32.valid (toFloat "100.50001") = true) by (vm_compute; reflexivity).
  assert (H1 : valid_rpm (toFloat "100.5"))
    by (split; [|left]; vm_compute; reflexivity).
  assert (H2 : valid_rpm (toFloat "100.50001"))
    by (split; [|left]; vm_compute; reflexivity).
  assert (H3 : F32.le (SFabs (toFloat "100.5")) (SFabs (toFloat "100.50001")))
    by (left; vm_compute; reflexivity).
  destruct C7_interval_positive_and_monotone as [Hfloat Hwhole].
  destruct (Hfloat _ _ Hv1 Hv2 H1 H2) as [Hpos Hmono].
  split; [repeat split; assumption|].
  split; [exact Hpos|]. split; [exact (Hmono H3)|].
  apply Hwhole; cbn; lia.
Defined.

(** The RPMs 100.5 and 100.50001 are distinct binary32 values, both
    within 0 < |r| <= 3000, and they get the same interval: rounding
    makes the interval constant over runs of neighbouring floats. *)
Lemma C7_two_rpms_share_an_interval :
  ~ (forall r1 r2 : float32,
        F32.valid r1 = true -> F32.valid r2 = true ->
        valid_rpm r1 -> valid_rpm r2 ->
        F32.lt (SFabs r1) (SFabs r2) ->
        F32.lt (interval_of (abs r2)) (interval_of (abs r1))).
Proof.
  intros H.
  specialize (H (toFloat "100.5") (toFloat "100.50001")).
  assert (Hv1 : F32.valid (toFloat "100.5") = true) by (vm_compute; reflexivity).
  assert (Hv2 : F32.valid (toFloat "100.50001") = true) by (vm_compute; reflexivity).
  assert (H1 : valid_rpm (toFloat "100.5"))
    by (split; [|left]; vm_compute; reflexivity).
  assert (H2 : valid_rpm (toFloat "100.50001"))
    by (split; [|left]; vm_compute; reflexivity).
  assert (H3 : F32.lt (SFabs (toFloat "100.5")) (SFabs (toFloat "100.50001")))
    by (vm_compute; reflexivity).
  specialize (H Hv1 Hv2 H1 H2 H3). vm_compute in H. discriminate.
Qed.

(** Below about 1e-33 RPM the interval overflows to +infinity, whatever
    the RPM. *)
Example interval_of_tiny_rpm :
  interval_of (abs (toFloat "1e-35")) = S754_infinity false /\
  interval_of (abs (toFloat "1e-36")) = S754_infinity false.
Proof. split; vm_compute; reflexivity. Qed.

(** 3000 RPM gives 6.25 microseconds, 50 RPM a little over 375. *)
Example interval_at_3000 : interval_at 3000 = S754_finite false 13107200 (-21).
Proof. vm_compute. reflexivity. Qed.

Example interval_at_50 : interval_at 50 = S754_finite false 12288001 (-15).
Proof. vm_compute. reflexivity. Qed.

(** * Further properties of the firmware *)

Import Vocabulary.

(** ** The line buffer *)

Lemma with_input_same b : with_input (inputString b) (stringComplete b) b = b.
Proof. destruct b; reflexivity. Qed.

Lemma string_app_cons c (s t : string) : (String c s ++ t)%string = String c (s ++ t).
Proof. reflexivity. Qed.

Lemma string_app_assoc (s t u : string) : ((s ++ t) ++ u = s ++ (t ++ u))%string.
Proof. induction s as [|c s IH]; [reflexivity|]. now rewrite !string_app_cons, IH. Qed.

Lemma string_app_nil_r (s : string) : (s ++ "" = s)%string.
Proof. induction s as [|c s IH]; [reflexivity|]. now rewrite string_app_cons, IH. Qed.

Lemma serialEvent_cons c bytes b :
  serialEvent (String c bytes) b = serialEvent bytes (receive_char b c).
Proof. reflexivity. Qed.

Lemma serialEvent_spec bytes b :
  serialEvent bytes b
  = with_input (inputString b ++ payload bytes)
               (stringComplete b || has_newline bytes) b.
Proof.
  revert b. induction bytes as [|c bytes IH]; intros b.
  - cbn [payload has_newline]. rewrite string_app_nil_r, orb_false_r.
    symmetry. apply with_input_same.
  - rewrite serialEvent_cons, IH. cbn [payload has_newline]. unfold receive_char.
    destruct (Ascii.eqb c "010") eqn:Hlf.
    + cbn [orb]. unfold with_input. cbn [inputString stringComplete pumps pinLevel pinWrites serialOut].
      now rewrite orb_true_r.
    + cbn [orb negb]. destruct (Ascii.eqb c "013") eqn:Hcr; cbn [negb].
      * reflexivity.
      * unfold with_input. cbn [inputString stringComplete pumps pinLevel pinWrites serialOut].
        now rewrite string_app_assoc.
Qed.

(** X1. [serialEvent] touches nothing but the line buffer and the
    completion flag.  Every received byte other than a line feed and a
    carriage return is appended to the buffer, those that follow a line
    feed in the same batch included; the flag is set when a line feed
    was received and is never cleared. *)
Theorem serialEvent_buffers_the_payload (bytes : string) (b : Board) :
  let b' := serialEvent bytes b in
  inputString b' = (inputString b ++ payload bytes)%string /\
  stringComplete b' = stringComplete b || has_newline bytes /\
  pumps b' = pumps b /\ pinLevel b' = pinLevel b /\
  pinWrites b' = pinWrites b /\ serialOut b' = serialOut b.
Proof. cbv zeta. rewrite serialEvent_spec. repeat split. Qed.

Lemma serialEvent_app s1 s2 b :
  serialEvent (s1 ++ s2) b = serialEvent s2 (serialEvent s1 b).
Proof.
  revert b. induction s1 as [|c s1 IH]; intros b; [reflexivity|].
  change (String c s1 ++ s2)%string with (String c (s1 ++ s2)).
  now rewrite !serialEvent_cons, IH.
Qed.

(** X2. How the received bytes are cut into batches makes no
    difference: one call of [serialEvent] on the whole sequence does
    what one call per batch does. *)
Theorem serialEvent_batches (batches : list string) (b : Board) :
  serialEvent (foldr String.append EmptyString batches) b
  = foldl (fun b bytes => serialEvent bytes b) b batches.
Proof.
  revert b. induction batches as [|s l IH]; intros b; [reflexivity|].
  cbn [foldr foldl]. now rewrite serialEvent_app, IH.
Qed.

Lemma stopPump_input i b :
  inputString (stopPump i b) = inputString b /\
  stringComplete (stopPump i b) = stringComplete b.
Proof.
  destruct (pumps b !! i) as [p|] eqn:Hp.
  - destruct (isRunning p) eqn:Hr.
    + rewrite (stopPump_running i b p Hp Hr). now split.
    + now rewrite (stopPump_idle i b p Hp Hr).
  - now rewrite (stopPump_absent i b Hp).
Qed.

Lemma updatePumps_input clk b :
  inputString (updatePumps clk b) = inputString b /\
  stringComplete (updatePumps clk b) = stringComplete b.
Proof.
  apply (Inv_updatePumps
           (fun b' => inputString b' = inputString b /\
                      stringComplete b' = stringComplete b)).
  - intros i b' [H1 H2]. destruct (stopPump_input i b') as [E1 E2].
    now rewrite E1, E2.
  - intros i p us b' [H1 H2] _ _. exact (conj H1 H2).
  - now split.
Qed.

(** X3. A command is run when, and only when, a line feed has
    arrived.  With no complete line pending before, the turn of [loop]
    that follows a batch of bytes with a line feed runs
    [processCommand] once, on everything buffered so far without the
    line feeds and carriage returns, empties the buffer and then runs
    the scheduler; after a batch without a line feed it runs the
    scheduler alone and the partial line stays in the buffer. *)
Theorem loop_runs_complete_lines (clk1 clk2 : Clock) (bytes : string) (b : Board) :
  stringComplete b = false ->
  let b1 := serialEvent bytes b in
  let line := (inputString b ++ payload bytes)%string in
  let b2 := loop clk1 clk2 b1 in
  stringComplete b2 = false /\
  if has_newline bytes then
    inputString b2 = EmptyString /\
    b2 = updatePumps clk2 (with_input EmptyString false (processCommand clk1 line b1))
  else
    inputString b2 = line /\ b2 = updatePumps clk2 b1.
Proof.
  intros Hc b1 line b2.
  assert (H1 : inputString b1 = line) by (unfold b1; now rewrite serialEvent_spec).
  assert (H2 : stringComplete b1 = has_newline bytes)
    by (unfold b1; rewrite serialEvent_spec; cbn [with_input stringComplete];
        now rewrite Hc).
  unfold b2, loop. rewrite H2, H1. clearbody b1 line.
  destruct (has_newline bytes).
  - match goal with |- context [updatePumps clk2 ?x] =>
      destruct (updatePumps_input clk2 x) as [E1 E2] end.
    rewrite E1, E2. repeat split.
  - destruct (updatePumps_input clk2 b1) as [E1 E2].
    rewrite E1, E2. repeat split; assumption.
Qed.

Lemma loop_runs_complete_lines_witness :
  let b := loop c0 c0 (serialEvent "STA" (setup power_on)) in
  inputString b = "STA"%string /\
  inputString (loop c0 c0 (serialEvent ("TUS" ++ newline) b)) = EmptyString /\
  loop c0 c0 (serialEvent ("TUS" ++ newline) b)
  = updatePumps c0 (with_input EmptyString false
                      (processCommand c0 "STATUS" (serialEvent ("TUS" ++ newline) b))).
Proof.
  cbv zeta.
  destruct (loop_runs_complete_lines c0 c0 "STA" (setup power_on) eq_refl)
    as (Hc & H1 & _).
  split; [exact H1|].
  destruct (loop_runs_complete_lines c0 c0 ("TUS" ++ newline)
              (loop c0 c0 (serialEvent "STA" (setup power_on))) Hc)
    as (_ & H2 & H3).
  split; [exact H2|]. rewrite H3. rewrite H1. reflexivity.
Defined.

(** ** The scheduler, channel by channel *)

Lemma updatePump_lookup ms us b i j :
  pumps (updatePump ms us b i) !! j
  = if decide (i = j) then tick ms us <$> pumps b !! j else pumps b !! j.
Proof.
  destruct (decide (i = j)) as [<-|Hij]; [|apply updatePump_other; exact Hij].
  unfold updatePump.
  destruct (pumps b !! i) as [p|] eqn:Hp; [|now rewrite Hp].
  assert (Hlt : (i < List.length (pumps b))%nat) by (eapply lookup_lt_Some; eauto).
  change (tick ms us <$> Some p) with (Some (tick ms us p)). unfold tick.
  destruct (negb (isRunning p)) eqn:Hr; [exact Hp|].
  destruct (negb (continuous p) && duration_expired ms p).
  - rewrite stopPump_lookup, decide_True by reflexivity. now rewrite Hp.
  - destruct (step_due us p); [|exact Hp].
    unfold pulse, seq_stmt, set_pump, with_pumps, digitalWrite, delayMicroseconds.
    cbn [pumps]. now rewrite list_lookup_insert_eq.
Qed.

Lemma updatePumps_lookup clk b j :
  pumps (updatePumps clk b) !! j
  = if decide (j < 4)%nat
    then tick (wrap_ulong (millis clk)) (wrap_ulong (micros clk)) <$> pumps b !! j
    else pumps b !! j.
Proof.
  unfold updatePumps. cbn [seq foldl]. rewrite !updatePump_lookup.
  destruct j as [|[|[|[|j]]]]; repeat case_decide; try lia; reflexivity.
Qed.

Lemma tick_cases ms us p :
  tick ms us p = p \/
  (isRunning p = true /\ (tick ms us p = stopped p \/ tick ms us p = pulsed p us)).
Proof.
  unfold tick. destruct (isRunning p); cbn [negb]; [|now left].
  destruct (negb (continuous p) && duration_expired ms p); [right; auto|].
  destruct (step_due us p); [right; auto | now left].
Qed.

(** X4. One pass of the scheduler changes nothing in a record but the
    running flag, which it can only clear, and the time stamp of the
    last step, which it can only set to the current reading of
    [micros()]: pins, name and configuration stay, and no channel is
    ever started by it. *)
Theorem scheduler_only_stops_or_stamps (clk : Clock) (b : Board) (i : nat) :
  match pumps (updatePumps clk b) !! i with
  | Some p' =>
      exists p, pumps b !! i = Some p /\
        identity_of p' = identity_of p /\
        configuration p' = configuration p /\
        (isRunning p' = true -> isRunning p = true) /\
        (lastStepTime p' = lastStepTime p \/
         (isRunning p = true /\ lastStepTime p' = wrap_ulong (micros clk)))
  | None => pumps b !! i = None
  end.
Proof.
  rewrite updatePumps_lookup.
  destruct (pumps b !! i) as [p|] eqn:Hp; [|now case_decide].
  assert (H : forall p', (p' = p \/ (isRunning p = true /\
                 (p' = stopped p \/ p' = pulsed p (wrap_ulong (micros clk))))) ->
              exists p0, Some p = Some p0 /\
                identity_of p' = identity_of p0 /\
                configuration p' = configuration p0 /\
                (isRunning p' = true -> isRunning p0 = true) /\
                (lastStepTime p' = lastStepTime p0 \/
                 (isRunning p0 = true /\ lastStepTime p' = wrap_ulong (micros clk)))).
  { intros p' [->|[Hr [->| ->]]]; exists p; repeat split; auto. }
  case_decide; cbn; [apply H, tick_cases | apply H; now left].
Qed.

(** X5. A running channel in continuous mode is still running after
    any pass of the scheduler, whatever the two clocks show. *)
Theorem continuous_channel_keeps_running (clk : Clock) (b : Board) (i : nat) (p : Pump) :
  pumps b !! i = Some p -> isRunning p = true -> continuous p = true ->
  exists p', pumps (updatePumps clk b) !! i = Some p' /\
             isRunning p' = true /\ continuous p' = true.
Proof.
  intros Hp Hr Hc. rewrite updatePumps_lookup, Hp.
  case_decide; cbn; [|now exists p].
  unfold tick. rewrite Hr, Hc. cbn [negb andb].
  destruct (step_due _ p); eexists; (split; [reflexivity|]); auto.
Qed.

Lemma continuous_channel_witness :
  let b := processCommand c0 "START,X,50,0,1" (setup power_on) in
  exists p', pumps (updatePumps (mkClock 4000000000 5) b) !! 0%nat = Some p' /\
             isRunning p' = true /\ continuous p' = true.
Proof.
  cbv zeta.
  eapply (continuous_channel_keeps_running (mkClock 4000000000 5) _ 0);
    vm_compute; reflexivity.
Defined.

Lemma updatePump_settled ms us b i :
  (forall p, pumps b !! i = Some p -> settled ms us p) ->
  updatePump ms us b i = b.
Proof.
  intros H. unfold updatePump. destruct (pumps b !! i) as [p|] eqn:Hp; [|reflexivity].
  destruct (H p eq_refl) as [Hr|[He Hd]]; [now rewrite Hr|].
  rewrite He, Hd. now destruct (negb (isRunning p)).
Qed.

Lemma tick_settled ms us p :
  (isRunning p = true -> F32.geb (F32.of_Z 0) (intervalMicros p) = false) ->
  settled ms us (tick ms us p).
Proof.
  intros Hpos. unfold tick.
  destruct (isRunning p) eqn:Hr; cbn [negb]; [|now left].
  destruct (negb (continuous p) && duration_expired ms p) eqn:He; [now left|].
  destruct (step_due us p) eqn:Hd; right.
  - split; [exact He|]. unfold step_due, pulsed. cbn [lastStepTime intervalMicros].
    rewrite Z.sub_diag. now apply Hpos.
  - now split.
Qed.

(** X6. A second pass of the scheduler at the same clock readings does
    nothing, as long as the interval of every running channel is above
    0 or not a number: after a pass nothing is left to do at that
    instant, so steps that were missed are not made up for. *)
Theorem scheduler_pass_is_idempotent (clk : Clock) (b : Board) :
  intervals_positive b ->
  updatePumps clk (updatePumps clk b) = updatePumps clk b.
Proof.
  intros Hpos.
  assert (H : forall j p', pumps (updatePumps clk b) !! j = Some p' -> (j < 4)%nat ->
                settled (wrap_ulong (millis clk)) (wrap_ulong (micros clk)) p').
  { intros j p'. rewrite updatePumps_lookup. intros Hp' Hj.
    rewrite decide_True in Hp' by exact Hj.
    destruct (pumps b !! j) as [p|] eqn:Hp; [|discriminate].
    injection Hp' as <-. apply tick_settled. intros Hr. exact (Hpos j p Hp Hr). }
  set (b2 := updatePumps clk b) in *.
  unfold updatePumps at 1. cbn [seq foldl].
  rewrite (updatePump_settled _ _ b2 0) by (intros p Hp; apply (H 0%nat p Hp); lia).
  rewrite (updatePump_settled _ _ b2 1) by (intros p Hp; apply (H 1%nat p Hp); lia).
  rewrite (updatePump_settled _ _ b2 2) by (intros p Hp; apply (H 2%nat p Hp); lia).
  apply (updatePump_settled _ _ b2 3). intros p Hp; apply (H 3%nat p Hp); lia.
Qed.

Lemma scheduler_pass_witness :
  let b := processCommand c0 "START,X,3000,10,0" (setup power_on) in
  let clk := mkClock 5 5000 in
  intervals_positive b /\
  pinWrites (updatePumps clk b) = pinWrites b ++ [(X_STEP_PIN, HIGH); (X_STEP_PIN, LOW)] /\
  updatePumps clk (updatePumps clk b) = updatePumps clk b.
Proof.
  cbv zeta.
  assert (Hpos : intervals_positive (processCommand c0 "START,X,3000,10,0" (setup power_on))).
  { intros i p Hp Hr.
    destruct i as [|[|[|[|i]]]]; vm_compute in Hp; try discriminate;
      injection Hp as <-; try discriminate; vm_compute; reflexivity. }
  split; [exact Hpos|]. split; [vm_compute; reflexivity|].
  apply (scheduler_pass_is_idempotent (mkClock 5 5000) _ Hpos).
Defined.

Lemma updatePump_idle ms us b i :
  (forall p, pumps b !! i = Some p -> isRunning p = false) ->
  updatePump ms us b i = b.
Proof. intros H. apply updatePump_settled. intros p Hp. left. exact (H p Hp). Qed.

Lemma updatePumps_idle clk b : all_idle b -> updatePumps clk b = b.
Proof.
  intros H. unfold updatePumps. cbn [seq foldl].
  rewrite (updatePump_idle _ _ b 0) by (intros p Hp; exact (H _ p Hp)).
  rewrite (updatePump_idle _ _ b 1) by (intros p Hp; exact (H _ p Hp)).
  rewrite (updatePump_idle _ _ b 2) by (intros p Hp; exact (H _ p Hp)).
  apply (updatePump_idle _ _ b 3). intros p Hp; exact (H _ p Hp).
Qed.

(** X7. With no channel running and no command pending, a turn of
    [loop] changes nothing at all: no pin is written and nothing is
    sent. *)
Theorem idle_loop_does_nothing (clk1 clk2 : Clock) (b : Board) :
  all_idle b -> stringComplete b = false -> loop clk1 clk2 b = b.
Proof.
  intros Hidle Hc. unfold loop. rewrite Hc. now apply updatePumps_idle.
Qed.

Lemma idle_loop_witness :
  let b := serialEvent "STAT" (setup power_on) in
  all_idle b /\ loop (mkClock 7 7000) (mkClock 8 8000) b = b.
Proof.
  cbv zeta.
  assert (H : all_idle (serialEvent "STAT" (setup power_on))).
  { intros i p Hp.
    destruct i as [|[|[|[|i]]]]; vm_compute in Hp; try discriminate;
      injection Hp as <-; reflexivity. }
  split; [exact H|].
  apply (idle_loop_does_nothing (mkClock 7 7000) (mkClock 8 8000) _ H). reflexivity.
Defined.

Lemma wrap_ulong_elapsed s t :
  0 <= t < 4294967296 -> wrap_ulong (wrap_ulong (s + t) - wrap_ulong s) = t.
Proof.
  intros Ht. unfold wrap_ulong.
  rewrite <- Zminus_mod. replace (s + t - s) with t by lia.
  now apply Z.mod_small.
Qed.

(** X8. The auto-stop measures the time that has really passed, also
    when [millis()] has overflowed in between.  A running channel that
    is not continuous, with a duration of at most 32 seconds, started
    when the clock showed [s]: the pass of the scheduler [t]
    milliseconds later (less than 2^32) stops it when [t] has reached
    duration * 1000, and leaves it running before. *)
Theorem auto_stop_after_duration
        (b : Board) (i : nat) (p : Pump) (s t us : Z) :
  (i < 4)%nat -> pumps b !! i = Some p ->
  isRunning p = true -> continuous p = false ->
  0 <= duration p <= 32 ->
  startTime p = wrap_ulong s -> 0 <= t < 4294967296 ->
  let b' := updatePumps (mkClock (s + t) us) b in
  (duration p * 1000 <= t -> pumps b' !! i = Some (stopped p)) /\
  (t < duration p * 1000 ->
   exists p', pumps b' !! i = Some p' /\ isRunning p' = true).
Proof.
  intros Hi Hp Hr Hc Hd Hs Ht b'. subst b'.
  rewrite updatePumps_lookup, decide_True, Hp by exact Hi.
  cbn [fmap option_fmap option_map millis micros]. unfold tick.
  rewrite Hr, Hc. cbn [negb andb].
  rewrite duration_expired_in_range by lia.
  rewrite Hs, wrap_ulong_elapsed by exact Ht.
  split; intros H.
  - now rewrite (proj2 (Z.leb_le _ _) H).
  - rewrite (proj2 (Z.leb_gt _ _) H).
    destruct (step_due _ p); eexists; (split; [reflexivity|]); exact Hr.
Qed.

Lemma auto_stop_witness :
  let b := processCommand (mkClock 4294967000 0) "START,X,50,10,0" (setup power_on) in
  let p := mkPump 2 5 8 true (F32.of_Z 50) 10 false 4294967000
                  (interval_of (F32.of_Z 50)) 0 "X" in
  pumps b !! 0%nat = Some p /\
  wrap_ulong (4294967000 + 10000) = 9704 /\
  pumps (updatePumps (mkClock (4294967000 + 10000) 0) b) !! 0%nat = Some (stopped p).
Proof.
  cbv zeta.
  assert (Hp : pumps (processCommand (mkClock 4294967000 0) "START,X,50,10,0"
                                     (setup power_on)) !! 0%nat
               = Some (mkPump 2 5 8 true (F32.of_Z 50) 10 false 4294967000
                              (interval_of (F32.of_Z 50)) 0 "X"))
    by (vm_compute; reflexivity).
  split; [exact Hp|]. split; [reflexivity|].
  refine (proj1 (auto_stop_after_duration _ 0 _ 4294967000 10000 0 _ Hp _ _ _ _ _) _);
    cbn; try reflexivity; lia.
Defined.

(** X9. A step is due by the microseconds that have really passed since
    the last one, also when [micros()] has overflowed in between.  For
    a running channel that is not about to be stopped, with its last
    step at clock reading [s]: the pass of the scheduler [t]
    microseconds later (less than 2^32) stamps the record with the new
    reading exactly when [t], as a [float], has reached the interval,
    and leaves the record alone otherwise. *)
Theorem pulse_after_interval
        (b : Board) (i : nat) (p : Pump) (s t ms : Z) :
  (i < 4)%nat -> pumps b !! i = Some p ->
  isRunning p = true -> continuous p = true ->
  lastStepTime p = wrap_ulong s -> 0 <= t < 4294967296 ->
  pumps (updatePumps (mkClock ms (s + t)) b) !! i
  = Some (if F32.geb (F32.of_Z t) (intervalMicros p)
          then pulsed p (wrap_ulong (s + t)) else p).
Proof.
  intros Hi Hp Hr Hc Hs Ht.
  rewrite updatePumps_lookup, decide_True, Hp by exact Hi.
  cbn [fmap option_fmap option_map millis micros]. unfold tick, step_due.
  rewrite Hr, Hc. cbn [negb andb].
  now rewrite Hs, wrap_ulong_elapsed by exact Ht.
Qed.

Lemma pulse_after_interval_witness :
  let b := processCommand (mkClock 0 4294967000) "START,X,50,0,1" (setup power_on) in
  let p := mkPump 2 5 8 true (F32.of_Z 50) 0 true 0
                  (interval_of (F32.of_Z 50)) 4294967000 "X" in
  pumps b !! 0%nat = Some p /\
  pumps (updatePumps (mkClock 0 (4294967000 + 375)) b) !! 0%nat = Some p /\
  pumps (updatePumps (mkClock 0 (4294967000 + 376)) b) !! 0%nat = Some (pulsed p 80).
Proof.
  cbv zeta.
  assert (Hp : pumps (processCommand (mkClock 0 4294967000) "START,X,50,0,1"
                                     (setup power_on)) !! 0%nat
               = Some (mkPump 2 5 8 true (F32.of_Z 50) 0 true 0
                              (interval_of (F32.of_Z 50)) 4294967000 "X"))
    by (vm_compute; reflexivity).
  split; [exact Hp|]. split.
  - rewrite (pulse_after_interval _ 0 _ 4294967000 375 0 ltac:(lia) Hp);
      [vm_compute; reflexivity | reflexivity | reflexivity | reflexivity | lia].
  - rewrite (pulse_after_interval _ 0 _ 4294967000 376 0 ltac:(lia) Hp);
      [vm_compute; reflexivity | reflexivity | reflexivity | reflexivity | lia].
Defined.

(** ** The field splitter of START *)

Lemma string_length_app (s t : string) :
  String.length (s ++ t) = (String.length s + String.length t)%nat.
Proof.
  induction s as [|c s IH]; [reflexivity|].
  rewrite string_app_cons. cbn [String.length]. now rewrite IH.
Qed.

Lemma string_get_app (s t : string) (n : nat) :
  String.get (String.length s + n) (s ++ t) = String.get n t.
Proof. rewrite Nat.add_comm. symmetry. apply append_correct2. Qed.

Lemma string_substring_app (s t : string) (n : nat) :
  String.substring (String.length s) n (s ++ t) = String.substring 0 n t.
Proof. induction s as [|c s IH]; [reflexivity|]. exact IH. Qed.

Lemma string_substring_prefix (s t : string) :
  String.substring 0 (String.length s) (s ++ t) = s.
Proof.
  induction s as [|c s IH]; [now destruct t|].
  rewrite string_app_cons. cbn [String.length String.substring]. now rewrite IH.
Qed.

(** The text between [startIndex] and the separator is the field read
    so far. *)
Lemma substring_field (pre cur s : string) :
  substring (pre ++ cur ++ s) (String.length pre) (String.length pre + String.length cur)
  = cur.
Proof.
  unfold substring. rewrite !string_length_app.
  rewrite Nat.min_l by lia. rewrite Nat.max_r by lia. rewrite Nat.min_l by lia.
  destruct (String.length pre + (String.length cur + String.length s)
            <=? String.length pre)%nat eqn:H.
  - apply Nat.leb_le in H. destruct cur; [reflexivity | cbn in H; lia].
  - replace (String.length pre + String.length cur - String.length pre)%nat
      with (String.length cur) by lia.
    now rewrite string_substring_app, string_substring_prefix.
Qed.

Lemma charAt_field (pre cur : string) (c : ascii) (s : string) :
  charAt (pre ++ cur ++ String c s) (String.length pre + String.length cur) = c.
Proof.
  unfold charAt. rewrite string_get_app.
  rewrite <- (Nat.add_0_r (String.length cur)), string_get_app. reflexivity.
Qed.

Lemma fields_of_cons s : exists f fs, fields_of s = f :: fs.
Proof.
  induction s as [|c s (f & fs & IH)]; [now exists EmptyString, []|].
  cbn [fields_of]. destruct (Ascii.eqb c ","); [now eexists _, _|].
  rewrite IH. now eexists _, _.
Qed.

Lemma push_empty s : push EmptyString (fields_of s) = fields_of s.
Proof. destruct (fields_of_cons s) as (f & fs & ->). reflexivity. Qed.

Lemma fill_full ps k fs : (5 <= k)%nat -> fill ps k fs = ps.
Proof.
  intros H. destruct fs as [|f fs]; [reflexivity|]. cbn [fill].
  now rewrite (proj2 (Nat.ltb_ge k 5) H).
Qed.

Lemma split_from (s : string) : forall (pre cur : string) (f : Fields),
  startIndex f = String.length pre ->
  parts (foldl (split_step (pre ++ cur ++ s)) f
               (seq (String.length pre + String.length cur) (String.length s + 1)))
  = fill (parts f) (partIndex f) (push cur (fields_of s)).
Proof.
  induction s as [|c s IH]; intros pre cur f Hst.
  - cbn [String.length Nat.add seq foldl fields_of push fill].
    unfold split_step.
    replace (String.length pre + String.length cur =? String.length (pre ++ cur ++ ""))%nat
      with true
      by (symmetry; apply Nat.eqb_eq; rewrite !string_length_app; cbn; lia).
    cbn [orb]. rewrite Hst, substring_field, string_app_nil_r.
    now destruct (partIndex f <? 5)%nat.
  - cbn [String.length Nat.add seq foldl].
    assert (Hstep : split_step (pre ++ cur ++ String c s) f
                      (String.length pre + String.length cur)
                    = if Ascii.eqb c ","%char then
                        if (partIndex f <? 5)%nat then
                          mkFields (<[partIndex f := cur]> (parts f)) (S (partIndex f))
                                   (String.length pre + String.length cur + 1)
                        else mkFields (parts f) (partIndex f)
                                      (String.length pre + String.length cur + 1)
                      else f).
    { unfold split_step. rewrite charAt_field, Hst, substring_field.
      replace (String.length pre + String.length cur
               =? String.length (pre ++ cur ++ String c s))%nat with false
        by (symmetry; apply Nat.eqb_neq; rewrite !string_length_app; cbn; lia).
      reflexivity. }
    rewrite Hstep. cbn [fields_of].
    destruct (Ascii.eqb c ","%char) eqn:Hc.
    + apply Ascii.eqb_eq in Hc. subst c.
      pose proof (IH (pre ++ cur ++ ",")%string EmptyString) as IH'.
      rewrite !string_length_app in IH'. cbn [String.length] in IH'.
      rewrite !string_app_assoc in IH'. rewrite !string_app_cons in IH'.
      change ("" ++ ?x)%string with x in IH'.
      replace (String.length pre + (String.length cur + 1) + 0)%nat
        with (S (String.length pre + String.length cur)) in IH' by lia.
      rewrite IH'.
      * rewrite push_empty. cbn [push fill]. rewrite string_app_nil_r.
        destruct (partIndex f <? 5)%nat eqn:H5; cbn [parts partIndex]; [reflexivity|].
        apply fill_full. now apply Nat.ltb_ge.
      * destruct (partIndex f <? 5)%nat; cbn [startIndex]; lia.
    + pose proof (IH pre (cur ++ String c "")%string f Hst) as IH'.
      rewrite !string_length_app in IH'. cbn [String.length] in IH'.
      rewrite !string_app_assoc in IH'. rewrite !string_app_cons in IH'.
      change ("" ++ ?x)%string with x in IH'.
      replace (String.length pre + (String.length cur + 1))%nat
        with (S (String.length pre + String.length cur)) in IH' by lia.
      rewrite IH'. f_equal.
      destruct (fields_of_cons s) as (g & gs & ->). cbn [push].
      now rewrite string_app_assoc, string_app_cons.
Qed.

Lemma fill_lookup fs : forall ps k j,
  List.length ps = 5%nat ->
  fill ps k fs !! j
  = if decide (k <= j < 5)%nat
    then match fs !! (j - k)%nat with Some f => Some f | None => ps !! j end
    else ps !! j.
Proof.
  induction fs as [|f fs IH]; intros ps k j Hlen.
  - cbn [fill]. case_decide; [|reflexivity]. now rewrite lookup_nil.
  - cbn [fill]. destruct (k <? 5)%nat eqn:H5.
    + apply Nat.ltb_lt in H5. rewrite IH by now rewrite length_insert.
      destruct (decide (j = k)) as [->|Hne].
      * rewrite decide_False by lia. rewrite decide_True by lia.
        rewrite Nat.sub_diag. cbn. apply list_lookup_insert_eq. lia.
      * rewrite list_lookup_insert_ne by auto.
        repeat case_decide; try lia; try reflexivity.
        replace (j - k)%nat with (S (j - S k)) by lia. reflexivity.
    + apply Nat.ltb_ge in H5. rewrite decide_False by lia. reflexivity.
Qed.

Lemma field_count_fields s : field_count s = List.length (fields_of s).
Proof.
  induction s as [|c s IH]; [reflexivity|]. cbn [field_count fields_of].
  destruct (Ascii.eqb c ","); [cbn; now rewrite IH|].
  rewrite IH. destruct (fields_of_cons s) as (f & fs & ->). reflexivity.
Qed.

Lemma part_field command k :
  (k < 5)%nat -> part (split_fields command) k = field command k.
Proof.
  intros Hk. unfold part, field, split_fields.
  pose proof (split_from command EmptyString EmptyString
                (mkFields (replicate 5 EmptyString) 0 0) eq_refl) as H.
  cbn [String.length Nat.add parts partIndex] in H.
  change ("" ++ "" ++ command)%string with command in H.
  rewrite H, push_empty, fill_lookup by reflexivity.
  rewrite decide_True by lia. rewrite Nat.sub_0_r.
  destruct (fields_of command !! k); [reflexivity|].
  now rewrite lookup_replicate_2.
Qed.

(** X10. The splitter of [handleStartCommand] cuts the line at its
    commas: the first five parts are the first five comma-separated
    fields of the line, fields beyond the fifth are dropped, parts for
    which the line has no field stay empty, and [partIndex] ends as the
    number of fields, but never above 5. *)
Theorem splitter_reads_the_first_five_fields (command : string) :
  partIndex (split_fields command) = Nat.min 5 (List.length (fields_of command)) /\
  forall k, part (split_fields command) k
            = if (k <? 5)%nat then field command k else EmptyString.
Proof.
  split; [now rewrite split_fields_count, field_count_fields|].
  intros k. destruct (k <? 5)%nat eqn:Hk.
  - apply part_field. now apply Nat.ltb_lt.
  - apply Nat.ltb_ge in Hk. unfold part, split_fields.
    pose proof (split_from command EmptyString EmptyString
                  (mkFields (replicate 5 EmptyString) 0 0) eq_refl) as H.
    cbn [String.length Nat.add parts partIndex] in H.
    change ("" ++ "" ++ command)%string with command in H.
    rewrite H, fill_lookup by reflexivity.
    rewrite decide_False by lia.
    now rewrite (proj1 (lookup_replicate_None 5 EmptyString k) Hk).
Qed.

(** ** The channel table *)

Lemma intact_pumps b :
  channels_intact b ->
  exists p0 p1 p2 p3,
    pumps b = [p0; p1; p2; p3] /\
    identity_of p0 = (X_STEP_PIN, X_DIR_PIN, X_ENABLE_PIN, "X"%char) /\
    identity_of p1 = (Y_STEP_PIN, Y_DIR_PIN, Y_ENABLE_PIN, "Y"%char) /\
    identity_of p2 = (Z_STEP_PIN, Z_DIR_PIN, Z_ENABLE_PIN, "Z"%char) /\
    identity_of p3 = (A_STEP_PIN, A_DIR_PIN, A_ENABLE_PIN, "A"%char).
Proof.
  unfold channels_intact.
  destruct (pumps b) as [|p0 [|p1 [|p2 [|p3 [|p4 l]]]]]; try discriminate.
  intros H. injection H as ?.
  exists p0, p1, p2, p3. unfold identity_of. repeat split; congruence.
Qed.

Lemma findPumpIndex_intact c b :
  channels_intact b -> findPumpIndex c b = channel_index c.
Proof.
  intros Hb. destruct (intact_pumps b Hb) as (p0 & p1 & p2 & p3 & Hps & H0 & H1 & H2 & H3).
  unfold findPumpIndex, channel_index. rewrite Hps. cbn [findPumpIndex_from].
  injection H0 as _ _ _ ->. injection H1 as _ _ _ ->.
  injection H2 as _ _ _ ->. injection H3 as _ _ _ ->.
  rewrite !(Ascii.eqb_sym _ c).
  repeat (match goal with |- context [Ascii.eqb c ?x] => destruct (Ascii.eqb c x) end;
          try reflexivity).
Qed.

(** X11. In every reachable state [findPumpIndex] finds the channels
    under the ids X, Y, Z and A, at the indices 0, 1, 2 and 3, and
    answers -1 for every other character, the lower-case letters
    included. *)
Theorem findPumpIndex_table (b : Board) (c : ascii) :
  reachable b ->
  findPumpIndex c b = channel_index c /\
  (findPumpIndex c b = -1 <-> ~ In c ["X"; "Y"; "Z"; "A"]%char).
Proof.
  intros Hb. apply reachable_enable_inv in Hb. destruct Hb as [Hb _].
  rewrite (findPumpIndex_intact c b Hb). split; [reflexivity|].
  unfold channel_index. cbn [In].
  destruct (Ascii.eqb_spec c "X"); [split; [discriminate|intros H; exfalso; apply H; auto]|].
  destruct (Ascii.eqb_spec c "Y"); [split; [discriminate|intros H; exfalso; apply H; auto]|].
  destruct (Ascii.eqb_spec c "Z"); [split; [discriminate|intros H; exfalso; apply H; auto]|].
  destruct (Ascii.eqb_spec c "A"); [split; [discriminate|intros H; exfalso; apply H; auto]|].
  split; [|reflexivity]. intros _ [H|[H|[H|[H|[]]]]]; congruence.
Qed.

Lemma findPumpIndex_witness :
  findPumpIndex "x" (run two_started_one_stopped) = -1 /\
  findPumpIndex "A" (run two_started_one_stopped) = 3.
Proof.
  split.
  - apply (proj2 (findPumpIndex_table _ "x" (reachable_run two_started_one_stopped))).
    intros [H|[H|[H|[H|[]]]]]; discriminate.
  - exact (proj1 (findPumpIndex_table _ "A" (reachable_run two_started_one_stopped))).
Defined.

(** ** START *)

Lemma channel_index_range c :
  channel_index c = -1 \/ exists i : nat, (i < 4)%nat /\ channel_index c = Z.of_nat i.
Proof.
  unfold channel_index.
  destruct (Ascii.eqb c "X"); [right; exists 0%nat; split; [lia|reflexivity]|].
  destruct (Ascii.eqb c "Y"); [right; exists 1%nat; split; [lia|reflexivity]|].
  destruct (Ascii.eqb c "Z"); [right; exists 2%nat; split; [lia|reflexivity]|].
  destruct (Ascii.eqb c "A"); [right; exists 3%nat; split; [lia|reflexivity]|].
  now left.
Qed.

(** The checks of [handleStartCommand] in the order of the code, in
    terms of the fields of the line and of the channel table. *)
Lemma start_decision clk line b :
  channels_intact b ->
  startsWith (trim line) "START" = true ->
  processCommand clk line b =
  if (List.length (fields_of (trim line)) <? 5)%nat then
    Serial_println "ERROR: Invalid START command format" b
  else if channel_index (id_of line) =? -1 then
    Serial_println "ERROR: Invalid pump identifier" b
  else if rpm_out_of_range (rpm_of line) then
    Serial_println "ERROR: RPM must be between -3000 and 3000" b
  else if (continuous_of line =? 0) && (duration_of line <=? 0) then
    Serial_println "ERROR: Duration must be positive" b
  else
    Serial_println "OK"
      (startPump clk (Z.to_nat (channel_index (id_of line))) (rpm_of line)
                 (duration_of line) (continuous_of line =? 1) b).
Proof.
  intros Hb Hs. unfold processCommand. rewrite Hs. unfold handleStartCommand.
  rewrite split_fields_count, field_count_fields.
  rewrite !part_field by lia. rewrite (findPumpIndex_intact _ b Hb).
  fold (id_of line) (rpm_of line) (duration_of line) (continuous_of line).
  destruct (List.length (fields_of (trim line)) <? 5)%nat eqn:H5.
  - apply Nat.ltb_lt in H5.
    replace (Nat.min 5 (List.length (fields_of (trim line))) =? 5)%nat with false
      by (symmetry; apply Nat.eqb_neq; lia).
    reflexivity.
  - apply Nat.ltb_ge in H5.
    replace (Nat.min 5 (List.length (fields_of (trim line))) =? 5)%nat with true
      by (symmetry; apply Nat.eqb_eq; lia).
    reflexivity.
Qed.

Lemma startPump_full clk i r dur cont b p :
  pumps b !! i = Some p ->
  let d := if F32.gtb r (F32.of_Z 0) then HIGH else LOW in
  let levels :=
    <[enablePin p := LOW]>
      (<[dirPin p := d]>
         (if isRunning p then <[enablePin p := HIGH]> (pinLevel b) else pinLevel b)) in
  startPump clk i r dur cont b =
  mkBoard (<[i := started p (abs r) dur cont clk]> (pumps b))
          levels
          (pinWrites b ++ (if isRunning p then [(enablePin p, HIGH)] else []) ++
           [(dirPin p, d); (enablePin p, LOW)])
          (serialOut b ++ (if isRunning p then stop_notice (name p) else []) ++
           start_notice (name p) (abs r)
             (if default LOW (levels !! dirPin p) then "(Forward)" else "(Reverse)"))
          (inputString b) (stringComplete b).
Proof.
  intros Hp d levels. subst d levels. unfold startPump.
  assert (Hlt : (i < List.length (pumps b))%nat) by (eapply lookup_lt_Some; eauto).
  destruct (isRunning p) eqn:Hr.
  - rewrite (stopPump_running i b p Hp Hr). cbn [pumps].
    rewrite list_lookup_insert_eq by assumption.
    cbv [seq_stmt Serial_print Serial_println Serial_emit set_pump with_pumps
         digitalWrite digitalRead started stopped stop_notice start_notice
         pumps pinLevel pinWrites serialOut inputString stringComplete
         stepPin dirPin enablePin name].
    rewrite list_insert_insert_eq. f_equal.
    + now rewrite <- !app_assoc.
    + now rewrite <- !app_assoc.
  - rewrite (stopPump_idle i b p Hp Hr). rewrite Hp.
    cbv [seq_stmt Serial_print Serial_println Serial_emit set_pump with_pumps
         digitalWrite digitalRead started stop_notice start_notice
         pumps pinLevel pinWrites serialOut inputString stringComplete
         stepPin dirPin enablePin name].
    f_equal.
    + now rewrite <- !app_assoc.
    + now rewrite <- !app_assoc.
Qed.

Lemma channel_index_unknown c :
  ~ In c ["X"; "Y"; "Z"; "A"]%char -> channel_index c = -1.
Proof.
  cbn [In]. intros H. unfold channel_index.
  destruct (Ascii.eqb_spec c "X"); [exfalso; auto|].
  destruct (Ascii.eqb_spec c "Y"); [exfalso; auto|].
  destruct (Ascii.eqb_spec c "Z"); [exfalso; auto|].
  destruct (Ascii.eqb_spec c "A"); [exfalso; auto 6|].
  reflexivity.
Qed.

Lemma reachable_intact b : reachable b -> channels_intact b.
Proof. intros H. exact (proj1 (reachable_enable_inv b H)). Qed.

(** X12. A START line with five fields or more whose id, the first
    character of the second field, is not X, Y, Z or A (an empty field
    and a lower-case letter included) is answered with
    ERROR: Invalid pump identifier and changes nothing else, whatever
    its other fields hold: the id is checked before the RPM and the
    duration. *)
Theorem start_with_unknown_id (clk : Clock) (line : string) (b : Board) :
  reachable b ->
  startsWith (trim line) "START" = true ->
  (5 <= List.length (fields_of (trim line)))%nat ->
  ~ In (id_of line) ["X"; "Y"; "Z"; "A"]%char ->
  processCommand clk line b = Serial_println "ERROR: Invalid pump identifier" b.
Proof.
  intros Hb Hs Hn Hid.
  rewrite (start_decision clk line b (reachable_intact b Hb) Hs).
  rewrite (proj2 (Nat.ltb_ge _ _) Hn).
  now rewrite (channel_index_unknown _ Hid).
Qed.

Lemma start_with_unknown_id_witness :
  processCommand c0 "START,x,0,0,0" (setup power_on)
  = Serial_println "ERROR: Invalid pump identifier" (setup power_on) /\
  processCommand c0 "START,,50,10,0" (setup power_on)
  = Serial_println "ERROR: Invalid pump identifier" (setup power_on).
Proof.
  split.
  - apply (start_with_unknown_id c0 "START,x,0,0,0" _ reach_setup);
      [vm_compute; reflexivity | vm_compute; lia |].
    intros [H|[H|[H|[H|[]]]]]; discriminate.
  - apply (start_with_unknown_id c0 "START,,50,10,0" _ reach_setup);
      [vm_compute; reflexivity | vm_compute; lia |].
    intros [H|[H|[H|[H|[]]]]]; discriminate.
Defined.

(** X13. A START line for a known channel whose RPM passes the range
    check, whose continuous field reads 0 and whose duration field,
    read as a 16-bit [int], is 0 or negative is answered with
    ERROR: Duration must be positive and changes nothing else.  A
    duration such as 40000, which does not fit an [int] and wraps to a
    negative number, is refused in this way. *)
Theorem start_without_duration (clk : Clock) (line : string) (b : Board) :
  reachable b ->
  startsWith (trim line) "START" = true ->
  (5 <= List.length (fields_of (trim line)))%nat ->
  In (id_of line) ["X"; "Y"; "Z"; "A"]%char ->
  rpm_out_of_range (rpm_of line) = false ->
  continuous_of line = 0 ->
  duration_of line <= 0 ->
  processCommand clk line b = Serial_println "ERROR: Duration must be positive" b.
Proof.
  intros Hb Hs Hn Hid Hr Hc Hd.
  rewrite (start_decision clk line b (reachable_intact b Hb) Hs).
  rewrite (proj2 (Nat.ltb_ge _ _) Hn), Hr, Hc.
  rewrite (proj2 (Z.leb_le _ _) Hd).
  replace (channel_index (id_of line) =? -1) with false; [reflexivity|].
  symmetry. apply Z.eqb_neq. unfold channel_index.
  destruct Hid as [<-|[<-|[<-|[<-|[]]]]]; discriminate.
Qed.

Lemma start_without_duration_witness :
  duration_of "START,X,50,40000,0" = -25536 /\
  processCommand c0 "START,X,50,40000,0" (setup power_on)
  = Serial_println "ERROR: Duration must be positive" (setup power_on).
Proof.
  split; [vm_compute; reflexivity|].
  apply (start_without_duration c0 "START,X,50,40000,0" _ reach_setup).
  - vm_compute. reflexivity.
  - vm_compute. lia.
  - left. vm_compute. reflexivity.
  - vm_compute. reflexivity.
  - vm_compute. reflexivity.
  - vm_compute. discriminate.
Defined.

(** X14. A START line that passes the four checks (five fields or
    more, the id of channel [i], an RPM that passes the range check, a
    positive duration unless the continuous field reads something other
    than 0) is carried out.  The record of channel [i] then holds the
    running flag, |rpm|, the duration, the continuous flag (set only
    when the field reads 1), the readings of both clocks and the
    interval of |rpm|; the other records are as before; the shared
    enable output is asserted; the direction output is high for a
    positive RPM and low otherwise, and the notice says Forward or
    Reverse accordingly; the last line sent is OK. *)
Theorem start_is_carried_out (clk : Clock) (line : string) (b : Board) (i : nat) :
  reachable b ->
  startsWith (trim line) "START" = true ->
  (5 <= List.length (fields_of (trim line)))%nat ->
  channel_index (id_of line) = Z.of_nat i ->
  rpm_out_of_range (rpm_of line) = false ->
  (continuous_of line = 0 -> 0 < duration_of line) ->
  let b' := processCommand clk line b in
  let forward := F32.gtb (rpm_of line) (F32.of_Z 0) in
  exists p,
    pumps b !! i = Some p /\ name p = id_of line /\
    pumps b' =
      <[i := mkPump (stepPin p) (dirPin p) (enablePin p) true (abs (rpm_of line))
                    (duration_of line) (continuous_of line =? 1)
                    (wrap_ulong (millis clk)) (interval_of (abs (rpm_of line)))
                    (wrap_ulong (micros clk)) (name p)]> (pumps b) /\
    digitalRead X_ENABLE_PIN b' = LOW /\
    digitalRead (dirPin p) b' = forward /\
    exists out,
      serialOut b' =
      out ++ start_notice (name p) (abs (rpm_of line))
                          (if forward then "(Forward)" else "(Reverse)")
          ++ [PrintStr "OK"; Newline].
Proof.
  intros Hb Hs Hn Hi Hr Hd b' forward.
  pose proof (reachable_intact b Hb) as Hint.
  assert (Hb' : b' = Serial_println "OK"
                  (startPump clk i (rpm_of line) (duration_of line)
                             (continuous_of line =? 1) b)).
  { unfold b'. rewrite (start_decision clk line b Hint Hs).
    rewrite (proj2 (Nat.ltb_ge _ _) Hn), Hi, Hr, Nat2Z.id.
    replace (Z.of_nat i =? -1) with false by (symmetry; apply Z.eqb_neq; lia).
    destruct (continuous_of line =? 0) eqn:Hc; [|reflexivity].
    apply Z.eqb_eq in Hc. specialize (Hd Hc).
    now rewrite (proj2 (Z.leb_gt _ _) Hd). }
  clearbody b'. subst b'.
  assert (Hfind : findPumpIndex (id_of line) b = Z.of_nat i)
    by (now rewrite (findPumpIndex_intact _ b Hint)).
  destruct (findPumpIndex_known (id_of line) b) as [[H1 _]|(n & p & H1 & Hp & Hname)];
    [lia|].
  assert (n = i) by lia. subst n.
  destruct (intact_pins i p b Hint Hp) as (Hen & _ & Hdir).
  exists p. split; [exact Hp|]. split; [exact Hname|].
  pose proof (startPump_full clk i (rpm_of line) (duration_of line)
                (continuous_of line =? 1) b p Hp) as HB.
  cbv zeta in HB. change (F32.gtb (rpm_of line) (F32.of_Z 0)) with forward in HB.
  clearbody forward.
  generalize dependent (startPump clk i (rpm_of line) (duration_of line)
                                  (continuous_of line =? 1) b).
  intros B HB.
  assert (Hread : (<[enablePin p := LOW]>
                     (<[dirPin p := if forward then HIGH else LOW]>
                        (if isRunning p then <[enablePin p := HIGH]> (pinLevel b)
                         else pinLevel b))) !! dirPin p
                  = Some (if forward then HIGH else LOW)).
  { rewrite lookup_insert_ne by congruence. apply lookup_insert_eq. }
  rewrite Hread in HB.
  change (default LOW (Some (if forward then HIGH else LOW)))
    with (if forward then HIGH else LOW) in HB.
  replace (if (if forward then HIGH else LOW) then "(Forward)" else "(Reverse)")%string
    with (if forward then "(Forward)" else "(Reverse)")%string in HB
    by (now destruct forward).
  split; [|split; [|split]].
  - change (pumps (Serial_println "OK" B)) with (pumps B). now rewrite HB.
  - change (digitalRead X_ENABLE_PIN (Serial_println "OK" B))
      with (default LOW (pinLevel B !! X_ENABLE_PIN)).
    rewrite HB. cbn [pinLevel]. now rewrite <- Hen, lookup_insert_eq.
  - change (digitalRead (dirPin p) (Serial_println "OK" B))
      with (default LOW (pinLevel B !! dirPin p)).
    rewrite HB. cbn [pinLevel]. rewrite Hread. now destruct forward.
  - change (serialOut (Serial_println "OK" B))
      with (serialOut B ++ [PrintStr "OK"; Newline]).
    rewrite HB. cbn [serialOut].
    exists (serialOut b ++ (if isRunning p then stop_notice (name p) else [])).
    generalize (start_notice (name p) (abs (rpm_of line))
                  (if forward then "(Forward)" else "(Reverse)")).
    generalize (if isRunning p then stop_notice (name p) else []).
    intros l1 l2. now rewrite <- !app_assoc.
Qed.

Lemma start_is_carried_out_witness :
  let line := " START,Zebra,-12.5,3,0 "%string in
  let b' := processCommand (mkClock 7 7000) line (setup power_on) in
  duration_of line = 3 /\
  exists p,
    pumps (setup power_on) !! 2%nat = Some p /\ name p = id_of line /\
    digitalRead X_ENABLE_PIN b' = LOW /\
    digitalRead (dirPin p) b' = F32.gtb (rpm_of line) (F32.of_Z 0).
Proof.
  cbv zeta. split; [vm_compute; reflexivity|].
  destruct (start_is_carried_out (mkClock 7 7000) " START,Zebra,-12.5,3,0 "
              (setup power_on) 2 reach_setup)
    as (p & H1 & H2 & _ & H4 & H5 & _).
  - vm_compute. reflexivity.
  - vm_compute. lia.
  - vm_compute. reflexivity.
  - vm_compute. reflexivity.
  - intros _. vm_compute. reflexivity.
  - exists p. split; [exact H1|]. split; [exact H2|]. split; [exact H4 | exact H5].
Defined.

(** ** The answers to commands *)

Lemma says_refl b : says b b.
Proof. exists []. split; [now rewrite app_nil_r | constructor]. Qed.

Lemma says_trans b1 b2 b3 : says b1 b2 -> says b2 b3 -> says b1 b3.
Proof.
  intros (n1 & H1 & F1) (n2 & H2 & F2). exists (n1 ++ n2). split.
  - now rewrite H2, H1, concat_app, app_assoc.
  - now apply Forall_app.
Qed.

Lemma says_stopPump i b : says b (stopPump i b).
Proof.
  destruct (pumps b !! i) as [p|] eqn:Hp.
  - destruct (isRunning p) eqn:Hr.
    + rewrite (stopPump_running i b p Hp Hr). exists [stop_notice (name p)].
      split; [|repeat constructor]. cbn [serialOut List.concat].
      now rewrite app_nil_r, <- app_assoc.
    + rewrite (stopPump_idle i b p Hp Hr). apply says_refl.
  - rewrite (stopPump_absent i b Hp). apply says_refl.
Qed.

Lemma says_startPump clk i r dur cont b : says b (startPump clk i r dur cont b).
Proof.
  destruct (pumps b !! i) as [p|] eqn:Hp.
  - rewrite (startPump_full clk i r dur cont b p Hp). cbv zeta. cbn [serialOut].
    match goal with
    | |- says _ {| serialOut := _ ++ _ ++ start_notice ?c ?x ?d |} =>
        generalize d; intros direction
    end.
    destruct (isRunning p).
    + exists [stop_notice (name p); start_notice (name p) (abs r) direction].
      split; [|repeat constructor]. cbn [serialOut List.concat]. now rewrite app_nil_r.
    + exists [start_notice (name p) (abs r) direction].
      split; [|repeat constructor]. cbn [serialOut List.concat]. now rewrite app_nil_r.
  - rewrite (startPump_absent clk i r dur cont b Hp). apply says_refl.
Qed.

Lemma bit_running i b : bit (running_bit i b).
Proof.
  unfold running_bit, bit. destruct (pumps b !! i) as [p|]; [|now left].
  destruct (isRunning p); auto.
Qed.

Lemma answer_after b b1 reply :
  says b b1 -> response reply ->
  exists ns, serialOut (Serial_emit reply b1) = serialOut b ++ List.concat ns ++ reply /\
             Forall notice ns.
Proof.
  intros (ns & H & F) _. exists ns. split; [|exact F].
  cbn [Serial_emit serialOut]. now rewrite H, <- app_assoc.
Qed.

Ltac error_text := apply response_error; cbn [In error_texts]; auto 10.

(** X15. Whatever the line and the state, [processCommand] adds to the
    serial output some notices ([Started pump ...], [Stopped pump ...]),
    possibly none, followed by exactly one answer: the line [OK], one
    of the seven error lines, or the status map. *)
Theorem every_command_gets_one_answer (clk : Clock) (line : string) (b : Board) :
  exists ns reply,
    serialOut (processCommand clk line b) = serialOut b ++ List.concat ns ++ reply /\
    Forall notice ns /\ response reply.
Proof.
  assert (H : forall b1 reply, says b b1 -> response reply ->
              exists ns reply',
                serialOut (Serial_emit reply b1) = serialOut b ++ List.concat ns ++ reply' /\
                Forall notice ns /\ response reply').
  { intros b1 reply Hs Hr. destruct (answer_after b b1 reply Hs Hr) as (ns & H1 & H2).
    exists ns, reply. auto. }
  unfold processCommand.
  destruct (startsWith (trim line) "START").
  { unfold handleStartCommand.
    destruct (negb _); [apply H; [apply says_refl | error_text]|].
    destruct (_ =? -1); [apply H; [apply says_refl | error_text]|].
    destruct (rpm_out_of_range _); [apply H; [apply says_refl | error_text]|].
    destruct (_ && _); [apply H; [apply says_refl | error_text]|].
    apply H; [apply says_startPump | constructor]. }
  destruct (startsWith (trim line) "STOP").
  { unfold handleStopCommand.
    destruct (_ || _); [apply H; [apply says_refl | error_text]|].
    destruct (_ =? -1); [apply H; [apply says_refl | error_text]|].
    apply H; [apply says_stopPump | constructor]. }
  destruct (String.eqb (trim line) "EMERGENCY").
  { unfold handleEmergencyStop. apply H; [|constructor]. cbn [seq foldl].
    eapply says_trans; [|apply says_stopPump].
    eapply says_trans; [|apply says_stopPump].
    eapply says_trans; [|apply says_stopPump].
    apply says_stopPump. }
  destruct (String.eqb (trim line) "STATUS").
  { unfold handleStatusRequest. apply H; [apply says_refl|].
    apply response_status; apply bit_running. }
  apply H; [apply says_refl | error_text].
Qed.

(** X16. STATUS, with blanks around it or not, changes no pump record
    and no pin.  It sends the status map, in which the number after each
    of X, Y, Z and A is 1 when the running flag of the channel at index
    0, 1, 2, 3 is set and 0 otherwise. *)
Theorem status_reports_the_running_flags (clk : Clock) (line : string) (b : Board) :
  trim line = "STATUS"%string ->
  let b' := processCommand clk line b in
  same_channels b b' /\
  serialOut b' =
    serialOut b ++
    status_line (running_bit 0 b) (running_bit 1 b) (running_bit 2 b) (running_bit 3 b) /\
  forall i, (running_bit i b = 1 <->
             exists p, pumps b !! i = Some p /\ isRunning p = true) /\
            (running_bit i b = 0 \/ running_bit i b = 1).
Proof.
  intros Ht b'. subst b'. unfold processCommand. rewrite Ht.
  change (startsWith "STATUS" "START") with false.
  change (startsWith "STATUS" "STOP") with false.
  change ("STATUS" =? "EMERGENCY")%string with false.
  change ("STATUS" =? "STATUS")%string with true. cbv iota.
  split; [repeat split|]. split; [reflexivity|].
  intros i. split; [|apply bit_running]. unfold running_bit.
  destruct (pumps b !! i) as [p|].
  - destruct (isRunning p) eqn:Hr; split; try discriminate; eauto.
    intros (q & [= <-] & Hq). congruence.
  - split; [discriminate|]. intros (q & Hq & _). discriminate.
Qed.

Lemma status_witness :
  let b := processCommand c0 "START,Y,50,10,0" (setup power_on) in
  serialOut (processCommand c0 "  STATUS " b) = serialOut b ++ status_line 0 1 0 0.
Proof.
  cbv zeta.
  destruct (status_reports_the_running_flags c0 "  STATUS "
              (processCommand c0 "START,Y,50,10,0" (setup power_on)))
    as (_ & H & _); [vm_compute; reflexivity|].
  rewrite H. f_equal.
Defined.

(** ** Deactivation *)

Lemma stopPump_twice i b : stopPump i (stopPump i b) = stopPump i b.
Proof.
  destruct (pumps (stopPump i b) !! i) as [q|] eqn:Hq.
  - apply (stopPump_idle i _ q Hq). exact (idle_stopPump i b q Hq).
  - now apply stopPump_absent.
Qed.

Lemma stopPump_on_idle i b : idle i b -> stopPump i b = b.
Proof.
  intros H. destruct (pumps b !! i) as [q|] eqn:Hq.
  - apply (stopPump_idle i b q Hq). exact (H q Hq).
  - now apply stopPump_absent.
Qed.

(** X17. Deactivation is idempotent.  [stopPump] on a channel that is
    already stopped does nothing: no pin is written again and no second
    notice is sent.  A second EMERGENCY adds nothing but its [OK]. *)
Theorem deactivation_is_idempotent (i : nat) (b : Board) :
  stopPump i (stopPump i b) = stopPump i b /\
  handleEmergencyStop (handleEmergencyStop b)
  = Serial_println "OK" (handleEmergencyStop b).
Proof.
  split; [apply stopPump_twice|].
  assert (Hidle : forall j, (j < 4)%nat -> idle j (handleEmergencyStop b)).
  { intros j Hj. unfold handleEmergencyStop. cbn [seq foldl].
    change (idle j (stopPump 3 (stopPump 2 (stopPump 1 (stopPump 0 b))))).
    pose proof idle_stopPump as S. pose proof idle_stopPump_keep as K.
    destruct j as [|[|[|[|j]]]]; [auto 6 .. | lia]. }
  set (e := handleEmergencyStop b) in *.
  unfold handleEmergencyStop at 1. cbn [seq foldl].
  rewrite (stopPump_on_idle 0 e) by (apply Hidle; lia).
  rewrite (stopPump_on_idle 1 e) by (apply Hidle; lia).
  rewrite (stopPump_on_idle 2 e) by (apply Hidle; lia).
  rewrite (stopPump_on_idle 3 e) by (apply Hidle; lia).
  reflexivity.
Qed.

(** ** Channels are independent in their records *)

(** X18. A command other than EMERGENCY changes the record of one
    channel at most. *)
Theorem command_changes_one_record (clk : Clock) (line : string) (b : Board) :
  trim line <> "EMERGENCY"%string ->
  exists i, forall j, j <> i ->
    pumps (processCommand clk line b) !! j = pumps b !! j.
Proof.
  intros Hne. unfold processCommand.
  destruct (startsWith (trim line) "START").
  { destruct (handleStartCommand_cases clk (trim line) b)
      as [[text ->]|(n & p & Hp & _ & _ & ->)].
    - exists 0%nat. reflexivity.
    - exists n. intros j Hj.
      change (pumps (Serial_println "OK" ?x)) with (pumps x).
      destruct (startPump_effect clk n (toFloat (part (split_fields (trim line)) 2))
                  (wrap_int (toInt (part (split_fields (trim line)) 3)))
                  (wrap_int (toInt (part (split_fields (trim line)) 4)) =? 1) b p Hp)
        as (H & _).
      rewrite H. apply list_lookup_insert_ne. auto. }
  destruct (startsWith (trim line) "STOP").
  { unfold handleStopCommand.
    destruct (_ || _); [exists 0%nat; reflexivity|].
    destruct (_ =? -1); [exists 0%nat; reflexivity|].
    eexists. intros j Hj.
    change (pumps (seq_stmt (stopPump ?n) (Serial_println "OK") b))
      with (pumps (stopPump n b)).
    apply stopPump_lookup_ne. intros E. apply Hj. symmetry. exact E. }
  rewrite (proj2 (String.eqb_neq _ _) Hne).
  destruct (String.eqb (trim line) "STATUS"); exists 0%nat; reflexivity.
Qed.

Lemma command_changes_one_record_witness :
  exists i, forall j, j <> i ->
    pumps (processCommand c0 "START,X,50,10,0" (setup power_on)) !! j
    = pumps (setup power_on) !! j.
Proof.
  apply (command_changes_one_record c0 "START,X,50,10,0" (setup power_on)).
  vm_compute. discriminate.
Defined.

(** ** Invariants of the reachable states, continued *)

(** X19. Channel identity never changes: in every reachable state the
    array holds the four channels X, Y, Z and A, in this order, each
    with the step, direction and enable pin it was given at power-on. *)
Theorem channel_identity_is_fixed (b : Board) :
  reachable b ->
  identity_of <$> pumps b =
  [ (X_STEP_PIN, X_DIR_PIN, X_ENABLE_PIN, "X"%char);
    (Y_STEP_PIN, Y_DIR_PIN, Y_ENABLE_PIN, "Y"%char);
    (Z_STEP_PIN, Z_DIR_PIN, Z_ENABLE_PIN, "Z"%char);
    (A_STEP_PIN, A_DIR_PIN, A_ENABLE_PIN, "A"%char) ].
Proof. intros H. exact (reachable_intact b H). Qed.

Lemma channel_identity_witness :
  identity_of <$> pumps (run two_started_one_stopped) =
  [ (2, 5, 8, "X"%char); (3, 6, 8, "Y"%char); (4, 7, 8, "Z"%char);
    (12, 13, 8, "A"%char) ].
Proof.
  exact (channel_identity_is_fixed (run two_started_one_stopped)
           (reachable_run two_started_one_stopped)).
Defined.

Lemma intact_pin_sets i p b :
  channels_intact b -> pumps b !! i = Some p ->
  In (stepPin p) step_pins /\ In (dirPin p) dir_pins /\ enablePin p = X_ENABLE_PIN.
Proof.
  intros Hb Hp.
  destruct (intact_pumps b Hb) as (p0 & p1 & p2 & p3 & Hps & H0 & H1 & H2 & H3).
  rewrite Hps in Hp. unfold identity_of in *.
  destruct i as [|[|[|[|i]]]]; cbn in Hp; try discriminate; injection Hp as <-.
  - injection H0 as -> -> -> _. repeat split; cbn [In step_pins dir_pins]; auto 10.
  - injection H1 as -> -> -> _. repeat split; cbn [In step_pins dir_pins]; auto 10.
  - injection H2 as -> -> -> _. repeat split; cbn [In step_pins dir_pins]; auto 10.
  - injection H3 as -> -> -> _. repeat split; cbn [In step_pins dir_pins]; auto 10.
Qed.

Lemma step_pin_not_other x y :
  In x step_pins -> In y dir_pins \/ y = X_ENABLE_PIN -> x <> y.
Proof.
  unfold step_pins, dir_pins. cbn [In].
  intros [<-|[<-|[<-|[<-|[]]]]] [[<-|[<-|[<-|[<-|[]]]]]| ->]; discriminate.
Qed.

Lemma stopPump_read q i b :
  (forall p, pumps b !! i = Some p -> enablePin p <> q) ->
  digitalRead q (stopPump i b) = digitalRead q b.
Proof.
  intros H. destruct (pumps b !! i) as [p|] eqn:Hp.
  - destruct (isRunning p) eqn:Hr.
    + rewrite (stopPump_running i b p Hp Hr). unfold digitalRead. cbn [pinLevel].
      rewrite lookup_insert_ne by (now apply H). reflexivity.
    + now rewrite (stopPump_idle i b p Hp Hr).
  - now rewrite (stopPump_absent i b Hp).
Qed.

Lemma step_inv_stop i b : step_inv b -> step_inv (stopPump i b).
Proof.
  intros [Hint Hlow]. pose proof (intact_stopPump i b Hint) as Hint'.
  split; [exact Hint'|]. intros j q Hq.
  destruct (intact_pin_sets j q _ Hint' Hq) as (Hs & _ & _).
  rewrite stopPump_read.
  - rewrite stopPump_lookup in Hq.
    destruct (pumps b !! j) as [p'|] eqn:Hp'; [|now case_decide].
    assert (stepPin q = stepPin p') as ->
        by (case_decide; cbn in Hq; injection Hq as <-; reflexivity).
    exact (Hlow j p' Hp').
  - intros p Hp. destruct (intact_pin_sets i p b Hint Hp) as (_ & _ & He).
    intros E. apply (step_pin_not_other _ _ Hs (or_intror He)). now symmetry.
Qed.

Lemma step_inv_start clk n p r dur c b :
  step_inv b -> pumps b !! n = Some p -> True -> (c = 0 -> 0 < dur) ->
  step_inv (startPump clk n r dur (c =? 1) b).
Proof.
  intros [Hint Hlow] Hp _ _.
  pose proof (intact_startPump clk n r dur (c =? 1) b Hint) as Hint'.
  split; [exact Hint'|]. intros j q Hq.
  destruct (intact_pin_sets j q _ Hint' Hq) as (Hs & _ & _).
  destruct (intact_pin_sets n p b Hint Hp) as (_ & Hd & He).
  rewrite (startPump_full clk n r dur (c =? 1) b p Hp) in Hq |- *.
  cbv zeta in Hq |- *. cbn [pumps] in Hq. unfold digitalRead. cbn [pinLevel].
  rewrite lookup_insert_ne
    by (intros E; apply (step_pin_not_other _ _ Hs (or_intror He)); now symmetry).
  rewrite lookup_insert_ne
    by (intros E; apply (step_pin_not_other _ _ Hs (or_introl Hd)); now symmetry).
  assert (Hold : digitalRead (stepPin q) b = LOW).
  { destruct (decide (n = j)) as [<-|Hne].
    - rewrite list_lookup_insert_eq in Hq by (eapply lookup_lt_Some; eauto).
      injection Hq as <-. exact (Hlow n p Hp).
    - rewrite list_lookup_insert_ne in Hq by exact Hne. exact (Hlow j q Hq). }
  destruct (isRunning p); [|exact Hold].
  rewrite lookup_insert_ne
    by (intros E; apply (step_pin_not_other _ _ Hs (or_intror He)); now symmetry).
  exact Hold.
Qed.

Lemma step_inv_pulse i p us b :
  step_inv b -> pumps b !! i = Some p -> isRunning p = true ->
  step_inv (pulse i p us b).
Proof.
  intros [Hint Hlow] Hp Hr. split.
  - apply (intact_insert i p (pulsed p us) b Hp eq_refl Hint).
  - intros j q Hq.
    unfold pulse, seq_stmt, delayMicroseconds, set_pump, with_pumps, digitalWrite,
      digitalRead in Hq |- *.
    cbn [pumps pinLevel] in Hq |- *.
    destruct (decide (stepPin p = stepPin q)) as [E|E].
    + rewrite E. now rewrite lookup_insert_eq.
    + rewrite !lookup_insert_ne by exact E.
      destruct (decide (i = j)) as [<-|Hne].
      * rewrite list_lookup_insert_eq in Hq by (eapply lookup_lt_Some; eauto).
        injection Hq as <-. now contradiction E.
      * rewrite list_lookup_insert_ne in Hq by exact Hne. exact (Hlow j q Hq).
Qed.

Lemma step_inv_setup : step_inv (setup power_on).
Proof.
  split; [reflexivity|]. intros i p Hp.
  destruct i as [|[|[|[|i]]]]; vm_compute in Hp; try discriminate;
    injection Hp as <-; vm_compute; reflexivity.
Qed.

Lemma reachable_step_inv b : reachable b -> step_inv b.
Proof.
  induction 1 as [|b ev Hb IH]; [exact step_inv_setup|].
  destruct ev as [bytes|clk1 clk2]; cbn [step].
  - apply (Inv_serialEvent step_inv (fun s c b H => H)); exact IH.
  - apply (Inv_loop step_inv (fun _ => True) (fun items b H => H) (fun s c b H => H)
             step_inv_stop step_inv_start step_inv_pulse); [exact IH|].
    intros _ _. exact I.
Qed.

(** X20. Between the statements of the sketch no step output is left
    high: in every reachable state the step pin of every channel reads
    low, so that each pulse is a complete one. *)
Theorem step_outputs_rest_low (b : Board) :
  reachable b ->
  forall i p, pumps b !! i = Some p -> digitalRead (stepPin p) b = LOW.
Proof. intros H. exact (proj2 (reachable_step_inv b H)). Qed.

Lemma step_outputs_witness :
  let b := run [ EvSerial ("START,X,3000,10,0" ++ newline); EvLoop c0 c0;
                 EvLoop (mkClock 1 1000) (mkClock 1 1000) ] in
  List.length (pinWrites b) = 16%nat /\
  forall i p, pumps b !! i = Some p -> digitalRead (stepPin p) b = LOW.
Proof.
  cbv zeta. split; [vm_compute; reflexivity|].
  apply step_outputs_rest_low. apply reachable_run.
Defined.

(** *** The stored values *)

Lemma abs_not_negative r : SFltb (abs r) (F32.of_Z 0) = false.
Proof.
  change (F32.of_Z 0) with (S754_zero false).
  destruct r as [[]|[]| |[] m e]; reflexivity.
Qed.

Lemma emergency_lookup b j :
  pumps (handleEmergencyStop b) !! j
  = if decide (j < 4)%nat then stopped <$> pumps b !! j else pumps b !! j.
Proof.
  unfold handleEmergencyStop. cbn [seq foldl].
  change (pumps (Serial_println "OK" ?x)) with (pumps x).
  rewrite !stopPump_lookup.
  destruct j as [|[|[|[|j]]]]; repeat case_decide; try lia; reflexivity.
Qed.

(** What a command can do to the record of a channel. *)
Lemma processCommand_record clk line b j q :
  pumps (processCommand clk line b) !! j = Some q ->
  exists p, pumps b !! j = Some p /\
    (q = p \/ q = stopped p \/
     exists r dur c, -32768 <= dur < 32768 /\ q = started p (abs r) dur c clk).
Proof.
  unfold processCommand.
  destruct (startsWith (trim line) "START").
  { destruct (handleStartCommand_cases clk (trim line) b)
      as [[text ->]|(n & p & Hp & _ & _ & ->)].
    - intros H. exists q. split; [exact H | now left].
    - change (pumps (Serial_println "OK" ?x)) with (pumps x).
      destruct (startPump_effect clk n (toFloat (part (split_fields (trim line)) 2))
                  (wrap_int (toInt (part (split_fields (trim line)) 3)))
                  (wrap_int (toInt (part (split_fields (trim line)) 4)) =? 1) b p Hp)
        as (H & _).
      rewrite H. destruct (decide (n = j)) as [<-|Hne].
      + rewrite list_lookup_insert_eq by (eapply lookup_lt_Some; eauto).
        intros [= <-]. exists p. split; [exact Hp|]. right; right.
        eexists _, _, _. split; [apply wrap_int_range | reflexivity].
      + rewrite list_lookup_insert_ne by exact Hne.
        intros Hq. exists q. split; [exact Hq | now left]. }
  destruct (startsWith (trim line) "STOP").
  { unfold handleStopCommand.
    destruct (_ || _); [intros H; exists q; split; [exact H | now left]|].
    destruct (_ =? -1); [intros H; exists q; split; [exact H | now left]|].
    change (pumps (seq_stmt (stopPump ?n) (Serial_println "OK") b))
      with (pumps (stopPump n b)).
    rewrite stopPump_lookup. destruct (pumps b !! j) as [p|]; [|now case_decide].
    case_decide; cbn; intros [= <-]; exists p; auto. }
  destruct (String.eqb (trim line) "EMERGENCY").
  { rewrite emergency_lookup. destruct (pumps b !! j) as [p|]; [|now case_decide].
    case_decide; cbn; intros [= <-]; exists p; auto. }
  destruct (String.eqb (trim line) "STATUS");
    intros H; exists q; (split; [exact H | now left]).
Qed.

Lemma well_formed_stopped i p : well_formed i p -> well_formed i (stopped p).
Proof.
  intros H. pose proof H as (H1 & H2 & H3 & [H4|H4]).
  - now rewrite (stopped_idle p (never_activated_idle i p H4)).
  - repeat split; try apply H1; try apply H2; try apply H3. now right.
Qed.

Lemma well_formed_pulsed i p us :
  well_formed i p -> isRunning p = true -> 0 <= us < 4294967296 ->
  well_formed i (pulsed p us).
Proof.
  intros (H1 & H2 & H3 & [H4|H4]) Hr Hus.
  - apply never_activated_idle in H4. congruence.
  - repeat split; try apply H1; try apply H2; try apply Hus. now right.
Qed.

Lemma well_formed_started i p r dur c clk :
  -32768 <= dur < 32768 -> well_formed i (started p (abs r) dur c clk).
Proof.
  intros Hd. unfold well_formed, started.
  cbn [duration startTime lastStepTime intervalMicros rpm].
  split; [exact Hd|]. split; [apply wrap_ulong_range|]. split; [apply wrap_ulong_range|].
  right. split; [reflexivity | apply abs_not_negative].
Qed.

Lemma well_formed_initial i p : never_activated i p -> well_formed i p.
Proof.
  intros H. unfold never_activated in H.
  destruct i as [|[|[|[|i]]]]; cbn in H; try discriminate; injection H as <-;
    (split; [cbn; lia|]; split; [cbn; lia|]; split; [cbn; lia|]; left; reflexivity).
Qed.

(** X21. In every reachable state the values stored for a channel fit
    the C types of their fields (the duration a 16-bit [int], the two
    time stamps 32-bit [unsigned long]), and a channel that has been
    activated since power-on stores the interval that belongs to the
    RPM it stores, an RPM that is not negative. *)
Theorem stored_values_are_well_formed (b : Board) :
  reachable b ->
  forall i p, pumps b !! i = Some p ->
    -32768 <= duration p < 32768 /\
    0 <= startTime p < 4294967296 /\
    0 <= lastStepTime p < 4294967296 /\
    (never_activated i p \/
     (intervalMicros p = interval_of (rpm p) /\ SFltb (rpm p) (F32.of_Z 0) = false)).
Proof.
  change (reachable b -> forall i p, pumps b !! i = Some p -> well_formed i p).
  induction 1 as [|b ev Hb IH].
  - intros i p Hp. apply well_formed_initial. exact Hp.
  - destruct ev as [bytes|clk1 clk2]; cbn [step]; intros i q Hq.
    + rewrite serialEvent_spec in Hq. exact (IH i q Hq).
    + unfold loop in Hq. rewrite updatePumps_lookup in Hq.
      assert (H1 : forall q1,
                 pumps (if stringComplete b
                        then with_input "" false (processCommand clk1 (inputString b) b)
                        else b) !! i = Some q1 -> well_formed i q1).
      { intros q1. destruct (stringComplete b); [|apply IH].
        change (pumps (with_input "" false ?x)) with (pumps x).
        intros H1. destruct (processCommand_record _ _ _ _ _ H1)
          as (p & Hp & [->|[->|(r & dur & c & Hd & ->)]]).
        - exact (IH i p Hp).
        - apply well_formed_stopped. exact (IH i p Hp).
        - now apply well_formed_started. }
      revert Hq H1.
      generalize (if stringComplete b
                  then with_input "" false (processCommand clk1 (inputString b) b)
                  else b).
      intros b1 Hq H1.
      destruct (pumps b1 !! i) as [q1|] eqn:Hq1;
        [|revert Hq; case_decide; discriminate].
      specialize (H1 q1 eq_refl).
      revert Hq; case_decide; cbn; intros Hq; injection Hq as <-; [|exact H1].
      destruct (tick_cases (wrap_ulong (millis clk2)) (wrap_ulong (micros clk2)) q1)
        as [->|[Hr [-> | ->]]].
      * exact H1.
      * now apply well_formed_stopped.
      * apply well_formed_pulsed; [exact H1 | exact Hr | apply wrap_ulong_range].
Qed.

Lemma stored_values_witness :
  let b := run [ EvSerial ("START,X,-50,70000,0" ++ newline);
                 EvLoop (mkClock 5000000000 5000000000000) c0 ] in
  exists p, pumps b !! 0%nat = Some p /\
    duration p = 4464 /\ startTime p = 705032704 /\
    intervalMicros p = interval_of (rpm p) /\ SFltb (rpm p) (F32.of_Z 0) = false.
Proof.
  cbv zeta.
  eexists. split; [vm_compute; reflexivity|].
  split; [reflexivity|]. split; [reflexivity|].
  edestruct (stored_values_are_well_formed _ (reachable_run
               [ EvSerial ("START,X,-50,70000,0" ++ newline);
                 EvLoop (mkClock 5000000000 5000000000000) c0 ]) 0%nat)
    as (_ & _ & _ & [H|H]); [vm_compute; reflexivity | |exact H].
  vm_compute in H. discriminate.
Defined.

(** ** What the scheduler and [setup] write to the pins *)

Lemma updatePump_writes ms us b i :
  exists ws, pinWrites (updatePump ms us b i) = pinWrites b ++ ws /\
             channel_writes b i ws.
Proof.
  unfold updatePump. destruct (pumps b !! i) as [p|] eqn:Hp;
    [|exists []; split; [now rewrite app_nil_r | now left]].
  destruct (isRunning p) eqn:Hr; cbn [negb];
    [|exists []; split; [now rewrite app_nil_r | now left]].
  destruct (negb (continuous p) && duration_expired ms p).
  - rewrite (stopPump_running i b p Hp Hr). exists [(enablePin p, HIGH)].
    split; [reflexivity|]. right. exists p. auto.
  - destruct (step_due us p); [|exists []; split; [now rewrite app_nil_r | now left]].
    exists [(stepPin p, HIGH); (stepPin p, LOW)]. split.
    + unfold pulse, seq_stmt, delayMicroseconds, set_pump, with_pumps, digitalWrite.
      cbn [pinWrites]. now rewrite <- app_assoc.
    + right. exists p. auto.
Qed.

Lemma channel_writes_before ms us b j i ws :
  j <> i -> channel_writes (updatePump ms us b j) i ws -> channel_writes b i ws.
Proof.
  intros Hne [->|(p & Hp & H)]; [now left|]. right. exists p.
  rewrite updatePump_other in Hp by exact Hne. auto.
Qed.

(** X22. In one pass the scheduler writes to the pins, channel by
    channel in the order of the array, at most one thing per channel:
    nothing, or the enable output of a running channel driven high (the
    auto-stop), or one pulse, high then low, on its step output.  It
    never drives an enable output low and never writes a direction
    output. *)
Theorem scheduler_pin_writes (clk : Clock) (b : Board) :
  exists w0 w1 w2 w3,
    pinWrites (updatePumps clk b) = pinWrites b ++ w0 ++ w1 ++ w2 ++ w3 /\
    channel_writes b 0 w0 /\ channel_writes b 1 w1 /\
    channel_writes b 2 w2 /\ channel_writes b 3 w3.
Proof.
  unfold updatePumps. cbn [seq foldl].
  set (ms := wrap_ulong (millis clk)). set (us := wrap_ulong (micros clk)).
  destruct (updatePump_writes ms us b 0) as (w0 & E0 & H0).
  set (b1 := updatePump ms us b 0) in *.
  destruct (updatePump_writes ms us b1 1) as (w1 & E1 & H1).
  set (b2 := updatePump ms us b1 1) in *.
  destruct (updatePump_writes ms us b2 2) as (w2 & E2 & H2).
  set (b3 := updatePump ms us b2 2) in *.
  destruct (updatePump_writes ms us b3 3) as (w3 & E3 & H3).
  exists w0, w1, w2, w3. split.
  - rewrite E3, E2, E1, E0. now rewrite <- !app_assoc.
  - split; [exact H0|]. split.
    { apply (channel_writes_before ms us b 0); [lia | exact H1]. }
    split.
    { apply (channel_writes_before ms us b 0); [lia|].
      apply (channel_writes_before ms us b1 1); [lia | exact H2]. }
    apply (channel_writes_before ms us b 0); [lia|].
    apply (channel_writes_before ms us b1 1); [lia|].
    apply (channel_writes_before ms us b2 2); [lia | exact H3].
Qed.

(** X23. [setup] leaves the records as they are and the drivers
    disabled, whatever the pins showed before: afterwards the shared
    enable output is high, every step and direction output is low, and
    the greeting has been sent. *)
Theorem setup_disables_the_drivers (b : Board) :
  channels_intact b ->
  let b' := setup b in
  pumps b' = pumps b /\
  digitalRead X_ENABLE_PIN b' = HIGH /\
  (forall pin, In pin step_pins \/ In pin dir_pins -> digitalRead pin b' = LOW) /\
  serialOut b' =
    serialOut b ++ [PrintStr "Arduino Pump Controller Ready (Direct Pulse Mode)"; Newline].
Proof.
  intros Hb b'. subst b'.
  destruct (intact_pumps b Hb) as (p0 & p1 & p2 & p3 & Hps & H0 & H1 & H2 & H3).
  unfold setup. rewrite Hps. cbn [foldl]. unfold setup_pump, seq_stmt, pinMode_OUTPUT.
  unfold identity_of in *.
  injection H0 as -> -> -> _. injection H1 as -> -> -> _.
  injection H2 as -> -> -> _. injection H3 as -> -> -> _.
  split; [exact Hps|]. split; [|split; [|reflexivity]].
  - change (digitalRead X_ENABLE_PIN (Serial_println ?s ?x)) with (digitalRead X_ENABLE_PIN x).
    rewrite !digitalRead_write. reflexivity.
  - intros pin Hpin.
    change (digitalRead pin (Serial_println ?s ?x)) with (digitalRead pin x).
    rewrite !digitalRead_write.
    unfold step_pins, dir_pins in Hpin. cbn [In] in Hpin.
    destruct Hpin as [[<-|[<-|[<-|[<-|[]]]]]|[<-|[<-|[<-|[<-|[]]]]]]; reflexivity.
Qed.

Lemma setup_witness :
  let b := run [EvSerial ("START,X,50,10,0" ++ newline); EvLoop c0 c0] in
  digitalRead X_ENABLE_PIN b = LOW /\
  digitalRead X_ENABLE_PIN (setup b) = HIGH.
Proof.
  cbv zeta. split; [vm_compute; reflexivity|].
  apply (setup_disables_the_drivers
           (run [EvSerial ("START,X,50,10,0" ++ newline); EvLoop c0 c0])).
  apply reachable_intact, reachable_run.
Defined.

(** * Further properties of the dashboard *)

Section DashboardProperties.

Import Frontend Dashboard.

Lemma set_running_spec pump value c :
  match set_running pump value c with
  | Some c1 =>
      is_Some (pumpStates c !! pump) /\
      apiBaseUrl c1 = apiBaseUrl c /\ effects c1 = effects c /\
      forall q, pumpStates c1 !! q
                = if decide (q = pump) then with_running value <$> pumpStates c !! q
                  else pumpStates c !! q
  | None => pumpStates c !! pump = None
  end.
Proof.
  unfold set_running. destruct (pumpStates c !! pump) as [s|] eqn:Hs; [|reflexivity].
  split; [eauto|]. split; [reflexivity|]. split; [reflexivity|].
  intros q. cbn [pumpStates]. case_decide as Hq.
  - subst q. rewrite lookup_insert_eq, Hs. reflexivity.
  - now rewrite lookup_insert_ne by congruence.
Qed.

Lemma set_card_same pump card page : set_card pump card page pump = card.
Proof. unfold set_card. now rewrite String.eqb_refl. Qed.

Lemma set_card_other pump card page q : q <> pump -> set_card pump card page q = page q.
Proof. intros H. unfold set_card. now rewrite (proj2 (String.eqb_neq q pump) H). Qed.

(** [updatePumpDisplay] for a pump that has a state: with the four
    elements on the page the card shows the state; with an element
    missing an error is thrown; the other cards are never written. *)
Lemma updatePumpDisplay_spec pump c page s :
  pumpStates c !! pump = Some s ->
  (forall q, q <> pump -> fst (updatePumpDisplay pump c page) q = page q) /\
  if card_complete (page pump)
  then updatePumpDisplay pump c page = (set_card pump (shown (running s)) page, None)
  else is_Some (snd (updatePumpDisplay pump c page)).
Proof.
  intros Hs. unfold updatePumpDisplay. rewrite Hs. cbv zeta.
  destruct (page pump) as [[i|] [t|] [a|] [o|]]; cbn [statusIndicator statusText
    startButton stopButton card_complete fst snd];
    (split; [intros q Hq; try reflexivity; now apply set_card_other | eauto]).
Qed.

Lemma set_and_show_spec pump value c page :
  is_Some (pumpStates c !! pump) ->
  exists c1 page1 thrown,
    set_and_show pump value c page = (c1, page1, thrown) /\
    apiBaseUrl c1 = apiBaseUrl c /\
    effects c1 = effects c ++ [UpdatePumpDisplay pump] /\
    (forall q, pumpStates c1 !! q
               = if decide (q = pump) then with_running value <$> pumpStates c !! q
                 else pumpStates c !! q) /\
    (forall q, q <> pump -> page1 q = page q) /\
    if card_complete (page pump) then thrown = None /\ page1 pump = shown value
    else is_Some thrown.
Proof.
  intros [s Hs]. unfold set_and_show.
  pose proof (set_running_spec pump value c) as H.
  destruct (set_running pump value c) as [c1|]; [|congruence].
  destruct H as (_ & Hu & He & H). cbv zeta.
  assert (Hs1 : pumpStates (emit [UpdatePumpDisplay pump] c1) !! pump
                = Some (with_running value s)).
  { cbn [emit pumpStates]. rewrite H, decide_True, Hs by reflexivity. reflexivity. }
  destruct (updatePumpDisplay_spec pump (emit [UpdatePumpDisplay pump] c1) page _ Hs1)
    as (Hother & Hcard).
  destruct (updatePumpDisplay pump (emit [UpdatePumpDisplay pump] c1) page)
    as [page1 thrown] eqn:E.
  exists (emit [UpdatePumpDisplay pump] c1), page1, thrown.
  split; [reflexivity|]. split; [exact Hu|].
  split; [cbn [emit effects]; now rewrite He|].
  split; [exact H|]. split; [exact Hother|].
  destruct (card_complete (page pump)); [|exact Hcard].
  injection Hcard as -> ->. split; [reflexivity|]. apply set_card_same.
Qed.

Lemma set_and_show_unknown pump value c page :
  pumpStates c !! pump = None ->
  exists message, set_and_show pump value c page = (c, page, Some message).
Proof.
  intros Hs. unfold set_and_show.
  pose proof (set_running_spec pump value c) as H.
  destruct (set_running pump value c) as [c1|]; [|eauto].
  destruct H as ([s H] & _). congruence.
Qed.

(** X24. [stopPump] of the dashboard always sends one request, a POST
    to [/stop_pump] that names the pump.  When the answer reports
    success, the running flag of that pump is cleared and its RPM, time
    and continuous settings stay; when the answer reports a failure or
    the request is rejected, no pump state changes.  The states of the
    other pumps are never touched, and a pump that the controller does
    not know gets no state.  This holds whatever the page holds. *)
Theorem dashboard_stop_clears_one_flag
        (net : FetchOutcome) (pump : string) (c : Controller) (page : Page) :
  let result := stopPump net pump c page in
  fst result = PostStopPump (apiBaseUrl c ++ "/stop_pump") pump /\
  (forall q, q <> pump -> pumpStates (fst (snd result)) !! q = pumpStates c !! q) /\
  match net with
  | Answered true _ =>
      pumpStates (fst (snd result)) !! pump
      = with_running false <$> pumpStates c !! pump
  | _ => pumpStates (fst (snd result)) = pumpStates c
  end.
Proof.
  cbv zeta. unfold stopPump. cbn [fst snd].
  split; [reflexivity|].
  destruct net as [message|[] message]; try (split; reflexivity).
  destruct (pumpStates c !! pump) as [s|] eqn:Hs.
  - destruct (set_and_show_spec pump false c page (ex_intro _ s Hs))
      as (c1 & page1 & thrown & E & _ & _ & H & _).
    rewrite E.
    assert (Hc : pumpStates (fst (match thrown with
                   | Some message => (stop_failed pump message c1, page1)
                   | None => (showNotification (pump ++ " Pump stopped successfully")
                                               "success" c1, page1)
                   end)) = pumpStates c1) by (destruct thrown; reflexivity).
    rewrite Hc. split.
    + intros q Hq. rewrite H. now rewrite decide_False.
    + rewrite H, Hs. now rewrite decide_True.
  - destruct (set_and_show_unknown pump false c page Hs) as (thrown & E).
    rewrite E. cbn [fst stop_failed emit pumpStates]. split; [reflexivity|].
    now rewrite Hs.
Qed.

(** *** The two loops over the pumps *)

Lemma stop_each_show_each ps : forall c page,
  stop_each ps c page = show_each (fun _ => Some false) ps c page.
Proof.
  induction ps as [|pump ps IH]; intros c page; [reflexivity|].
  cbn [stop_each show_each].
  destruct (set_and_show pump false c page) as [[c1 page1] [message|]];
    [reflexivity | apply IH].
Qed.

Lemma merge_status_show_each status ps : forall c page,
  merge_status status ps c page
  = show_each (fun pump => is_one <$> status !! pump) ps c page.
Proof.
  induction ps as [|pump ps IH]; intros c page; [reflexivity|].
  cbn [merge_status show_each].
  destruct (status !! pump) as [v|]; cbn [fmap option_fmap option_map]; [|apply IH].
  destruct (set_and_show pump (is_one v) c page) as [[c1 page1] [message|]];
    [reflexivity | apply IH].
Qed.

Lemma knows_after ps c c1 pump value :
  knows ps c ->
  (forall q, pumpStates c1 !! q
             = if decide (q = pump) then with_running value <$> pumpStates c !! q
               else pumpStates c !! q) ->
  knows ps c1.
Proof.
  intros Hk H q Hq. rewrite H. destruct (Hk q Hq) as [s Hs]. rewrite Hs.
  case_decide; cbn; eauto.
Qed.

(** With every card in place the loop visits all the pumps. *)
Lemma show_each_complete flag ps : forall c page,
  knows ps c -> cards_complete flag ps page ->
  exists c' page',
    show_each flag ps c page = (c', page', None) /\
    (exists done, effects c' = effects c ++ done) /\
    (forall q v, In q ps -> flag q = Some v ->
       pumpStates c' !! q = with_running v <$> pumpStates c !! q /\
       page' q = shown v) /\
    (forall q, ~ In q ps \/ flag q = None ->
       pumpStates c' !! q = pumpStates c !! q /\ page' q = page q).
Proof.
  induction ps as [|pump ps IH]; intros c page Hk Hc.
  - exists c, page. split; [reflexivity|]. split; [exists []; now rewrite app_nil_r|].
    split; [intros q v []|]. intros q _. split; reflexivity.
  - cbn [show_each]. destruct (flag pump) as [v|] eqn:Hv.
    + destruct (set_and_show_spec pump v c page (Hk pump (or_introl eq_refl)))
        as (c1 & page1 & thrown & E & _ & He & H & Hp & Hcard).
      rewrite (Hc pump (or_introl eq_refl)) in Hcard by (rewrite Hv; eauto).
      destruct Hcard as [-> Hshown]. rewrite E.
      destruct (IH c1 page1) as (c2 & page2 & E2 & (done & He2) & Hin & Hout).
      { apply (knows_after ps c c1 pump v); [|exact H].
        intros q Hq. apply Hk. now right. }
      { intros q Hq Hf. destruct (decide (q = pump)) as [->|Hne].
        - now rewrite Hshown.
        - rewrite Hp by exact Hne. apply Hc; [now right | exact Hf]. }
      exists c2, page2. split; [exact E2|]. split.
      { exists ([UpdatePumpDisplay pump] ++ done). now rewrite He2, He, <- app_assoc. }
      split.
      * intros q w Hq Hw. destruct (decide (q ∈ ps)) as [Hd|Hd].
        -- apply list_elem_of_In in Hd. destruct (Hin q w Hd Hw) as [H1 H2].
           split; [|exact H2]. rewrite H1, H.
           case_decide as Hqp; [|reflexivity]. subst q.
           assert (w = v) by congruence. subst w.
           destruct (pumpStates c !! pump); reflexivity.
        -- rewrite list_elem_of_In in Hd. destruct (Hout q (or_introl Hd)) as [H1 H2].
           destruct Hq as [<-|Hq]; [|contradiction].
           assert (w = v) by congruence. subst w.
           rewrite H1, H2, H. now rewrite decide_True.
      * intros q Hq. destruct (decide (q = pump)) as [->|Hne].
        -- destruct Hq as [Hq|Hq]; [exfalso; apply Hq; now left | congruence].
        -- destruct (decide (q ∈ ps)) as [Hd|Hd].
           ++ apply list_elem_of_In in Hd.
              destruct Hq as [Hq|Hq]; [exfalso; apply Hq; now right|].
              destruct (Hout q (or_intror Hq)) as [H1 H2].
              rewrite H1, H2, H, Hp by exact Hne. now rewrite decide_False.
           ++ rewrite list_elem_of_In in Hd.
              destruct (Hout q (or_introl Hd)) as [H1 H2].
              rewrite H1, H2, H, Hp by exact Hne. now rewrite decide_False.
    + destruct (IH c page) as (c2 & page2 & E2 & He2 & Hin & Hout).
      { intros q Hq. apply Hk. now right. }
      { intros q Hq Hf. apply Hc; [now right | exact Hf]. }
      exists c2, page2. split; [exact E2|]. split; [exact He2|]. split.
      * intros q w [<-|Hq] Hw; [congruence|]. now apply Hin.
      * intros q Hq. apply Hout. destruct Hq as [Hq|Hq]; [|now right].
        left. intros Hi. apply Hq. now right.
Qed.

(** With an element of the card of [p] missing, the loop ends at [p]:
    the pumps after it are not visited. *)
Lemma show_each_abort flag done : forall p rest v c page,
  knows (done ++ p :: rest) c ->
  cards_complete flag done page ->
  flag p = Some v -> card_complete (page p) = false ->
  exists c' page' message,
    show_each flag (done ++ p :: rest) c page = (c', page', Some message) /\
    (exists visited, effects c' = effects c ++ visited) /\
    (forall q w, In q (done ++ [p]) -> flag q = Some w ->
       pumpStates c' !! q = with_running w <$> pumpStates c !! q) /\
    (forall q, ~ In q (done ++ [p]) \/ flag q = None ->
       pumpStates c' !! q = pumpStates c !! q).
Proof.
  induction done as [|d done IH]; intros p rest v c page Hk Hc Hv Hp.
  - cbn [app show_each]. rewrite Hv.
    destruct (set_and_show_spec p v c page (Hk p (or_introl eq_refl)))
      as (c1 & page1 & thrown & E & _ & He & H & _ & Hcard).
    rewrite Hp in Hcard. destruct Hcard as [message ->]. rewrite E.
    exists c1, page1, message. split; [reflexivity|]. split; [eauto|]. split.
    + intros q w [<-|[]] Hw. assert (w = v) by congruence. subst w.
      rewrite H. now rewrite decide_True.
    + intros q Hq. rewrite H. rewrite decide_False; [reflexivity|].
      intros ->. destruct Hq as [Hq|Hq]; [apply Hq; now left | congruence].
  - cbn [app show_each].
    assert (Hk' : knows (done ++ p :: rest) c) by (intros q Hq; apply Hk; now right).
    assert (Hc' : cards_complete flag done page)
      by (intros q Hq Hf; apply Hc; [now right | exact Hf]).
    destruct (flag d) as [w|] eqn:Hw.
    + destruct (set_and_show_spec d w c page (Hk d (or_introl eq_refl)))
        as (c1 & page1 & thrown & E & _ & He & H & Hpage & Hcard).
      rewrite (Hc d (or_introl eq_refl)) in Hcard by (rewrite Hw; eauto).
      destruct Hcard as [-> Hshown]. rewrite E.
      assert (Hdp : p <> d).
      { intros ->. rewrite (Hc d (or_introl eq_refl)) in Hp by (rewrite Hw; eauto).
        discriminate. }
      destruct (IH p rest v c1 page1)
        as (c2 & page2 & message & E2 & (visited & He2) & Hin & Hout).
      { apply (knows_after _ c c1 d w Hk' H). }
      { intros q Hq Hf. destruct (decide (q = d)) as [->|Hne].
        - now rewrite Hshown.
        - rewrite Hpage by exact Hne. now apply Hc'. }
      { exact Hv. }
      { rewrite Hpage by exact Hdp. exact Hp. }
      exists c2, page2, message. split; [exact E2|]. split.
      { exists ([UpdatePumpDisplay d] ++ visited). now rewrite He2, He, <- app_assoc. }
      split.
      * intros q u Hq Hu. destruct (decide (q ∈ done ++ [p])) as [Hd|Hd].
        -- apply list_elem_of_In in Hd. rewrite (Hin q u Hd Hu), H.
           case_decide as Hqd; [|reflexivity]. subst q.
           assert (u = w) by congruence. subst u.
           destruct (pumpStates c !! d); reflexivity.
        -- rewrite list_elem_of_In in Hd. rewrite (Hout q (or_introl Hd)), H.
           destruct Hq as [<-|Hq]; [|contradiction].
           assert (u = w) by congruence. subst u. now rewrite decide_True.
      * intros q Hq.
        assert (Hq' : ~ In q (done ++ [p]) \/ flag q = None).
        { destruct Hq as [Hq|Hq]; [|now right]. left. intros Hi. apply Hq. now right. }
        rewrite (Hout q Hq'), H. rewrite decide_False; [reflexivity|].
        intros ->. destruct Hq as [Hq|Hq]; [apply Hq; now left | congruence].
    + destruct (IH p rest v c page Hk' Hc' Hv Hp)
        as (c2 & page2 & message & E2 & He2 & Hin & Hout).
      exists c2, page2, message. split; [exact E2|]. split; [exact He2|]. split.
      * intros q u [<-|Hq] Hu; [congruence|]. now apply Hin.
      * intros q Hq. apply Hout. destruct Hq as [Hq|Hq]; [|now right].
        left. intros Hi. apply Hq. now right.
Qed.

(** X25. [emergencyStop] always sends one request, a POST to
    [/emergency_stop].  When the answer reports success and the page
    holds the four elements of the cards of X, Y and Z, the running
    flags of the three pumps are cleared, their other settings stay,
    every card shows a stopped pump, and the warning notification is
    the last thing shown.  When an element of a card is missing, the
    loop over the pumps ends at the first such pump: the flags of the
    pumps up to and including that pump are cleared, those of the
    pumps after it stay as they were, and the last thing shown is the
    error notification and not the warning.  When the answer reports a
    failure or the request is rejected, neither the pump states nor
    the page change. *)
Theorem dashboard_emergency_stop_clears_all_flags
        (net : FetchOutcome) (c : Controller) (page : Page) :
  knows_pumps c ->
  let result := emergencyStop net c page in
  let c' := fst (snd result) in
  let page' := snd (snd result) in
  fst result = PostEmergencyStop (apiBaseUrl c ++ "/emergency_stop") /\
  match net with
  | Answered true _ =>
      ((forall q, In q ["X"; "Y"; "Z"]%string -> card_complete (page q) = true) ->
       (forall q, In q ["X"; "Y"; "Z"]%string ->
                  pumpStates c' !! q = with_running false <$> pumpStates c !! q /\
                  page' q = shown false) /\
       (forall q, ~ In q ["X"; "Y"; "Z"]%string ->
                  pumpStates c' !! q = pumpStates c !! q /\ page' q = page q) /\
       exists done,
         effects c' =
         done ++ [ShowNotification "Emergency stop activated - All pumps stopped"
                                   "warning"]) /\
      (forall visited p rest,
         ["X"; "Y"; "Z"]%string = visited ++ p :: rest ->
         (forall q, In q visited -> card_complete (page q) = true) ->
         card_complete (page p) = false ->
         (forall q, In q (visited ++ [p]) ->
                    pumpStates c' !! q = with_running false <$> pumpStates c !! q) /\
         (forall q, ~ In q (visited ++ [p]) ->
                    pumpStates c' !! q = pumpStates c !! q) /\
         exists done message,
           effects c' =
           done ++ [ShowNotification ("Emergency stop error: " ++ message) "error"])
  | _ => pumpStates c' = pumpStates c /\ page' = page
  end.
Proof.
  intros Hk. cbv zeta. unfold emergencyStop. cbn [fst snd].
  split; [reflexivity|].
  destruct net as [message|[] message]; try (split; reflexivity).
  rewrite stop_each_show_each. split.
  - intros Hc.
    destruct (show_each_complete (fun _ => Some false) pumps c page Hk)
      as (c1 & page1 & E & _ & Hin & Hout).
    { intros q Hq _. now apply Hc. }
    rewrite E. cbn [fst snd showNotification emit pumpStates effects].
    split; [intros q Hq; now apply Hin|].
    split; [intros q Hq; apply Hout; now left|]. eexists. reflexivity.
  - intros visited p rest Hsplit Hc Hp.
    change pumps with ["X"; "Y"; "Z"]%string in *. unfold knows_pumps in Hk.
    change pumps with ["X"; "Y"; "Z"]%string in Hk.
    rewrite Hsplit in Hk |- *.
    destruct (show_each_abort (fun _ => Some false) visited p rest false c page Hk)
      as (c1 & page1 & thrown & E & _ & Hin & Hout);
      [intros q Hq _; now apply Hc | reflexivity | exact Hp |].
    rewrite E. cbn [fst snd emergency_failed emit pumpStates effects].
    split; [intros q Hq; now apply (Hin q false)|].
    split; [intros q Hq; apply Hout; now left|].
    exists (effects c1 ++ [ConsoleError "Error during emergency stop:" thrown]), thrown.
    now rewrite <- app_assoc.
Qed.

Lemma dashboard_emergency_stop_witness :
  (let result := emergencyStop (Answered true "") new_controller
                               (page_with ["X"; "Y"; "Z"]%string) in
   running <$> pumpStates (fst (snd result)) !! "Z"%string = Some false /\
   snd (snd result) "Z"%string = shown false) /\
  (let result := emergencyStop (Answered true "") running_controller
                               (page_with ["X"; "Z"]%string) in
   running <$> pumpStates (fst (snd result)) !! "Y"%string = Some false /\
   running <$> pumpStates (fst (snd result)) !! "Z"%string = Some true).
Proof.
  split; cbv zeta.
  - destruct (dashboard_emergency_stop_clears_all_flags
                (Answered true "") new_controller (page_with ["X"; "Y"; "Z"]%string))
      as (_ & H & _).
    { intros pump [<-|[<-|[<-|[]]]]; vm_compute; eauto. }
    destruct H as (Hin & _).
    { intros q [<-|[<-|[<-|[]]]]; vm_compute; reflexivity. }
    destruct (Hin "Z"%string) as [-> ->]; [right; right; now left|].
    split; vm_compute; reflexivity.
  - destruct (dashboard_emergency_stop_clears_all_flags
                (Answered true "") running_controller
                (page_with ["X"; "Z"]%string)) as (_ & _ & H).
    { intros pump [<-|[<-|[<-|[]]]]; vm_compute; eauto. }
    destruct (H ["X"%string] "Y"%string ["Z"%string] eq_refl) as (Hin & Hout & _).
    { intros q [<-|[]]; vm_compute; reflexivity. }
    { vm_compute; reflexivity. }
    rewrite (Hin "Y"%string) by (right; now left).
    rewrite (Hout "Z"%string) by (intros [H1|[H1|[]]]; discriminate).
    split; vm_compute; reflexivity.
Defined.

(** X26. [getStatus] takes the running flags from the answer.  When
    the answer reports success and carries a status object, and the
    page holds the four elements of the card of every pump the object
    mentions, the pump X, Y or Z for which the object holds a value is
    shown as running exactly if that value is the number 1, a pump that
    the object leaves out keeps its flag and its card, and entries for
    other ids are ignored; RPM, time and continuous settings stay, and
    the system status reads Ready.  When an element of the card of a
    mentioned pump is missing, the loop ends at the first such pump:
    the pumps after it keep their flags and the system status reads
    Disconnected.  When the answer reports a failure it reads Error,
    and when the request is rejected or the status object is missing it
    reads Disconnected; neither the pump states nor the cards change in
    these cases. *)
Theorem dashboard_status_sets_the_flags
        (net : StatusOutcome) (c : Controller) (page : Page) (el : Element) :
  knows_pumps c ->
  let result := getStatus net c page (Some el) in
  let c' := fst (fst (snd result)) in
  let page' := snd (fst (snd result)) in
  let systemStatus := fst (snd (snd result)) in
  fst result = GetStatus (apiBaseUrl c ++ "/status") /\
  snd (snd (snd result)) = Fulfilled /\
  match net with
  | StatusAnswered true (Some status) =>
      ((forall q, In q ["X"; "Y"; "Z"]%string -> is_Some (status !! q) ->
                  card_complete (page q) = true) ->
       systemStatus = Some (mkElement "Ready" "status-value ready") /\
       (forall q v, In q ["X"; "Y"; "Z"]%string -> status !! q = Some v ->
                    pumpStates c' !! q = with_running (is_one v) <$> pumpStates c !! q /\
                    page' q = shown (is_one v)) /\
       (forall q, ~ In q ["X"; "Y"; "Z"]%string \/ status !! q = None ->
                  pumpStates c' !! q = pumpStates c !! q /\ page' q = page q)) /\
      (forall visited p rest,
         ["X"; "Y"; "Z"]%string = visited ++ p :: rest ->
         (forall q, In q visited -> is_Some (status !! q) ->
                    card_complete (page q) = true) ->
         is_Some (status !! p) -> card_complete (page p) = false ->
         systemStatus = Some (mkElement "Disconnected" "status-value error") /\
         (forall q v, In q (visited ++ [p]) -> status !! q = Some v ->
                      pumpStates c' !! q = with_running (is_one v) <$> pumpStates c !! q) /\
         (forall q, ~ In q (visited ++ [p]) \/ status !! q = None ->
                    pumpStates c' !! q = pumpStates c !! q))
  | StatusAnswered false _ =>
      systemStatus = Some (mkElement "Error" "status-value error") /\
      pumpStates c' = pumpStates c /\ page' = page
  | _ =>
      systemStatus = Some (mkElement "Disconnected" "status-value error") /\
      pumpStates c' = pumpStates c /\ page' = page
  end.
Proof.
  intros Hk. cbv zeta. unfold getStatus. cbn [fst snd].
  destruct net as [message|[] [status|]]; try (repeat split; reflexivity).
  rewrite merge_status_show_each.
  assert (Hflag : forall q w, is_one <$> status !! q = Some w ->
                              exists v, status !! q = Some v /\ w = is_one v).
  { intros q w H. destruct (status !! q) as [v|]; [|discriminate].
    injection H as <-. eauto. }
  assert (Hnone : forall q, is_one <$> status !! q = None -> status !! q = None).
  { intros q H. destruct (status !! q); [discriminate | reflexivity]. }
  assert (Hsome : forall q, is_Some (is_one <$> status !! q) -> is_Some (status !! q)).
  { intros q [w H]. destruct (Hflag q w H) as (v & -> & _). eauto. }
  split; [reflexivity|].
  assert (Hdone : forall r : Controller * Page * option string,
            snd (snd (match r with
                      | (c1, page1, Some message) =>
                          let '(c2, e, done) := status_failed message c1 (Some el) in
                          (c2, page1, (e, done))
                      | (c1, page1, None) =>
                          (c1, page1, (Some (mkElement "Ready" "status-value ready"),
                                       Fulfilled))
                      end)) = Fulfilled).
  { intros [[c1 page1] [message|]]; reflexivity. }
  split; [apply Hdone|]. clear Hdone. split.
  - intros Hc.
    destruct (show_each_complete (fun q => is_one <$> status !! q) pumps c page Hk)
      as (c1 & page1 & E & _ & Hin & Hout).
    { intros q Hq Hf. apply Hc; [exact Hq | now apply Hsome]. }
    rewrite E. cbn [fst snd]. split; [reflexivity|]. split.
    + intros q v Hq Hv. apply Hin; [exact Hq | now rewrite Hv].
    + intros q Hq. apply Hout. destruct Hq as [Hq|Hq]; [now left | right; now rewrite Hq].
  - intros visited p rest Hsplit Hc [v Hv] Hp.
    unfold knows_pumps in Hk. change pumps with ["X"; "Y"; "Z"]%string in *.
    rewrite Hsplit in Hk |- *.
    destruct (show_each_abort (fun q => is_one <$> status !! q) visited p rest
                              (is_one v) c page Hk)
      as (c1 & page1 & thrown & E & _ & Hin & Hout);
      [intros q Hq Hf; apply Hc; [exact Hq | now apply Hsome]
      | now rewrite Hv | exact Hp |].
    rewrite E. cbn [fst snd status_failed emit pumpStates]. split; [reflexivity|]. split.
    + intros q w Hq Hw. apply Hin; [exact Hq | now rewrite Hw].
    + intros q Hq. apply Hout. destruct Hq as [Hq|Hq]; [now left | right; now rewrite Hq].
Qed.

Lemma dashboard_status_witness :
  let status := <["X"%string := JNumber one]> (<["Y"%string := JBool true]>
                  (<["A"%string := JNumber one]> ∅)) in
  (let result := getStatus (StatusAnswered true (Some status)) new_controller
                           (page_with ["X"; "Y"; "Z"]%string) (Some (mkElement "" "")) in
   running <$> pumpStates (fst (fst (snd result))) !! "X"%string = Some true /\
   running <$> pumpStates (fst (fst (snd result))) !! "Y"%string = Some false /\
   pumpStates (fst (fst (snd result))) !! "A"%string = None /\
   snd (fst (snd result)) "X"%string = shown true) /\
  (let result := getStatus (StatusAnswered true (Some status)) new_controller
                           (page_with ["Y"; "Z"]%string) (Some (mkElement "" "")) in
   fst (snd (snd result)) = Some (mkElement "Disconnected" "status-value error")).
Proof.
  cbv zeta.
  assert (Hk : knows_pumps new_controller).
  { intros pump [<-|[<-|[<-|[]]]]; vm_compute; eauto. }
  split.
  - destruct (dashboard_status_sets_the_flags
                (StatusAnswered true (Some (<["X"%string := JNumber one]>
                   (<["Y"%string := JBool true]> (<["A"%string := JNumber one]> ∅)))))
                new_controller (page_with ["X"; "Y"; "Z"]%string) (mkElement "" "") Hk)
      as (_ & _ & H & _).
    destruct H as (_ & Hin & Hout).
    { intros q [<-|[<-|[<-|[]]]] _; vm_compute; reflexivity. }
    destruct (Hin "X"%string (JNumber one)) as [-> ->]; [now left | reflexivity|].
    destruct (Hin "Y"%string (JBool true)) as [-> _]; [right; now left | reflexivity|].
    destruct (Hout "A"%string) as [-> _].
    { left. intros [H|[H|[H|[]]]]; discriminate. }
    repeat split; vm_compute; reflexivity.
  - destruct (dashboard_status_sets_the_flags
                (StatusAnswered true (Some (<["X"%string := JNumber one]>
                   (<["Y"%string := JBool true]> (<["A"%string := JNumber one]> ∅)))))
                new_controller (page_with ["Y"; "Z"]%string) (mkElement "" "") Hk)
      as (_ & _ & _ & H).
    destruct (H [] "X"%string ["Y"; "Z"]%string eq_refl) as (-> & _).
    + intros q [].
    + vm_compute; eauto.
    + vm_compute; reflexivity.
    + reflexivity.
Defined.

(** *** Starting the selected pumps *)

Lemma start_requests_app l1 l2 :
  start_requests (l1 ++ l2) = start_requests l1 ++ start_requests l2.
Proof. apply omap_app. Qed.

Lemma startPump_requests doc net pump c req :
  request_of doc pump = Some req ->
  exists c',
    startPump doc net pump c = (c', Fulfilled) /\
    start_requests (effects c')
    = start_requests (effects c) ++ (if startable doc pump then [req] else []).
Proof.
  unfold request_of, startable, startPump.
  destruct (rpm_input doc pump) as [r|]; [|discriminate].
  destruct (time_input doc pump) as [t|]; [|discriminate].
  destruct (continuous_checkbox doc pump) as [k|]; [|discriminate].
  intros [= <-]. cbv zeta.
  destruct (is_zero (or_zero (parseFloat r)) || isNaN (or_zero (parseFloat r)));
    cbn [negb].
  - eexists. split; [reflexivity|]. unfold showNotification, emit. cbn [effects].
    rewrite start_requests_app. reflexivity.
  - destruct net as [message|[] message].
    + eexists. split; [reflexivity|]. unfold start_failed, emit. cbn [effects].
      rewrite !start_requests_app. cbn. now rewrite app_nil_r.
    + unfold emit at 1. cbn [pumpStates].
      destruct (pumpStates c !! pump).
      * eexists. split; [reflexivity|]. unfold showNotification, emit.
        cbn [effects]. rewrite !start_requests_app. cbn. now rewrite !app_nil_r.
      * eexists. split; [reflexivity|]. unfold start_failed, emit. cbn [effects].
        rewrite !start_requests_app. cbn. now rewrite app_nil_r.
    + eexists. split; [reflexivity|]. unfold showNotification, emit. cbn [effects].
      rewrite !start_requests_app. cbn. now rewrite app_nil_r.
Qed.

Lemma start_each_requests doc net selected : forall k c,
  page_complete doc selected ->
  exists c',
    start_each doc net k selected c = (c', Fulfilled) /\
    start_requests (effects c')
    = start_requests (effects c)
      ++ omap (request_of doc) (List.filter (startable doc) selected).
Proof.
  induction selected as [|pump rest IH]; intros k c Hpage.
  - exists c. split; [reflexivity|]. cbn. now rewrite app_nil_r.
  - destruct (Hpage pump (or_introl eq_refl)) as [req Hreq].
    destruct (startPump_requests doc (net k) pump c req Hreq) as (c1 & E1 & R1).
    destruct (IH (S k) c1) as (c2 & E2 & R2).
    { intros q Hq. apply Hpage. now right. }
    exists c2. cbn [start_each]. rewrite E1. split; [exact E2|].
    rewrite R2, R1. cbn [List.filter].
    destruct (startable doc pump); cbn [omap list_omap]; [|now rewrite app_nil_r].
    rewrite Hreq. now rewrite <- app_assoc.
Qed.

(** X27. [startSelectedPumps] starts the checked pumps one after the
    other, in the order of the page.  With all their inputs on the
    page, it sends exactly one [start_pump] request for each checked
    pump whose RPM input holds a number other than 0, and none for the
    others: a pump with RPM 0 is skipped and does not keep the pumps
    after it from being started, and neither does a request that fails.
    With no pump checked it shows the notification No pumps selected
    and does nothing else. *)
Theorem start_selected_sends_one_request_per_pump
        (boxes : list Checkbox) (doc : Document) (net : nat -> FetchOutcome)
        (c : Controller) :
  page_complete doc (dataset_pump <$> checked_boxes boxes) ->
  let selected := dataset_pump <$> checked_boxes boxes in
  let result := startSelectedPumps boxes doc net c in
  snd result = Fulfilled /\
  start_requests (effects (fst result))
  = start_requests (effects c)
    ++ omap (request_of doc) (List.filter (startable doc) selected) /\
  (selected = [] -> fst result = showNotification "No pumps selected" "warning" c).
Proof.
  intros Hpage selected result. subst result. unfold startSelectedPumps.
  fold selected. fold selected in Hpage. clearbody selected.
  destruct selected as [|pump rest].
  - cbn. split; [reflexivity|]. split; [|reflexivity].
    rewrite start_requests_app. cbn. reflexivity.
  - cbn [List.length Nat.eqb].
    destruct (start_each_requests doc net (pump :: rest) 0 c Hpage) as (c' & E & R).
    rewrite E. cbn [fst snd]. split; [reflexivity|]. split; [exact R | discriminate].
Qed.

Lemma start_selected_witness :
  let boxes := [mkCheckbox "X" true; mkCheckbox "Y" false; mkCheckbox "Z" true] in
  let doc := mkDocument (fun pump => if String.eqb pump "X" then Some "0"%string
                                     else Some "120"%string)
                        (fun _ => Some "30"%string) (fun _ => Some false) in
  List.length
    (start_requests
       (effects (fst (startSelectedPumps boxes doc (fun _ => Rejected "offline")
                                         new_controller)))) = 1%nat.
Proof.
  cbv zeta.
  edestruct (start_selected_sends_one_request_per_pump
               [mkCheckbox "X" true; mkCheckbox "Y" false; mkCheckbox "Z" true]
               (mkDocument (fun pump => if String.eqb pump "X" then Some "0"%string
                                        else Some "120"%string)
                           (fun _ => Some "30"%string) (fun _ => Some false))
               (fun _ => Rejected "offline") new_controller) as (_ & H & _).
  - intros pump [<-|[<-|[]]]; vm_compute; eauto.
  - rewrite H. vm_compute. reflexivity.
Defined.

(** *** The selection boxes *)

Lemma filter_length_le {A} (f : A -> bool) l :
  (List.length (List.filter f l) <= List.length l)%nat.
Proof.
  induction l as [|x l IH]; [reflexivity|]. cbn [List.filter].
  destruct (f x); cbn [List.length]; lia.
Qed.

Lemma filter_length_all {A} (f : A -> bool) l :
  List.length (List.filter f l) = List.length l <-> forall x, In x l -> f x = true.
Proof.
  induction l as [|x l IH]; [split; [intros _ y []|reflexivity]|].
  cbn [List.filter]. pose proof (filter_length_le f l) as Hle.
  destruct (f x) eqn:Hx; cbn [List.length].
  - split.
    + intros H y [<-|Hy]; [exact Hx|]. apply IH; [lia | exact Hy].
    + intros H. f_equal. apply IH. intros y Hy. apply H. now right.
  - split; [lia|]. intros H. specialize (H x (or_introl eq_refl)). congruence.
Qed.

Lemma filter_length_some {A} (f : A -> bool) l :
  (0 < List.length (List.filter f l))%nat <-> exists x, In x l /\ f x = true.
Proof.
  induction l as [|x l IH]; [split; [cbn; lia | intros (y & [] & _)]|].
  cbn [List.filter]. destruct (f x) eqn:Hx; cbn [List.length].
  - split; [intros _; exists x; split; [now left | exact Hx] | lia].
  - rewrite IH. split.
    + intros (y & Hy & Hf). exists y. split; [now right | exact Hf].
    + intros (y & [<-|Hy] & Hf); [congruence|]. exists y. auto.
Qed.

Lemma filter_length_short {A} (f : A -> bool) l :
  (List.length (List.filter f l) < List.length l)%nat <-> exists x, In x l /\ f x = false.
Proof.
  induction l as [|x l IH]; [split; [cbn; lia | intros (y & [] & _)]|].
  cbn [List.filter]. pose proof (filter_length_le f l) as Hle.
  destruct (f x) eqn:Hx; cbn [List.length].
  - rewrite <- Nat.succ_lt_mono, IH. split.
    + intros (y & Hy & Hf). exists y. split; [now right | exact Hf].
    + intros (y & [<-|Hy] & Hf); [congruence|]. exists y. auto.
  - split; [intros _; exists x; split; [now left | exact Hx] | lia].
Qed.

(** X28. [updateSelectAllState] makes the select-all box reflect the
    pump checkboxes: it is checked exactly when every pump checkbox is
    checked (also when there is none), and it is indeterminate exactly
    when some pump checkbox is checked and some is not; the pump
    checkboxes themselves are left alone. *)
Theorem select_all_box_reflects_the_checkboxes (s : Selection) :
  let s' := updateSelectAllState s in
  pump_checkboxes s' = pump_checkboxes s /\
  (selectAll_checked s' = true <->
   forall cb, In cb (pump_checkboxes s) -> checked cb = true) /\
  (selectAll_indeterminate s' = true <->
   (exists cb, In cb (pump_checkboxes s) /\ checked cb = true) /\
   (exists cb, In cb (pump_checkboxes s) /\ checked cb = false)).
Proof.
  cbv zeta. unfold updateSelectAllState, checked_boxes.
  cbn [pump_checkboxes selectAll_checked selectAll_indeterminate].
  split; [reflexivity|]. split.
  - rewrite Nat.eqb_eq, <- filter_length_all. split; intros H; now symmetry.
  - rewrite andb_true_iff, !Nat.ltb_lt, filter_length_some, filter_length_short.
    reflexivity.
Qed.

Lemma filter_set_checked value l :
  List.filter checked (set_checked value <$> l)
  = if value then set_checked value <$> l else [].
Proof.
  induction l as [|cb l IH]; [now destruct value|].
  cbn [fmap list_fmap List.filter set_checked checked].
  change (list_fmap _ _ (set_checked value) l) with (set_checked value <$> l).
  rewrite IH. now destruct value.
Qed.

(** X29. [handleSelectAll] gives every pump checkbox and every card
    checkbox the state of the select-all box and keeps their pumps; the
    count it then shows is the number of pump checkboxes when the box
    was checked and 0 when it was cleared.  [updateSelectAllState]
    after it never leaves the select-all box indeterminate. *)
Theorem select_all_sets_every_checkbox (value : bool) (s : Selection) :
  let s' := handleSelectAll value s in
  (forall cb, In cb (pump_checkboxes s' ++ pump_selects s') -> checked cb = value) /\
  dataset_pump <$> pump_checkboxes s' = dataset_pump <$> pump_checkboxes s /\
  dataset_pump <$> pump_selects s' = dataset_pump <$> pump_selects s /\
  selectedPumps_shown s' = (if value then List.length (pump_checkboxes s) else 0%nat) /\
  selectAll_indeterminate (updateSelectAllState s') = false.
Proof.
  cbv zeta. unfold handleSelectAll, updateSelectedCount, updateSelectAllState, checked_boxes.
  cbn [pump_checkboxes pump_selects selectedPumps_shown selectAll_indeterminate].
  rewrite !filter_set_checked.
  split; [|split; [|split; [|split]]].
  - intros cb Hcb. rewrite <- fmap_app in Hcb.
    apply list_elem_of_In, list_elem_of_fmap in Hcb. destruct Hcb as (cb0 & -> & _).
    reflexivity.
  - rewrite <- list_fmap_compose. reflexivity.
  - rewrite <- list_fmap_compose. reflexivity.
  - destruct value; [now rewrite length_fmap | reflexivity].
  - destruct value; cbn [List.length].
    + rewrite Nat.ltb_irrefl. apply andb_false_r.
    + reflexivity.
Qed.

End DashboardProperties.
